(** * jetbrainer/application: the service-lifecycle orchestrator

    A shallow embedding of package [app] (the orchestrator [Service], its
    configuration options, the signal trap and the liveness / readiness
    handlers) and the properties of it that the specification states.

    Conventions of the embedding.
    - Go code that calls into the outside world (network dials, pings,
      closing a resource, the logger) runs in the monad [M]: it threads a
      [State] made of the external world [W], the heap of [atomic.Value]
      cells and the trace of what the program has done, and it ends in a
      normal return, in [os.Exit] or in a panic.  A loop that has no bound
      in the source takes a [fuel] argument; [None] means that the fuel ran
      out (or that a channel receive never fires).
    - A Go interface value ([DB], [Redis], [SubService], [context.Context],
      a user-defined [Option], a [Checker]) is a record of its methods, each
      a transformer of the external world.  Calls into them are assumed to
      return.
    - Slices are lists; a nil slice and an empty one are both [[]].  Slices
      of pointers hold no nil pointer.
    - [map] iteration order is chosen by the runtime: [map_range] of the
      environment gives it, and is only known to visit every entry once.
    - [go f()] is recorded in the trace as a goroutine launched.  What the
      serving goroutines do is outside the model; the readiness goroutine
      runs [Ready], which is modelled as a function of its own. *)

From Stdlib Require Import ZArith String Ascii.
From stdpp Require Import base option list gmap strings fin_maps pretty.

Local Open Scope Z_scope.

(** ** Errors *)

(** Go [error] values.  [ErrTermSig] is the package variable of signal.go;
    [Canceled] and [DeadlineExceeded] are those of package [context];
    [ErrorString] is an [errors.New] value and [WrapError] an error that
    [Unwrap]s to [inner].  A nil error is [None : option Error]. *)
Inductive Error : Type :=
| ErrTermSig
| Canceled
| DeadlineExceeded
| ErrorString (msg : string)
| WrapError (msg : string) (inner : Error).

#[global] Instance Error_eq_dec : EqDecision Error.
Proof. solve_decision. Defined.

(** [err.Error()] *)
Definition Error_Error (e : Error) : string :=
  match e with
  | ErrTermSig => "termination signal caught"
  | Canceled => "context canceled"
  | DeadlineExceeded => "context deadline exceeded"
  | ErrorString msg => msg
  | WrapError msg _ => msg
  end.

(** [errors.Is(err, target)]: equality along the [Unwrap] chain. *)
Fixpoint errors_Is (err target : Error) : bool :=
  if bool_decide (err = target) then true
  else match err with
       | WrapError _ inner => errors_Is inner target
       | _ => false
       end.

(** ** Handles of the runtime and of the libraries *)

Definition loc := nat.            (* address of an [atomic.Value] *)
Definition Chan := nat.           (* a channel *)
Definition net_Conn := nat.       (* a [net.Conn] *)
Definition grpc_ClientConn := nat.

(** What an [atomic.Value] can hold; only booleans are stored by this
    package, anything else stands for a value put there by other code. *)
Inductive any : Type :=
| VBool (b : bool)
| VOther (ty : string).

(** [grpc.NewServer()] gives a server with no service registered. *)
Record grpc_Server : Type := { registered : list string }.

Definition grpc_NewServer : grpc_Server := {| registered := [] |}.

Record GRPCServer : Type := { address : string; server : grpc_Server }.

(** ** The trace *)

Inductive Level : Type := LvlDebug | LvlInfo | LvlError.

(** Arguments handed to [Msgf]; [ArgLogErr e] is [log.Err(e)]. *)
Inductive LogArg : Type :=
| ArgString (s : string)
| ArgLogErr (e : option Error).

(** The goroutines [Start] launches. *)
Inductive Task : Type :=
| TaskServeHTTP (addr : string)
| TaskServeGRPC (addr : string)
| TaskReady.

#[global] Instance Task_eq_dec : EqDecision Task.
Proof. solve_decision. Defined.

(** Calls that leave the package. *)
Inductive Call : Type :=
| CallSubReady (key : string)
| CallSubClose (key : string)
| CallDBPing
| CallDBClose
| CallRedisPing
| CallRedisClose
| CallDialTimeout (addr : string) (timeout : Z)
| CallConnClose (c : net_Conn)
| CallGRPCDial (addr : string)
| CallClientConnClose (c : grpc_ClientConn)
| CallGracefulStop (addr : string)
| CallShutdown (addr : string)
| CallCtxErr
| CallChecker
| CallOptionApply.

Inductive Event : Type :=
| EvLog (lvl : Level) (format : string) (args : list LogArg)
| EvCall (c : Call)
| EvGo (t : Task).

(** ** How a computation ends *)

Inductive Outcome (A : Type) : Type :=
| Ret (a : A)
| Exit (code : Z)
| Panic (msg : string).

Arguments Ret {A} a.
Arguments Exit {A} code.
Arguments Panic {A} msg.

(** ** HTTP responses *)

(** An [http.ResponseWriter]: the header map being built, what has been
    sent (status line and the headers at that moment) and the body written.
    [rw_peer_gone] makes every [Write] fail, as on a broken connection. *)
Record ResponseWriter : Type := {
  rw_header : gmap string string;
  rw_sent : option (Z * gmap string string);
  rw_body : string;
  rw_peer_gone : bool
}.

Definition http_StatusOK : Z := 200.
Definition http_StatusInternalServerError : Z := 500.
Definition http_StatusServiceUnavailable : Z := 503.
Definition http_StatusNotFound : Z := 404.
Definition http_StatusMethodNotAllowed : Z := 405.
Definition http_DefaultMaxHeaderBytes : Z := 1048576.
Definition time_Second : Z := 1000000000.

Definition NewRecorder : ResponseWriter :=
  {| rw_header := ∅; rw_sent := None; rw_body := ""; rw_peer_gone := false |}.

(** [w.Header().Set(k, v)] *)
Definition Header_Set (k v : string) (w : ResponseWriter) : ResponseWriter :=
  {| rw_header := <[k := v]> (rw_header w); rw_sent := rw_sent w;
     rw_body := rw_body w; rw_peer_gone := rw_peer_gone w |}.

(** [w.Header().Del(k)] *)
Definition Header_Del (k : string) (w : ResponseWriter) : ResponseWriter :=
  {| rw_header := delete k (rw_header w); rw_sent := rw_sent w;
     rw_body := rw_body w; rw_peer_gone := rw_peer_gone w |}.

(** [w.WriteHeader(code)]: only the first call sends the status line. *)
Definition WriteHeader (code : Z) (w : ResponseWriter) : ResponseWriter :=
  match rw_sent w with
  | Some _ => w
  | None => {| rw_header := rw_header w; rw_sent := Some (code, rw_header w);
               rw_body := rw_body w; rw_peer_gone := rw_peer_gone w |}
  end.

(** [w.Write(p)]: sends a 200 status line if none went out, then the bytes. *)
Definition ResponseWriter_Write (p : string) (w : ResponseWriter)
  : ResponseWriter * option Error :=
  let w1 := WriteHeader http_StatusOK w in
  if rw_peer_gone w1 then (w1, Some (ErrorString "write: broken pipe"))
  else ({| rw_header := rw_header w1; rw_sent := rw_sent w1;
           rw_body := rw_body w1 +:+ p; rw_peer_gone := rw_peer_gone w1 |}, None).

(** [http.Error(w, msg, code)] *)
Definition http_Error (w : ResponseWriter) (msg : string) (code : Z) : ResponseWriter :=
  let w1 := Header_Del "Content-Length" w in
  let w2 := Header_Set "Content-Type" "text/plain; charset=utf-8" w1 in
  let w3 := Header_Set "X-Content-Type-Options" "nosniff" w2 in
  let w4 := WriteHeader code w3 in
  fst (ResponseWriter_Write (msg +:+ String "010"%char EmptyString) w4).

Definition status_of (w : ResponseWriter) : option Z := fst <$> rw_sent w.

(** ** JSON encoding of the error payload *)

Record errorResponse : Type := { ErrorCode : Z; ErrorDetails : string }.

Definition dquote : string := String "034"%char EmptyString.

Definition hex_digit (n : N) : ascii :=
  ascii_of_N (if (n <? 10)%N then 48 + n else 87 + n)%N.

(** [\u00XX] *)
Definition json_u00 (c : ascii) : string :=
  let n := N_of_ascii c in
  String "092"%char (String "u"%char (String "0"%char (String "0"%char
    (String (hex_digit (n / 16)) (String (hex_digit (n mod 16)) EmptyString))))).

(** One byte of a string as [encoding/json] writes it (HTML escaping on). *)
Definition json_escape_char (c : ascii) : string :=
  let n := N_of_ascii c in
  if (n =? 34)%N then String "092"%char dquote
  else if (n =? 92)%N then String "092"%char (String "092"%char EmptyString)
  else if (n =? 10)%N then String "092"%char "n"
  else if (n =? 13)%N then String "092"%char "r"
  else if (n =? 9)%N then String "092"%char "t"
  else if (n <? 32)%N then json_u00 c
  else if (n =? 60)%N || (n =? 62)%N || (n =? 38)%N then json_u00 c
  else String c EmptyString.

Fixpoint json_escape (s : string) : string :=
  match s with
  | EmptyString => EmptyString
  | String c s' => json_escape_char c +:+ json_escape s'
  end.

Definition json_string (s : string) : string := dquote +:+ json_escape s +:+ dquote.

(** [json.Marshal(errorResponse{...})]: the fields in declaration order;
    a struct of an int and a string never fails to encode. *)
Definition json_Marshal (r : errorResponse) : string * option Error :=
  ("{" +:+ json_string "ErrorCode" +:+ ":" +:+ pretty (ErrorCode r) +:+ ","
       +:+ json_string "ErrorDetails" +:+ ":" +:+ json_string (ErrorDetails r) +:+ "}",
   None).

(** ** The orchestrator's data, over an external world [W] *)

Section Model.
Context {W : Type}.

(** [context.Context]: [Done()] gives a channel (nil for a context that can
    never be cancelled) and [Err()] the reason once it is closed. *)
Record context_Context : Type := {
  ctx_Done : option Chan;
  ctx_Err : W -> option Error * W
}.

Record DB : Type := {
  DB_Ping : context_Context -> W -> option Error * W;
  DB_Close : W -> option Error * W
}.

Record Redis : Type := {
  Redis_Ping : context_Context -> W -> (string * option Error) * W;
  Redis_Close : W -> option Error * W
}.

Record SubService : Type := {
  SubService_Ready : W -> bool * W;
  SubService_Name : string;         (* [Name()] is a getter: it changes nothing *)
  SubService_Close : W -> option Error * W
}.

(** A [Checker] of health.go: either the method value [s.IsAlive] of the
    orchestrator the handler was built for, or any other function. *)
Inductive Checker : Type :=
| CkIsAlive
| CkFunc (f : W -> bool * W).

(** What a route of the status listener runs. *)
Inductive HandlerFunc : Type :=
| HAlive (areAlive : list Checker)
| HReady (areReady : list (option loc))
| HExternal (name : string).

Record Route : Type := {
  route_method : option string;    (* [None]: any method, as [Handle] and [Mount] *)
  route_pattern : string;
  route_mount : bool;              (* matches every path under the pattern *)
  route_handler : HandlerFunc
}.

Record Router : Type := {
  middlewares : list string;
  routes : list Route
}.

Record http_Server : Type := {
  Addr : string;
  Handler : Router;
  ReadTimeout : Z;
  WriteTimeout : Z;
  MaxHeaderBytes : Z
}.

Record Service : Type := {
  Name : string;
  ctx : context_Context;
  GRPCServers : list GRPCServer;
  HTTPServers : list http_Server;
  Service_DB : option DB;
  Service_Redis : option Redis;
  isReady : option loc;
  ErrChan : option Chan;
  SubServices : gmap string SubService;
  sigHandler : option Chan
}.

(** The program state: the world outside, the [atomic.Value] cells
    ([Some None] is a cell nothing was stored in), the number of channels
    made and the trace. *)
Record State : Type := {
  ext : W;
  atomics : gmap loc (option any);
  nchans : nat;
  trace : list Event
}.

(** What the libraries and the runtime do, as far as this package sees. *)
Record Env : Type := {
  net_DialTimeout : string -> string -> Z -> W -> (option net_Conn * option Error) * W;
  net_Conn_Close : net_Conn -> W -> option Error * W;
  grpc_DialContext : context_Context -> string -> W
                     -> (option grpc_ClientConn * option Error) * W;
  grpc_ClientConn_Close : grpc_ClientConn -> W -> option Error * W;
  grpc_Server_GracefulStop : GRPCServer -> W -> W;
  http_Server_Shutdown : http_Server -> context_Context -> W -> option Error * W;
  (* a receive on a single channel: [None] when it never fires *)
  chan_recv : Chan -> W -> option W;
  (* [select] on two channels: [true] when the first case fires *)
  chan_select : Chan -> Chan -> W -> option (bool * W);
  external_handler : string -> ResponseWriter -> W -> ResponseWriter * W;
  map_range : gmap string SubService -> W -> list (string * SubService);
  map_range_perm : forall m w, map_range m w ≡ₚ map_to_list m
}.

(** ** The monad *)

Definition M (A : Type) : Type := State -> option (Outcome A * State).

#[global] Instance M_ret : MRet M := fun A a st => Some (Ret a, st).

#[global] Instance M_bind : MBind M := fun A B f m st =>
  match m st with
  | None => None
  | Some (Ret a, st') => f a st'
  | Some (Exit c, st') => Some (Exit c, st')
  | Some (Panic p, st') => Some (Panic p, st')
  end.

Definition emit (e : Event) (st : State) : State :=
  {| ext := ext st; atomics := atomics st; nchans := nchans st;
     trace := trace st ++ [e] |}.

Definition set_ext (w : W) (st : State) : State :=
  {| ext := w; atomics := atomics st; nchans := nchans st; trace := trace st |}.

Definition set_atomics (h : gmap loc (option any)) (st : State) : State :=
  {| ext := ext st; atomics := h; nchans := nchans st; trace := trace st |}.

(** A call into the outside world, recorded in the trace. *)
Definition extcall {A : Type} (c : Call) (f : W -> A * W) : M A :=
  fun st => let r := f (ext st) in Some (Ret (fst r), emit (EvCall c) (set_ext (snd r) st)).

(** [log.<Level>().Msgf(format, args...)] *)
Definition logf (lvl : Level) (format : string) (args : list LogArg) : M unit :=
  fun st => Some (Ret tt, emit (EvLog lvl format args) st).

(** [go f()] *)
Definition go (t : Task) : M unit :=
  fun st => Some (Ret tt, emit (EvGo t) st).

Definition os_Exit {A : Type} (code : Z) : M A := fun st => Some (Exit code, st).

Definition panic {A : Type} (msg : string) : M A := fun st => Some (Panic msg, st).

Definition out_of_fuel {A : Type} : M A := fun _ => None.

Definition nil_deref : string := "invalid memory address or nil pointer dereference".

(** [make(chan T)] *)
Definition make_chan : M Chan :=
  fun st => Some (Ret (nchans st),
                  {| ext := ext st; atomics := atomics st; nchans := S (nchans st);
                     trace := trace st |}).

(** [&atomic.Value{}] *)
Definition atomic_new : M loc :=
  fun st => let l := fresh (dom (atomics st)) in
            Some (Ret l, set_atomics (<[l := None]> (atomics st)) st).

(** [v.Store(x)]; storing a value of another type than the one held panics. *)
Definition atomic_Store (p : option loc) (x : any) : M unit :=
  fun st =>
    match p with
    | None => Some (Panic nil_deref, st)
    | Some l =>
        match atomics st !! l with
        | None => Some (Panic nil_deref, st)
        | Some (Some (VOther _)) =>
            Some (Panic "sync/atomic: store of inconsistently typed value into Value", st)
        | Some _ => Some (Ret tt, set_atomics (<[l := Some x]> (atomics st)) st)
        end
    end.

(** [v.Load()]: [None] is the nil interface of a cell never stored to. *)
Definition atomic_Load (p : option loc) : M (option any) :=
  fun st =>
    match p with
    | None => Some (Panic nil_deref, st)
    | Some l =>
        match atomics st !! l with
        | None => Some (Panic nil_deref, st)
        | Some v => Some (Ret v, st)
        end
    end.

(** [v.Swap(x)] *)
Definition atomic_Swap (p : option loc) (x : any) : M (option any) :=
  fun st =>
    match p with
    | None => Some (Panic nil_deref, st)
    | Some l =>
        match atomics st !! l with
        | None => Some (Panic nil_deref, st)
        | Some (Some (VOther _)) =>
            Some (Panic "sync/atomic: swap of inconsistently typed value into Value", st)
        | Some old => Some (Ret old, set_atomics (<[l := Some x]> (atomics st)) st)
        end
    end.

(** [x.(bool)] *)
Definition assert_bool (x : option any) : M bool :=
  match x with
  | Some (VBool b) => mret b
  | _ => panic "interface conversion: interface {} is not bool"
  end.

(** [for _, x := range xs { body }] with the variables the body assigns
    to threaded through as [s]. *)
Fixpoint for_each {A S : Type} (xs : list A) (body : A -> S -> M S) (s : S) : M S :=
  match xs with
  | [] => mret s
  | x :: xs' => s' ← body x s; for_each xs' body s'
  end.

(** The same loop when the body can [return]: [inr r] leaves the function
    with [r]. *)
Fixpoint for_range {A S R : Type} (xs : list A) (body : A -> S -> M (S + R)) (s : S)
  : M (S + R) :=
  match xs with
  | [] => mret (inl s)
  | x :: xs' =>
      r ← body x s;
      match r with
      | inl s' => for_range xs' body s'
      | inr v => mret (inr v)
      end
  end.

Definition when (b : bool) (m : M unit) : M unit := if b then m else mret tt.

End Model.

Arguments context_Context : clear implicits.
Arguments DB : clear implicits.
Arguments Redis : clear implicits.
Arguments SubService : clear implicits.
Arguments Checker : clear implicits.
Arguments HandlerFunc : clear implicits.
Arguments Route : clear implicits.
Arguments Router : clear implicits.
Arguments http_Server : clear implicits.
Arguments Service : clear implicits.
Arguments State : clear implicits.
Arguments Env : clear implicits.
Arguments M : clear implicits.

(** ** The code of the package *)

Section Code.
Context {W : Type} (E : Env W).

Definition notnil {A : Type} (x : option A) : bool :=
  match x with Some _ => true | None => false end.

(** [for k, v := range m]: the entries in the order the runtime picks. *)
Definition range_map (m : gmap string (SubService W)) : M W (list (string * SubService W)) :=
  fun st => Some (Ret (map_range E m (ext st)), st).

(** *** Field updates of [*Service] *)

Definition set_ctx (c : context_Context W) (s : Service W) : Service W :=
  {| Name := Name s; ctx := c; GRPCServers := GRPCServers s; HTTPServers := HTTPServers s;
     Service_DB := Service_DB s; Service_Redis := Service_Redis s; isReady := isReady s;
     ErrChan := ErrChan s; SubServices := SubServices s; sigHandler := sigHandler s |}.

Definition set_GRPCServers (l : list GRPCServer) (s : Service W) : Service W :=
  {| Name := Name s; ctx := ctx s; GRPCServers := l; HTTPServers := HTTPServers s;
     Service_DB := Service_DB s; Service_Redis := Service_Redis s; isReady := isReady s;
     ErrChan := ErrChan s; SubServices := SubServices s; sigHandler := sigHandler s |}.

Definition set_HTTPServers (l : list (http_Server W)) (s : Service W) : Service W :=
  {| Name := Name s; ctx := ctx s; GRPCServers := GRPCServers s; HTTPServers := l;
     Service_DB := Service_DB s; Service_Redis := Service_Redis s; isReady := isReady s;
     ErrChan := ErrChan s; SubServices := SubServices s; sigHandler := sigHandler s |}.

Definition set_DB (d : option (DB W)) (s : Service W) : Service W :=
  {| Name := Name s; ctx := ctx s; GRPCServers := GRPCServers s; HTTPServers := HTTPServers s;
     Service_DB := d; Service_Redis := Service_Redis s; isReady := isReady s;
     ErrChan := ErrChan s; SubServices := SubServices s; sigHandler := sigHandler s |}.

Definition set_Redis (r : option (Redis W)) (s : Service W) : Service W :=
  {| Name := Name s; ctx := ctx s; GRPCServers := GRPCServers s; HTTPServers := HTTPServers s;
     Service_DB := Service_DB s; Service_Redis := r; isReady := isReady s;
     ErrChan := ErrChan s; SubServices := SubServices s; sigHandler := sigHandler s |}.

Definition set_SubServices (m : gmap string (SubService W)) (s : Service W) : Service W :=
  {| Name := Name s; ctx := ctx s; GRPCServers := GRPCServers s; HTTPServers := HTTPServers s;
     Service_DB := Service_DB s; Service_Redis := Service_Redis s; isReady := isReady s;
     ErrChan := ErrChan s; SubServices := m; sigHandler := sigHandler s |}.

Definition set_sigHandler (t : option Chan) (s : Service W) : Service W :=
  {| Name := Name s; ctx := ctx s; GRPCServers := GRPCServers s; HTTPServers := HTTPServers s;
     Service_DB := Service_DB s; Service_Redis := Service_Redis s; isReady := isReady s;
     ErrChan := ErrChan s; SubServices := SubServices s; sigHandler := t |}.

(** [sl != nil] for a slice; an empty non-nil slice is taken for nil, which
    the code below cannot tell apart: [checkGRPCServerUp] on no server dials
    nothing, logs nothing and answers true. *)
Definition slice_not_nil {A : Type} (sl : list A) : bool :=
  match sl with [] => false | _ :: _ => true end.

Definition GetContext (s : Service W) : context_Context W := ctx s.

Definition SetContext (c : context_Context W) (s : Service W) : Service W := set_ctx c s.

Definition AddHTTPServer (httpServer : http_Server W) (s : Service W) : Service W :=
  set_HTTPServers (HTTPServers s ++ [httpServer]) s.

(** *** Reachability checks *)

(** The loop of [checkHTTPServerUp]: [for err != nil { conn, err = dial }].
    The source puts no bound on it; [fuel] bounds the number of dials. *)
Fixpoint dial_until_up (fuel : nat) (addr : string)
    (conn : option net_Conn) (err : option Error) : M W (option net_Conn) :=
  match err with
  | None => mret conn
  | Some _ =>
      match fuel with
      | O => out_of_fuel
      | S fuel' =>
          r ← extcall (CallDialTimeout addr (1 * time_Second))
                (net_DialTimeout E "tcp" addr (1 * time_Second));
          match snd r with
          | Some e => logf LvlDebug (Error_Error e) []
          | None => mret tt
          end;;
          dial_until_up fuel' addr (fst r) (snd r)
      end
  end.

Definition checkHTTPServerUp (fuel : nat) (httpServer : http_Server W) : M W bool :=
  let err := Some (ErrorString "http server not ready") in
  conn ← dial_until_up fuel (Addr httpServer) None err;
  logf LvlDebug "http server ready" [];;
  (* deferred *)
  match conn with
  | Some c => extcall (CallConnClose c) (net_Conn_Close E c);; mret tt
  | None => mret tt
  end;;
  mret true.

Definition checkGRPCServerUp (s : Service W) : M W bool :=
  let ctx := GetContext s in
  r ← for_range (GRPCServers s)
        (fun server (_ : option grpc_ClientConn) =>
           d ← extcall (CallGRPCDial (address server))
                 (grpc_DialContext E ctx (address server));
           match snd d with
           | Some e => logf LvlDebug (Error_Error e) [];; mret (inr (fst d, false))
           | None =>
               logf LvlDebug "grpc server ready %s" [ArgString (address server)];;
               mret (inl (fst d))
           end)
        None;
  let '(conn, result) := match r with inl c => (c, true) | inr v => v end in
  (* deferred *)
  match conn with
  | Some c => extcall (CallClientConnClose c) (grpc_ClientConn_Close E c);; mret tt
  | None => mret tt
  end;;
  mret result.

Definition checkDBAlive (s : Service W) : M W bool :=
  match Service_DB s with
  | None => panic nil_deref
  | Some db =>
      err ← extcall CallDBPing (DB_Ping db (ctx s));
      when (notnil err) (logf LvlDebug "db is not ready" [ArgLogErr err]);;
      let isReady := negb (notnil err) in
      when isReady (logf LvlDebug "db is ready" []);;
      mret isReady
  end.

Definition checkRedisAlive (s : Service W) : M W bool :=
  match Service_Redis s with
  | None => panic nil_deref
  | Some redis =>
      r ← extcall CallRedisPing (Redis_Ping redis (ctx s));
      let '(pong, err) := r in
      when (notnil err) (logf LvlDebug "redis is not ready" [ArgLogErr err]);;
      let isReady := String.eqb pong "PONG" in
      when isReady (logf LvlDebug "redis is ready" []);;
      mret isReady
  end.

(** *** Liveness and readiness *)

Definition IsAlive (fuel : nat) (s : Service W) : M W bool :=
  isGrpcAlive ←
    (if slice_not_nil (GRPCServers s) then
       b ← checkGRPCServerUp s;
       when (negb b) (logf LvlDebug "grpc servers not ready" []);;
       mret b
     else mret true);
  areHTTPServersAlive ←
    for_each (HTTPServers s)
      (fun httpServer acc =>
         up ← checkHTTPServerUp fuel httpServer;
         mret (if negb up then false else acc))
      true;
  isDBAlive ←
    (if notnil (Service_DB s) then b ← checkDBAlive s; mret (if negb b then false else true)
     else mret true);
  isRedisAlive ←
    (if notnil (Service_Redis s) then
       b ← checkRedisAlive s; mret (if negb b then false else true)
     else mret true);
  mret (isGrpcAlive && areHTTPServersAlive && isDBAlive && isRedisAlive).

Definition Ready (fuel : nat) (s : Service W) : M W unit :=
  subs ← range_map (SubServices s);
  areSubServicesReady ←
    for_each subs
      (fun kv acc =>
         ok ← extcall (CallSubReady (fst kv)) (SubService_Ready (snd kv));
         acc' ←
           (if negb ok then
              logf LvlError "subservice not ready subservice %s"
                [ArgString (SubService_Name (snd kv))];;
              mret false
            else mret acc);
         logf LvlInfo "subservice is ready subservice %s"
           [ArgString (SubService_Name (snd kv))];;
         mret acc')
      true;
  isGRPCReady ←
    (if slice_not_nil (GRPCServers s) then
       b ← checkGRPCServerUp s;
       when (negb b) (logf LvlError "grpc server not ready" []);;
       mret b
     else mret true);
  areHTTPServersReady ←
    for_each (HTTPServers s)
      (fun httpServer acc =>
         up ← checkHTTPServerUp fuel httpServer;
         mret (if negb up then false else acc))
      true;
  isDBReady ←
    (if notnil (Service_DB s) then b ← checkDBAlive s; mret (if negb b then false else true)
     else mret true);
  isRedisAlive ←
    (if notnil (Service_Redis s) then
       b ← checkRedisAlive s; mret (if negb b then false else true)
     else mret true);
  atomic_Swap (isReady s)
    (VBool (areSubServicesReady && isGRPCReady && areHTTPServersReady
            && isDBReady && isRedisAlive));;
  mret tt.

(** *** Shutdown *)

Definition Stop (s : Service W) : M W unit :=
  subs ← range_map (SubServices s);
  for_each subs
    (fun kv (_ : unit) =>
       err ← extcall (CallSubClose (fst kv)) (SubService_Close (snd kv));
       when (notnil err)
         (logf LvlError "failed to stop service service %s"
            [ArgString (SubService_Name (snd kv))]);;
       logf LvlDebug "subservice stopped subservice %s"
         [ArgString (SubService_Name (snd kv))])
    tt;;
  for_each (GRPCServers s)
    (fun grpcServer (_ : unit) =>
       extcall (CallGracefulStop (address grpcServer))
         (fun w => (tt, grpc_Server_GracefulStop E grpcServer w));;
       logf LvlDebug "grpc server stopped" [])
    tt;;
  for_each (HTTPServers s)
    (fun httpServer (_ : unit) =>
       err ← extcall (CallShutdown (Addr httpServer))
               (http_Server_Shutdown E httpServer (ctx s));
       when (notnil err)
         (logf LvlError "failed to shutdown http server %s" [ArgString (Addr httpServer)]);;
       logf LvlDebug "http server stopped" [])
    tt;;
  match Service_DB s with
  | Some db =>
      err ← extcall CallDBClose (DB_Close db);
      when (notnil err) (logf LvlError "failed to close connection to db" []);;
      logf LvlDebug "db stopped" []
  | None => mret tt
  end;;
  match Service_Redis s with
  | Some redis =>
      err ← extcall CallRedisClose (Redis_Close redis);
      when (notnil err) (logf LvlError "failed to close connection to redis" []);;
      logf LvlDebug "redis stopped" []
  | None => mret tt
  end;;
  os_Exit 1.

(** *** The signal trap *)

(** [SignalTrap.Wait]: a [select] over the trap and [ctx.Done()].  A nil
    channel never fires; [None] is a wait that never ends. *)
Definition Wait (t : option Chan) (ctx : context_Context W) : M W (option Error) :=
  fun st =>
    match t, ctx_Done ctx with
    | None, None => None
    | Some c, None =>
        match chan_recv E c (ext st) with
        | None => None
        | Some w => Some (Ret (Some ErrTermSig), set_ext w st)
        end
    | None, Some d =>
        match chan_recv E d (ext st) with
        | None => None
        | Some w => extcall CallCtxErr (ctx_Err ctx) (set_ext w st)
        end
    | Some c, Some d =>
        match chan_select E c d (ext st) with
        | None => None
        | Some (true, w) => Some (Ret (Some ErrTermSig), set_ext w st)
        | Some (false, w) => extcall CallCtxErr (ctx_Err ctx) (set_ext w st)
        end
    end.

(** [errors.Is] on a possibly nil error. *)
Definition errors_Is_nilable (err : option Error) (target : Error) : bool :=
  match err with
  | Some e => errors_Is e target
  | None => false
  end.

(** *** Start-up *)

Definition Start (s : Service W) : M W (option Error) :=
  let ctx := GetContext s in
  for_each (HTTPServers s) (fun httpServ (_ : unit) => go (TaskServeHTTP (Addr httpServ))) tt;;
  for_each (GRPCServers s)
    (fun grpcServer (_ : unit) => go (TaskServeGRPC (address grpcServer))) tt;;
  go TaskReady;;
  err ← Wait (sigHandler s) ctx;
  if notnil err && negb (errors_Is_nilable err ErrTermSig) then
    logf LvlError "failed to caught signal" [ArgLogErr err];;
    mret err
  else
    logf LvlInfo "termination signal received" [];;
    mret None.

(** *** HTTP handlers *)

Definition NewRouter : Router W := {| middlewares := []; routes := [] |}.

Definition Use (mw : string) (r : Router W) : Router W :=
  {| middlewares := middlewares r ++ [mw]; routes := routes r |}.

Definition add_route (rt : Route W) (r : Router W) : Router W :=
  {| middlewares := middlewares r; routes := routes r ++ [rt] |}.

(** [r.Get(pattern, h)] *)
Definition Get (pattern : string) (h : HandlerFunc W) (r : Router W) : Router W :=
  add_route {| route_method := Some "GET"; route_pattern := pattern;
               route_mount := false; route_handler := h |} r.

(** [r.Mount(pattern, h)] *)
Definition Mount (pattern : string) (h : HandlerFunc W) (r : Router W) : Router W :=
  add_route {| route_method := None; route_pattern := pattern;
               route_mount := true; route_handler := h |} r.

Definition AnswerWithJSONError (w : ResponseWriter) (code : Z) : ResponseWriter :=
  let m := json_Marshal {| ErrorCode := code;
                           ErrorDetails := "error during request processing" |} in
  if notnil (snd m) then
    http_Error w "failed to marshal error response" http_StatusInternalServerError
  else
    let w1 := Header_Set "Content-Type" "application/json" w in
    let w2 := WriteHeader code w1 in
    let wr := ResponseWriter_Write (fst m) w2 in
    if notnil (snd wr) then
      http_Error (fst wr) "failed to write error response to writer"
        http_StatusInternalServerError
    else fst wr.

Definition run_checker (fuel : nat) (self : Service W) (c : Checker W) : M W bool :=
  match c with
  | CkIsAlive => IsAlive fuel self
  | CkFunc f => extcall CallChecker f
  end.

(** [alive(areAlive)], the handler of [/health/live]; [self] is the
    orchestrator a [CkIsAlive] checker is bound to. *)
Definition alive (fuel : nat) (self : Service W) (areAlive : list (Checker W))
    (w : ResponseWriter) : M W ResponseWriter :=
  r ← for_range areAlive
        (fun isAlive (_ : unit) =>
           b ← run_checker fuel self isAlive;
           if negb b then mret (inr (AnswerWithJSONError w http_StatusServiceUnavailable))
           else mret (inl tt))
        tt;
  match r with
  | inr w' => mret w'
  | inl _ => mret (WriteHeader http_StatusOK w)
  end.

(** [ready(areReady)], the handler of [/ready] and [/health/ready]. *)
Definition ready (areReady : list (option loc)) (w : ResponseWriter) : M W ResponseWriter :=
  r ← for_range areReady
        (fun isReady (_ : unit) =>
           match isReady with
           | None => mret (inr (AnswerWithJSONError w http_StatusServiceUnavailable))
           | Some _ =>
               v ← atomic_Load isReady;
               b ← assert_bool v;
               if negb b then
                 mret (inr (AnswerWithJSONError w http_StatusServiceUnavailable))
               else mret (inl tt)
           end)
        tt;
  match r with
  | inr w' => mret w'
  | inl _ => mret (WriteHeader http_StatusOK w)
  end.

Definition run_handler (fuel : nat) (self : Service W) (h : HandlerFunc W)
    (w : ResponseWriter) : M W ResponseWriter :=
  match h with
  | HAlive areAlive => alive fuel self areAlive w
  | HReady areReady => ready areReady w
  | HExternal name =>
      fun st => let r := external_handler E name w (ext st) in
                Some (Ret (fst r), set_ext (snd r) st)
  end.

(** [middleware.Recoverer]: a panic of the handler becomes a 500. *)
Definition Recoverer (m : M W ResponseWriter) (w : ResponseWriter) : M W ResponseWriter :=
  fun st =>
    match m st with
    | Some (Panic _, st') => Some (Ret (WriteHeader http_StatusInternalServerError w), st')
    | r => r
    end.

Definition path_matches (path : string) (rt : Route W) : bool :=
  if route_mount rt then
    String.eqb path (route_pattern rt) || String.prefix (route_pattern rt +:+ "/") path
  else String.eqb path (route_pattern rt).

Definition method_matches (method : string) (rt : Route W) : bool :=
  match route_method rt with
  | None => true
  | Some m => String.eqb m method
  end.

(** The router serving one request: 404 when no pattern matches the path,
    405 when one does but not for the method. *)
Definition ServeHTTP (fuel : nat) (self : Service W) (r : Router W)
    (method path : string) (w : ResponseWriter) : M W ResponseWriter :=
  match List.find (fun rt => path_matches path rt && method_matches method rt) (routes r) with
  | Some rt =>
      let h := run_handler fuel self (route_handler rt) w in
      if bool_decide ("Recoverer" ∈ middlewares r) then Recoverer h w else h
  | None =>
      if existsb (path_matches path) (routes r)
      then mret (WriteHeader http_StatusMethodNotAllowed w)
      else mret (WriteHeader http_StatusNotFound w)
  end.

(** [ReadinessHandler.Register] *)
Definition ReadinessHandler_Register (areReady : list (option loc)) (r : Router W) : Router W :=
  Get "/health/ready" (HReady areReady) (Get "/ready" (HReady areReady) r).

(** [Handler.Register] of health.go *)
Definition Handler_Register (areAlive : list (Checker W)) (r : Router W) : Router W :=
  Get "/health/live" (HAlive areAlive) r.

(** [TelemetryHandler.Register] *)
Definition TelemetryHandler_Register (r : Router W) : Router W :=
  Get "/metrics" (HExternal "prometheus") r.

(** *** Configuration options *)

(** The implementations of interface [Option]: the four of options.go, and
    [CustomOption] for one written by a user of the package. *)
Inductive Option : Type :=
| GRPCServerOption (address : string)
| TechHTTPServerOption (address : string)
| DBOption (db : option (DB W))
| RedisOption (redis : option (Redis W))
| CustomOption (apply : Service W -> W -> (option Error * Service W) * W).

Definition WithGRPCServer (address : string) : Option := GRPCServerOption address.
Definition WithTechHTTPServerOption (address : string) : Option := TechHTTPServerOption address.
Definition WithDB (db : option (DB W)) : Option := DBOption db.
Definition WithRedis (redis : option (Redis W)) : Option := RedisOption redis.

(** [o.Apply(s)]: the error, and [*s] as the call leaves it. *)
Definition Apply (o : Option) (s : Service W) : M W (option Error * Service W) :=
  match o with
  | GRPCServerOption addr =>
      let grpcSrv := grpc_NewServer in
      mret (None, set_GRPCServers
                    (GRPCServers s ++ [{| server := grpcSrv; address := addr |}]) s)
  | TechHTTPServerOption addr =>
      let r := NewRouter in
      let r := Use "Recoverer" r in
      let r := Mount "/debug/pprof" (HExternal "pprof") r in
      let r := TelemetryHandler_Register r in
      let r := ReadinessHandler_Register [isReady s] r in
      let r := Handler_Register [CkIsAlive] r in
      mret (None, set_HTTPServers
                    (HTTPServers s ++ [{| Addr := addr; Handler := r;
                                          ReadTimeout := 10 * time_Second;
                                          WriteTimeout := 10 * time_Second;
                                          MaxHeaderBytes := http_DefaultMaxHeaderBytes |}]) s)
  | DBOption db => mret (None, set_DB db s)
  | RedisOption redis => mret (None, set_Redis redis s)
  | CustomOption apply => extcall CallOptionApply (apply s)
  end.

(** *** Construction *)

Definition New (ctx : context_Context W) (name : string) (options : list Option)
  : M W (option (Service W) * option Error) :=
  isReady ← atomic_new;
  atomic_Store (Some isReady) (VBool false);;
  errChan ← make_chan;
  let s := {| Name := name; ErrChan := Some errChan; ctx := ctx; isReady := Some isReady;
              SubServices := ∅; GRPCServers := []; HTTPServers := [];
              Service_DB := None; Service_Redis := None; sigHandler := None |} in
  r ← for_range options
        (fun o s =>
           a ← Apply o s;
           match fst a with
           | Some err => mret (inr (None, Some err))
           | None => mret (inl (snd a))
           end)
        s;
  match r with
  | inl s' => mret (Some s', None)
  | inr v => mret v
  end.

End Code.

Arguments Option : clear implicits.

(** ** The rest of the package: late registration and the example program *)

(** A [grpc.ServiceDesc], as far as this package reads it. *)
Record grpc_ServiceDesc : Type := { ServiceName : string }.

Section MoreCode.
Context {W : Type} (E : Env W).

(** [srv.RegisterService(sd, impl)] on a server that is not serving yet,
    with an implementation of the right type: the service is added, and a
    second registration under the same name is fatal ([logger.Fatalf], which
    exits with status 1). *)
Definition grpc_Server_RegisterService (sd : grpc_ServiceDesc) (srv : grpc_Server)
  : M W grpc_Server :=
  if bool_decide (ServiceName sd ∈ registered srv) then os_Exit 1
  else mret {| registered := registered srv ++ [ServiceName sd] |}.

(** [s.AddGRPCService(serverName, service, description)]: the error, and
    [*s] as the call leaves it.  The loop variable [i] is the position of
    [grpcServer] in [s.GRPCServers], whose server is updated in place. *)
Definition AddGRPCService (serverName : string) (description : grpc_ServiceDesc)
    (s : Service W) : M W (option Error * Service W) :=
  r ← for_range (GRPCServers s)
        (fun grpcServer (i : nat) =>
           if String.eqb (address grpcServer) serverName then
             srv ← grpc_Server_RegisterService description (server grpcServer);
             logf LvlDebug "GRPC service registered. service - %s, server - %s"
               [ArgString (ServiceName description); ArgString serverName];;
             mret (inr (None,
                        set_GRPCServers
                          (<[i := {| address := address grpcServer; server := srv |}]>
                             (GRPCServers s)) s))
           else mret (inl (S i)))
        O;
  match r with
  | inr v => mret v
  | inl _ => mret (Some (ErrorString "gRPC server not found"), s)
  end.

(** [context.Background()]: never cancelled, [Done()] is nil. *)
Definition context_Background : context_Context W :=
  {| ctx_Done := None; ctx_Err := fun w => (None, w) |}.

(** [main] of example/main.go.  [Stop] is deferred once [New] has
    succeeded, so it runs when [main] returns, whatever [Start] returned. *)
Definition main : M W unit :=
  let ctx := context_Background in
  r ← New ctx "test" [WithGRPCServer ":8080"; WithTechHTTPServerOption ":5051"];
  if notnil (snd r) then mret tt
  else
    match fst r with
    | None => panic nil_deref
    | Some service =>
        let service :=
          AddHTTPServer {| Addr := ":8081"; Handler := NewRouter;
                           ReadTimeout := 10 * time_Second;
                           WriteTimeout := 10 * time_Second;
                           MaxHeaderBytes := http_DefaultMaxHeaderBytes |} service in
        err ← Start E service;
        (if notnil err then mret tt else mret tt);;
        (* deferred *)
        Stop E service
    end.

End MoreCode.

(** ** Vocabulary of the statements *)

Section Vocabulary.
Context {W : Type} (E : Env W).

(** [m] run from [st] returns [a] and leaves [st']. *)
Definition returns {A : Type} (m : M W A) (st : State W) (a : A) (st' : State W) : Prop :=
  m st = Some (Ret a, st').

(** [m] comes back with a value from every state. *)
Definition total {A : Type} (m : M W A) : Prop :=
  forall st, exists a st', m st = Some (Ret a, st').

(** [m] run from [st] never comes back, whatever fuel it is given. *)
Definition hangs {A : Type} (m : nat -> M W A) (st : State W) : Prop :=
  forall fuel, m fuel st = None.

(** From world [w] on, [addr] refuses [k] dials and accepts the next one. *)
Fixpoint up_after (k : nat) (addr : string) (w : W) : bool :=
  let r := net_DialTimeout E "tcp" addr (1 * time_Second) w in
  match k with
  | O => negb (notnil (snd (fst r)))
  | S k' => notnil (snd (fst r)) && up_after k' addr (snd r)
  end.

(** From world [w] on, no dial to [addr] is ever accepted. *)
Definition never_up (addr : string) (w : W) : Prop :=
  forall k, up_after k addr w = false.

(** Every HTTP listener of [s] accepts a dial after fewer than [fuel]
    attempts, from any world. *)
Definition reachable_within (fuel : nat) (s : Service W) : Prop :=
  forall srv, srv ∈ HTTPServers s ->
    forall w, exists k, (k < fuel)%nat /\ up_after k (Addr srv) w = true.

(** No dial to [addr] is ever accepted, from any world. *)
Definition refuses (addr : string) : Prop :=
  forall w, notnil (snd (fst (net_DialTimeout E "tcp" addr (1 * time_Second) w))) = true.

Definition is_dial (e : Event) : bool :=
  match e with EvCall (CallDialTimeout _ _) => true | _ => false end.

(** Number of TCP dials in a trace. *)
Definition dial_count (t : list Event) : nat := length (List.filter is_dial t).

(** *** Comparing two runs *)

Definition is_log (e : Event) : bool :=
  match e with EvLog _ _ _ => true | _ => false end.

(** The trace without its log lines: the calls made and goroutines started. *)
Definition calls (t : list Event) : list Event :=
  List.filter (fun e => negb (is_log e)) t.

(** States that differ in log lines only. *)
Definition same_but_logs (st1 st2 : State W) : Prop :=
  ext st1 = ext st2 /\ atomics st1 = atomics st2 /\ nchans st1 = nchans st2
  /\ calls (trace st1) = calls (trace st2).

(** States with the same world outside, whatever happened in the program
    before (cells stored, calls made, lines logged). *)
Definition same_world (st1 st2 : State W) : Prop := ext st1 = ext st2.

Definition same_result {A : Type} (R : State W -> State W -> Prop)
    (r1 r2 : option (Outcome A * State W)) : Prop :=
  match r1, r2 with
  | None, None => True
  | Some (o1, s1), Some (o2, s2) => o1 = o2 /\ R s1 s2
  | _, _ => False
  end.

(** [m1] and [m2] end the same way from states related by [R], and leave
    states related by [R]. *)
Definition sim {A : Type} (R : State W -> State W -> Prop) (m1 m2 : M W A) : Prop :=
  forall st1 st2, R st1 st2 -> same_result R (m1 st1) (m2 st2).

(** Relations on states that log lines do not disturb and that keep the
    two worlds equal. *)
Record log_blind (R : State W -> State W -> Prop) : Prop := {
  lb_ext : forall st1 st2, R st1 st2 -> ext st1 = ext st2;
  lb_call : forall st1 st2 c w,
      R st1 st2 -> R (emit (EvCall c) (set_ext w st1)) (emit (EvCall c) (set_ext w st2));
  lb_log_l : forall st1 st2 l f a, R st1 st2 -> R (emit (EvLog l f a) st1) st2;
  lb_log_r : forall st1 st2 l f a, R st1 st2 -> R st1 (emit (EvLog l f a) st2)
}.

(** *** The conditions liveness and readiness are made of, in the words of
    the specification *)

(** Reachability of the gRPC listeners, when any is configured. *)
Definition grpc_condition (s : Service W) : M W bool :=
  if slice_not_nil (GRPCServers s) then checkGRPCServerUp E s else mret true.

(** Reachability of every HTTP listener. *)
Definition http_condition (fuel : nat) (s : Service W) : M W bool :=
  for_each (HTTPServers s)
    (fun srv acc => up ← checkHTTPServerUp E fuel srv; mret (acc && up)) true.

(** A successful database ping, when a handle is attached. *)
Definition db_condition (s : Service W) : M W bool :=
  if notnil (Service_DB s) then checkDBAlive s else mret true.

(** A cache ping with the canonical reply, when a handle is attached. *)
Definition cache_condition (s : Service W) : M W bool :=
  if notnil (Service_Redis s) then checkRedisAlive s else mret true.

(** Every registered sub-service reports ready. *)
Definition subservices_condition (s : Service W) : M W bool :=
  subs ← range_map E (SubServices s);
  for_each subs
    (fun kv acc => ok ← extcall (CallSubReady (fst kv)) (SubService_Ready (snd kv));
                   mret (acc && ok))
    true.

Definition liveness (fuel : nat) (s : Service W) : M W bool :=
  g ← grpc_condition s;
  h ← http_condition fuel s;
  d ← db_condition s;
  c ← cache_condition s;
  mret (g && h && d && c).

Definition readiness (fuel : nat) (s : Service W) : M W unit :=
  a ← subservices_condition s;
  g ← grpc_condition s;
  h ← http_condition fuel s;
  d ← db_condition s;
  c ← cache_condition s;
  atomic_Swap (isReady s) (VBool (a && g && h && d && c));;
  mret tt.

(** An operation that leaves every [atomic.Value] as it found it. *)
Definition keeps_atomics {A : Type} (m : M W A) : Prop :=
  forall st o st', m st = Some (o, st') -> atomics st' = atomics st.

(** The goroutines started, in order. *)
Definition goroutines (t : list Event) : list Task :=
  omap (fun e => match e with EvGo t => Some t | _ => None end) t.

(** The goroutines [Start] is to launch: one per listener, one for readiness. *)
Definition listener_tasks (s : Service W) : list Task :=
  map (fun srv => TaskServeHTTP (Addr srv)) (HTTPServers s)
  ++ map (fun srv => TaskServeGRPC (address srv)) (GRPCServers s).

(** [m] always returns, having made exactly the calls [evs] (and logged
    whatever it logged). *)
Definition performs {A : Type} (m : M W A) (evs : list Event) : Prop :=
  forall st, exists a st',
    m st = Some (Ret a, st') /\ calls (trace st') = calls (trace st) ++ evs.

(** [m] always ends the process with status [code], having made exactly the
    calls [evs]. *)
Definition exits {A : Type} (m : M W A) (code : Z) (evs : list Event) : Prop :=
  forall st, exists st',
    m st = Some (Exit code, st') /\ calls (trace st') = calls (trace st) ++ evs.

(** The calls of an orderly shutdown, [subs] being the sub-services in the
    order the runtime hands them out. *)
Definition teardown_calls (s : Service W) (subs : list (string * SubService W))
  : list Event :=
  map (fun kv => EvCall (CallSubClose (fst kv))) subs
  ++ map (fun srv => EvCall (CallGracefulStop (address srv))) (GRPCServers s)
  ++ map (fun srv => EvCall (CallShutdown (Addr srv))) (HTTPServers s)
  ++ (if notnil (Service_DB s) then [EvCall CallDBClose] else [])
  ++ (if notnil (Service_Redis s) then [EvCall CallRedisClose] else []).

(** The options options.go provides. *)
Definition recognized (o : Option W) : bool :=
  match o with
  | CustomOption _ => false
  | _ => true
  end.

(** The orchestrator [New] starts from, before any option is applied, and
    the state it is in then: a fresh cell holding [false], one more channel. *)
Definition initial_service (ctx : context_Context W) (name : string) (st : State W)
  : Service W :=
  {| Name := name; ErrChan := Some (nchans st); ctx := ctx;
     isReady := Some (fresh (dom (atomics st)));
     SubServices := ∅; GRPCServers := []; HTTPServers := [];
     Service_DB := None; Service_Redis := None; sigHandler := None |}.

Definition initial_state (st : State W) : State W :=
  {| ext := ext st;
     atomics := <[fresh (dom (atomics st)) := Some (VBool false)]> (atomics st);
     nchans := S (nchans st);
     trace := trace st |}.

(** The loop of [New] over its options. *)
Definition apply_options (options : list (Option W)) (s : Service W)
  : M W (Service W + option (Service W) * option Error) :=
  for_range options
    (fun o s =>
       a ← Apply o s;
       match fst a with
       | Some err => mret (inr (None, Some err))
       | None => mret (inl (snd a))
       end)
    s.

(** The JSON error payload for status [code], spelled out. *)
Definition payload (code : Z) : string :=
  "{" +:+ dquote +:+ "ErrorCode" +:+ dquote +:+ ":" +:+ pretty code +:+ ","
      +:+ dquote +:+ "ErrorDetails" +:+ dquote +:+ ":"
      +:+ dquote +:+ "error during request processing" +:+ dquote +:+ "}".

(** The payload of a 503, byte for byte. *)
Definition payload_503 : string :=
  "{" +:+ dquote +:+ "ErrorCode" +:+ dquote +:+ ":503,"
      +:+ dquote +:+ "ErrorDetails" +:+ dquote +:+ ":"
      +:+ dquote +:+ "error during request processing" +:+ dquote +:+ "}".

(** A writer nothing was sent on yet, to a peer that is still there. *)
Definition fresh_writer (w : ResponseWriter) : Prop :=
  rw_sent w = None /\ rw_body w = "" /\ rw_peer_gone w = false.

(** Run one after the other from [st], the checkers all answer true and
    leave [st']. *)
Inductive all_pass (fuel : nat) (self : Service W)
  : list (Checker W) -> State W -> State W -> Prop :=
| all_pass_nil st : all_pass fuel self [] st st
| all_pass_cons c cs st st1 st' :
    run_checker E fuel self c st = Some (Ret true, st1) ->
    all_pass fuel self cs st1 st' ->
    all_pass fuel self (c :: cs) st st'.

(** The flag behind pointer [p] reads [b] in [st]. *)
Definition flag_reads (st : State W) (p : option loc) (b : bool) : Prop :=
  exists l, p = Some l /\ atomics st !! l = Some (Some (VBool b)).

(** The router [TechHTTPServerOption] builds, for an orchestrator whose
    readiness flag is behind [flag]. *)
Definition tech_router (flag : option loc) : Router W :=
  Handler_Register [CkIsAlive]
    (ReadinessHandler_Register [flag]
       (TelemetryHandler_Register
          (Mount "/debug/pprof" (HExternal "pprof") (Use "Recoverer" NewRouter)))).

(** Orchestrator [s] has its flag at [l], and status listeners that read it. *)
Definition wired (l : loc) (s : Service W) : Prop :=
  isReady s = Some l
  /\ Forall (fun srv => Handler srv = tech_router (Some l)) (HTTPServers s).

(** What can happen around orchestrator [s] other than its readiness
    evaluation: a liveness query, a request to any router, [Start], [Stop],
    or the world outside moving on. *)
Inductive other_step (s : Service W) : State W -> State W -> Prop :=
| step_IsAlive fuel st o st' :
    IsAlive E fuel s st = Some (o, st') -> other_step s st st'
| step_request fuel r method path w st o st' :
    ServeHTTP E fuel s r method path w st = Some (o, st') -> other_step s st st'
| step_Start st o st' :
    Start E s st = Some (o, st') -> other_step s st st'
| step_Stop st o st' :
    Stop E s st = Some (o, st') -> other_step s st st'
| step_world st w :
    other_step s st (set_ext w st).

End Vocabulary.

(** ** More vocabulary *)

Section MoreVocabulary.
Context {W : Type} (E : Env W).

(** [m] never panics and never ends the process. *)
Definition only_returns {A : Type} (m : M W A) : Prop :=
  forall st o st', m st = Some (o, st') -> exists a, o = Ret a.

(** [m] returns [v] from every state. *)
Definition always {A : Type} (m : M W A) (v : A) : Prop :=
  forall st, exists st', m st = Some (Ret v, st').

(** When [m] returns, the events it added that satisfy [p] are [evs]. *)
Definition adds {A : Type} (p : Event -> bool) (m : M W A) (evs : list Event) : Prop :=
  forall st a st',
    m st = Some (Ret a, st') ->
    List.filter p (trace st') = List.filter p (trace st) ++ evs.

Definition is_conn_close (e : Event) : bool :=
  match e with EvCall (CallConnClose _) => true | _ => false end.

Definition is_grpc_dial (e : Event) : bool :=
  match e with EvCall (CallGRPCDial _) => true | _ => false end.

Definition is_grpc_close (e : Event) : bool :=
  match e with EvCall (CallClientConnClose _) => true | _ => false end.

Definition is_sub_ready (e : Event) : bool :=
  match e with EvCall (CallSubReady _) => true | _ => false end.

Definition is_ready_line (e : Event) : bool :=
  match e with
  | EvLog LvlInfo "subservice is ready subservice %s" _ => true
  | _ => false
  end.

(** Number of events of a trace that satisfy [p]. *)
Definition count (p : Event -> bool) (t : list Event) : nat := length (List.filter p t).

(** A dial that reports no error hands out a connection. *)
Definition dial_gives_conn : Prop :=
  forall network addr timeout w,
    snd (fst (net_DialTimeout E network addr timeout w)) = None ->
    notnil (fst (fst (net_DialTimeout E network addr timeout w))) = true.

(** What a list of options asks for. *)
Definition grpc_addresses (options : list (Option W)) : list string :=
  omap (fun o => match o with GRPCServerOption a => Some a | _ => None end) options.

Definition tech_addresses (options : list (Option W)) : list string :=
  omap (fun o => match o with TechHTTPServerOption a => Some a | _ => None end) options.

(** The handle of the last [WithDB] ([WithRedis]) of the list, [d] if none. *)
Definition last_db (options : list (Option W)) (d : option (DB W)) : option (DB W) :=
  fold_left (fun acc o => match o with DBOption db => db | _ => acc end) options d.

Definition last_redis (options : list (Option W)) (d : option (Redis W))
  : option (Redis W) :=
  fold_left (fun acc o => match o with RedisOption r => r | _ => acc end) options d.

(** The database (the cache) fails its ping in every world. *)
Definition db_down (db : DB W) (c : context_Context W) : Prop :=
  forall w, notnil (fst (DB_Ping db c w)) = true.

Definition cache_down (r : Redis W) (c : context_Context W) : Prop :=
  forall w, String.eqb (fst (fst (Redis_Ping r c w))) "PONG" = false.

(** No dial to the gRPC address succeeds, in any world. *)
Definition grpc_down (c : context_Context W) (addr : string) : Prop :=
  forall w, notnil (snd (fst (grpc_DialContext E c addr w))) = true.

(** Every dependency of [s] answers well in every world. *)
Definition all_healthy (s : Service W) : Prop :=
  (forall srv w, srv ∈ GRPCServers s ->
     snd (fst (grpc_DialContext E (ctx s) (address srv) w)) = None)
  /\ (forall db w, Service_DB s = Some db -> fst (DB_Ping db (ctx s) w) = None)
  /\ (forall r w, Service_Redis s = Some r ->
        String.eqb (fst (fst (Redis_Ping r (ctx s) w))) "PONG" = true).

(** Orchestrator [s'] is [s] configured further by [options]: listeners
    are added at the end in the order asked for, with nothing registered on
    the new gRPC servers; the last handle given wins; the rest is kept. *)
Definition configured_by (options : list (Option W)) (s s' : Service W) : Prop :=
  map address (GRPCServers s') = map address (GRPCServers s) ++ grpc_addresses options
  /\ (Forall (fun x => registered (server x) = []) (GRPCServers s) ->
      Forall (fun x => registered (server x) = []) (GRPCServers s'))
  /\ map Addr (HTTPServers s') = map Addr (HTTPServers s) ++ tech_addresses options
  /\ Service_DB s' = last_db options (Service_DB s)
  /\ Service_Redis s' = last_redis options (Service_Redis s)
  /\ Name s' = Name s /\ ctx s' = ctx s /\ isReady s' = isReady s
  /\ ErrChan s' = ErrChan s /\ SubServices s' = SubServices s
  /\ sigHandler s' = sigHandler s.

(** A dependency [IsAlive] looks at is down for good: a gRPC listener, the
    database or the cache. *)
Definition dependency_down (s : Service W) : Prop :=
  (exists srv, srv ∈ GRPCServers s /\ grpc_down (ctx s) (address srv))
  \/ (exists db, Service_DB s = Some db /\ db_down db (ctx s))
  \/ (exists r, Service_Redis s = Some r /\ cache_down r (ctx s)).

(** Nothing is configured on [s]. *)
Definition idle (s : Service W) : Prop :=
  SubServices s = ∅ /\ GRPCServers s = [] /\ HTTPServers s = []
  /\ Service_DB s = None /\ Service_Redis s = None.

(** [p] picks nothing but calls of a sub-service's [Ready()] and log lines
    of level info. *)
Definition sub_only (p : Event -> bool) : Prop :=
  (forall c, (forall k, c <> CallSubReady k) -> p (EvCall c) = false)
  /\ (forall l f a, l <> LvlInfo -> p (EvLog l f a) = false).

End MoreVocabulary.

(** ** Test doubles

    A small world for running the code: a clock that counts the TCP dials
    made so far, and what the database and the cache answer at the moment. *)

Module Doubles.

Record World : Type := {
  dials : nat;
  db_answer : option Error;
  cache_answer : string * option Error
}.

Definition tick (w : World) : World :=
  {| dials := S (dials w); db_answer := db_answer w; cache_answer := cache_answer w |}.

Definition refused : Error := ErrorString "dial tcp: connect: connection refused".

(** HTTP listeners accept from the [k]-th dial on when [up_from = Some k],
    and never when it is [None]; gRPC dials to [bad_grpc] fail. *)
Definition env (up_from : option nat) (bad_grpc : string) : Env World :=
  {| net_DialTimeout := fun _ _ _ w =>
       match up_from with
       | Some k => if (k <=? dials w)%nat then ((Some 7%nat, None), tick w)
                   else ((None, Some refused), tick w)
       | None => ((None, Some refused), tick w)
       end;
     net_Conn_Close := fun _ w => (None, w);
     grpc_DialContext := fun _ addr w =>
       if String.eqb addr bad_grpc then ((None, Some DeadlineExceeded), w)
       else ((Some 9%nat, None), w);
     grpc_ClientConn_Close := fun _ w => (None, w);
     grpc_Server_GracefulStop := fun _ w => w;
     http_Server_Shutdown := fun _ _ w => (None, w);
     chan_recv := fun _ w => Some w;
     chan_select := fun _ _ w => Some (true, w);
     external_handler := fun _ rw w => (rw, w);
     map_range := fun m _ => map_to_list m;
     map_range_perm := fun m _ => Permutation_refl (map_to_list m) |}.

Definition world0 : World :=
  {| dials := 0; db_answer := None; cache_answer := ("PONG", None) |}.

Definition state0 : State World :=
  {| ext := world0; atomics := ∅; nchans := 0; trace := [] |}.

(** [context.Background()] and a context that has been cancelled. *)
Definition background : context_Context World :=
  {| ctx_Done := None; ctx_Err := fun w => (None, w) |}.

Definition cancelled : context_Context World :=
  {| ctx_Done := Some 1%nat; ctx_Err := fun w => (Some Canceled, w) |}.

Definition db : DB World :=
  {| DB_Ping := fun _ w => (db_answer w, w);
     DB_Close := fun w => (Some (ErrorString "sql: database is closed"), w) |}.

Definition cache : Redis World :=
  {| Redis_Ping := fun _ w => (cache_answer w, w);
     Redis_Close := fun w => (None, w) |}.

Definition sub (name : string) (ok : bool) (close : option Error) : SubService World :=
  {| SubService_Ready := fun w => (ok, w);
     SubService_Name := name;
     SubService_Close := fun w => (close, w) |}.

Definition plain_server (addr : string) : http_Server World :=
  {| Addr := addr; Handler := NewRouter; ReadTimeout := 10 * time_Second;
     WriteTimeout := 10 * time_Second; MaxHeaderBytes := http_DefaultMaxHeaderBytes |}.

(** An orchestrator with nothing configured. *)
Definition bare : Service World :=
  {| Name := "test"; ctx := background; GRPCServers := []; HTTPServers := [];
     Service_DB := None; Service_Redis := None; isReady := Some 0%nat;
     ErrChan := Some 0%nat; SubServices := ∅; sigHandler := None |}.

(** A user-written option that fails. *)
Definition failing_option : Option World :=
  CustomOption (fun s w => ((Some (ErrorString "bad option"), s), w)).

(** One HTTP listener and nothing else. *)
Definition one_listener : Service World := set_HTTPServers [plain_server ":8081"] bare.

(** A state whose cell 0 is a readiness flag holding [false]. *)
Definition state_flag : State World :=
  {| ext := world0; atomics := {[ 0%nat := Some (VBool false) ]}; nchans := 1;
     trace := [] |}.

(** A world where the cache answers PONG together with an error. *)
Definition world_pong_err : World :=
  {| dials := 0; db_answer := None;
     cache_answer := ("PONG", Some (ErrorString "redis: connection pool timeout")) |}.

Definition state_pong_err : State World :=
  {| ext := world_pong_err; atomics := ∅; nchans := 0; trace := [] |}.

(** A world where the database is down. *)
Definition world_db_down : World :=
  {| dials := 0; db_answer := Some (ErrorString "sql: connection refused");
     cache_answer := ("PONG", None) |}.

Definition state_db_down : State World :=
  {| ext := world_db_down; atomics := ∅; nchans := 0; trace := [] |}.

(** The options of example/main.go. *)
Definition main_options : list (Option World) :=
  [WithGRPCServer ":8080"; WithTechHTTPServerOption ":5051"].

(** What [New] builds from them. *)
Definition built : option (Outcome (option (Service World) * option Error) * State World) :=
  New background "test" main_options state0.

Definition built_service : Service World :=
  match built with
  | Some (Ret (Some s, _), _) => s
  | _ => bare
  end.

Definition built_state : State World :=
  match built with
  | Some (_, st) => st
  | None => state0
  end.

(** A checker that always says no. *)
Definition never_alive : Checker World := CkFunc (fun w => (false, w)).

End Doubles.

(** ** More test doubles *)

Module MoreDoubles.
Import Doubles.

Definition greeter : grpc_ServiceDesc := {| ServiceName := "helloworld.Greeter" |}.

Definition grpc_at (addr : string) : GRPCServer :=
  {| address := addr; server := grpc_NewServer |}.

(** Three gRPC servers, the last two bound to the same address. *)
Definition three_grpc : Service World :=
  set_GRPCServers [grpc_at ":7070"; grpc_at ":8080"; grpc_at ":8080"] bare.

Definition one_grpc : Service World := set_GRPCServers [grpc_at ":8080"] bare.

(** An environment where every listener accepts the first dial. *)
Definition all_up : Env World := env (Some 0%nat) "".

(** A database and a cache that answer well in every world, and a database
    that is down in every world. *)
Definition steady_db : DB World :=
  {| DB_Ping := fun _ w => (None, w); DB_Close := fun w => (None, w) |}.

Definition steady_cache : Redis World :=
  {| Redis_Ping := fun _ w => (("PONG", None), w); Redis_Close := fun w => (None, w) |}.

Definition dead_db : DB World :=
  {| DB_Ping := fun _ w => (Some (ErrorString "sql: connection refused"), w);
     DB_Close := fun w => (None, w) |}.

(** One listener of each kind, a database and a cache. *)
Definition full : Service World :=
  set_Redis (Some steady_cache)
    (set_DB (Some steady_db) (set_GRPCServers [grpc_at ":8080"] one_listener)).

(** Two sub-services, one of which is never ready. *)
Definition with_subs : Service World :=
  set_SubServices {[ "worker" := sub "worker" false None;
                     "mailer" := sub "mailer" true None ]} bare.

(** An orchestrator put together by hand, without a readiness flag. *)
Definition flagless : Service World :=
  {| Name := "test"; ctx := background; GRPCServers := []; HTTPServers := [];
     Service_DB := None; Service_Redis := None; isReady := None;
     ErrChan := None; SubServices := ∅; sigHandler := None |}.

(** A state whose cell 0 is an [atomic.Value] nothing was stored in. *)
Definition state_empty_flag : State World :=
  {| ext := world0; atomics := {[ 0%nat := None ]}; nchans := 1; trace := [] |}.

End MoreDoubles.

(** * Properties *)

Section Properties.
Context {W : Type} (E : Env W).

Implicit Types (st : State W) (s : Service W).

(** ** Running the monad *)

Lemma bind_run {A B : Type} (m : M W A) (f : A -> M W B) st :
  (m ≫= f) st =
  match m st with
  | None => None
  | Some (Ret a, st') => f a st'
  | Some (Exit c, st') => Some (Exit c, st')
  | Some (Panic p, st') => Some (Panic p, st')
  end.
Proof. reflexivity. Qed.

Lemma bind_assoc {A B C : Type} (m : M W A) (f : A -> M W B) (g : B -> M W C) st :
  ((m ≫= f) ≫= g) st = (m ≫= (fun x => f x ≫= g)) st.
Proof. rewrite !bind_run. destruct (m st) as [[[a|c|p] st']|]; reflexivity. Qed.

Lemma ret_run {A : Type} (a : A) st : (mret a : M W A) st = Some (Ret a, st).
Proof. reflexivity. Qed.

Lemma dial_count_snoc (t : list Event) e :
  dial_count (t ++ [e]) = (dial_count t + (if is_dial e then 1 else 0))%nat.
Proof.
  unfold dial_count. rewrite List.filter_app, length_app; simpl.
  destruct (is_dial e); reflexivity.
Qed.

Lemma dial_count_emit st e :
  dial_count (trace (emit e st)) = (dial_count (trace st) + (if is_dial e then 1 else 0))%nat.
Proof. apply dial_count_snoc. Qed.

(** ** The dial loop of [checkHTTPServerUp] *)

(** The loop only ever comes back through its exit test. *)
Lemma dial_until_up_returns fuel : forall addr conn err st o st',
  dial_until_up E fuel addr conn err st = Some (o, st') -> exists c, o = Ret c.
Proof.
  induction fuel as [|fuel IH]; intros addr conn err st o st' H.
  - destruct err; simpl in H; [discriminate|]. inversion H; eauto.
  - destruct err as [e|]; simpl in H; [|inversion H; eauto].
    rewrite bind_run in H; simpl in H.
    destruct (snd (fst (net_DialTimeout E "tcp" addr (1 * time_Second) (ext st))));
      rewrite bind_run in H; simpl in H; eapply IH; exact H.
Qed.

Lemma dial_until_up_succeeds k : forall fuel addr conn e st,
  up_after E k addr (ext st) = true -> (k < fuel)%nat ->
  exists c st', dial_until_up E fuel addr conn (Some e) st = Some (Ret c, st')
                /\ dial_count (trace st') = (dial_count (trace st) + S k)%nat.
Proof.
  induction k as [|k IH]; intros fuel addr conn e st Hup Hlt;
    (destruct fuel as [|fuel]; [lia|]); simpl in Hup |- *; rewrite bind_run; simpl.
  - destruct (snd (fst (net_DialTimeout E "tcp" addr (1 * time_Second) (ext st)))) eqn:Herr;
      [discriminate|].
    simpl. destruct fuel; simpl; eexists _, _; (split; [reflexivity|]);
      rewrite dial_count_emit; reflexivity.
  - apply andb_prop in Hup as [Herr Hup].
    destruct (snd (fst (net_DialTimeout E "tcp" addr (1 * time_Second) (ext st)))) eqn:Herr';
      [|discriminate].
    simpl.
    edestruct (IH fuel addr (fst (fst (net_DialTimeout E "tcp" addr (1 * time_Second) (ext st))))
                 e0) as (c & st' & Hrun & Hcnt); [| |exists c, st'; split; [exact Hrun|]].
    + simpl. exact Hup.
    + lia.
    + rewrite Hcnt, !dial_count_emit. simpl. lia.
Qed.

Lemma dial_until_up_short k : forall fuel addr conn e st,
  up_after E k addr (ext st) = true -> (fuel <= k)%nat ->
  dial_until_up E fuel addr conn (Some e) st = None.
Proof.
  induction k as [|k IH]; intros fuel addr conn e st Hup Hle;
    destruct fuel as [|fuel]; try reflexivity; try lia.
  simpl in Hup |- *. rewrite bind_run; simpl.
  apply andb_prop in Hup as [Herr Hup].
  destruct (snd (fst (net_DialTimeout E "tcp" addr (1 * time_Second) (ext st)))) eqn:Herr';
    [|discriminate].
  rewrite bind_run; simpl. apply IH; [exact Hup|lia].
Qed.

Lemma never_up_step addr w :
  never_up E addr w ->
  notnil (snd (fst (net_DialTimeout E "tcp" addr (1 * time_Second) w))) = true
  /\ never_up E addr (snd (net_DialTimeout E "tcp" addr (1 * time_Second) w)).
Proof.
  intros H. assert (H0 := H O). simpl in H0.
  apply negb_false_iff in H0. split; [exact H0|].
  intros k. specialize (H (S k)). simpl in H. rewrite H0 in H. exact H.
Qed.

Lemma dial_until_up_never fuel : forall addr conn e st,
  never_up E addr (ext st) -> dial_until_up E fuel addr conn (Some e) st = None.
Proof.
  induction fuel as [|fuel IH]; intros addr conn e st Hnever; [reflexivity|].
  apply never_up_step in Hnever as [Herr Hnever].
  simpl. rewrite bind_run; simpl.
  destruct (snd (fst (net_DialTimeout E "tcp" addr (1 * time_Second) (ext st)))) eqn:Herr';
    [|discriminate].
  rewrite bind_run; simpl. apply IH. exact Hnever.
Qed.

Lemma refuses_never_up addr w : refuses E addr -> never_up E addr w.
Proof.
  intros H k. revert w. induction k as [|k IH]; intros w; simpl.
  - rewrite (H w). reflexivity.
  - rewrite IH. apply andb_false_r.
Qed.

(** ** [checkHTTPServerUp] *)

Lemma checkHTTPServerUp_only_true fuel (srv : http_Server W) st o st' :
  checkHTTPServerUp E fuel srv st = Some (o, st') -> o = Ret true.
Proof.
  unfold checkHTTPServerUp. rewrite bind_run.
  destruct (dial_until_up E fuel (Addr srv) None _ st) as [[o1 st1]|] eqn:Hloop;
    [|discriminate].
  destruct (dial_until_up_returns _ _ _ _ _ _ _ Hloop) as [c ->].
  rewrite bind_run; simpl. destruct c; simpl; intros H; inversion H; reflexivity.
Qed.

Lemma checkHTTPServerUp_up k fuel (srv : http_Server W) st :
  up_after E k (Addr srv) (ext st) = true -> (k < fuel)%nat ->
  exists st', checkHTTPServerUp E fuel srv st = Some (Ret true, st')
              /\ dial_count (trace st') = (dial_count (trace st) + S k)%nat.
Proof.
  intros Hup Hlt. unfold checkHTTPServerUp. rewrite bind_run.
  destruct (dial_until_up_succeeds k fuel (Addr srv) None
              (ErrorString "http server not ready") st Hup Hlt) as (c & st1 & -> & Hcnt).
  rewrite bind_run; simpl. destruct c; simpl; eexists; (split; [reflexivity|]).
  all: cbn [trace emit set_ext]; rewrite ?dial_count_snoc; cbn [is_dial]; rewrite Hcnt; lia.
Qed.

Lemma checkHTTPServerUp_short k fuel (srv : http_Server W) st :
  up_after E k (Addr srv) (ext st) = true -> (fuel <= k)%nat ->
  checkHTTPServerUp E fuel srv st = None.
Proof.
  intros Hup Hle. unfold checkHTTPServerUp. rewrite bind_run.
  rewrite (dial_until_up_short k); auto.
Qed.

Lemma checkHTTPServerUp_never fuel (srv : http_Server W) st :
  never_up E (Addr srv) (ext st) -> checkHTTPServerUp E fuel srv st = None.
Proof.
  intros H. unfold checkHTTPServerUp. rewrite bind_run.
  rewrite dial_until_up_never; auto.
Qed.

(** C4 (amended).  The reachability check of a request/response listener
    dials the bound address with a one-second timeout per attempt and keeps
    dialling until an attempt is accepted; it then answers true.  It has no
    bound on the attempts and never answers false: when [k] dials are
    refused and the next one is accepted it comes back after exactly [k + 1]
    dials (and not with less), and for an address that never accepts it does
    not come back at all. *)
Theorem checkHTTPServerUp_retries_until_up (srv : http_Server W) st :
  (forall fuel o st', checkHTTPServerUp E fuel srv st = Some (o, st') -> o = Ret true)
  /\ (forall k fuel, up_after E k (Addr srv) (ext st) = true ->
        ((k < fuel)%nat ->
           exists st', returns (checkHTTPServerUp E fuel srv) st true st'
                       /\ dial_count (trace st') = (dial_count (trace st) + S k)%nat)
        /\ ((fuel <= k)%nat -> checkHTTPServerUp E fuel srv st = None))
  /\ (never_up E (Addr srv) (ext st) -> hangs (fun fuel => checkHTTPServerUp E fuel srv) st).
Proof.
  split; [|split].
  - intros fuel o st'. apply checkHTTPServerUp_only_true.
  - intros k fuel Hup. split.
    + apply checkHTTPServerUp_up. exact Hup.
    + apply checkHTTPServerUp_short. exact Hup.
  - intros Hnever fuel. apply checkHTTPServerUp_never. exact Hnever.
Qed.

(** ** Simulation between runs *)

Lemma calls_snoc (t : list Event) e :
  calls (t ++ [e]) = calls t ++ (if is_log e then [] else [e]).
Proof. unfold calls. rewrite List.filter_app. simpl. destruct (is_log e); reflexivity. Qed.

Lemma same_but_logs_blind : log_blind (same_but_logs (W:=W)).
Proof.
  split.
  - intros st1 st2 H. apply H.
  - intros st1 st2 c w (Hx & Ha & Hn & Ht). repeat split; simpl; auto.
    rewrite !calls_snoc, Ht. reflexivity.
  - intros st1 st2 l f a (Hx & Ha & Hn & Ht). repeat split; simpl; auto.
    rewrite calls_snoc, Ht. simpl. apply app_nil_r.
  - intros st1 st2 l f a (Hx & Ha & Hn & Ht). repeat split; simpl; auto.
    rewrite calls_snoc, Ht. simpl. symmetry. apply app_nil_r.
Qed.

Lemma same_world_blind : log_blind (same_world (W:=W)).
Proof. split; unfold same_world; simpl; auto. Qed.

Section Sim.
Context (R : State W -> State W -> Prop) (HR : log_blind R).

Lemma sim_ret {A : Type} (a : A) : sim R (mret a) (mret a).
Proof. intros st1 st2 H. simpl. auto. Qed.

Lemma sim_bind {A B : Type} (m1 m2 : M W A) (f1 f2 : A -> M W B) :
  sim R m1 m2 -> (forall a, sim R (f1 a) (f2 a)) -> sim R (m1 ≫= f1) (m2 ≫= f2).
Proof.
  intros Hm Hf st1 st2 H. rewrite !bind_run. specialize (Hm st1 st2 H).
  destruct (m1 st1) as [[o1 s1]|], (m2 st2) as [[o2 s2]|]; simpl in Hm; try contradiction;
    [|exact I].
  destruct Hm as [<- Hs]. destruct o1; simpl; auto. apply Hf. exact Hs.
Qed.

(** The continuation on the left only logs and hands the value on. *)
Lemma sim_bind_l {A : Type} (m1 m2 : M W A) (f : A -> M W A) :
  sim R m1 m2 -> (forall a, sim R (f a) (mret a)) -> sim R (m1 ≫= f) m2.
Proof.
  intros Hm Hf st1 st2 H. rewrite bind_run. specialize (Hm st1 st2 H).
  destruct (m1 st1) as [[o1 s1]|], (m2 st2) as [[o2 s2]|]; simpl in Hm; try contradiction;
    [|exact I].
  destruct Hm as [<- Hs]. destruct o1; simpl; auto. apply (Hf a s1 s2 Hs).
Qed.

Lemma sim_ext_r {A : Type} (m1 m2 m2' : M W A) :
  (forall st, m2 st = m2' st) -> sim R m1 m2' -> sim R m1 m2.
Proof. intros Heq H st1 st2 HR12. rewrite Heq. apply H, HR12. Qed.

Lemma sim_extcall {A : Type} (c : Call) (f : W -> A * W) : sim R (extcall c f) (extcall c f).
Proof.
  intros st1 st2 H. unfold extcall. simpl. rewrite (lb_ext R HR _ _ H).
  split; [reflexivity|]. apply (lb_call R HR). exact H.
Qed.

Lemma sim_logf l1 f1 a1 l2 f2 a2 : sim R (logf l1 f1 a1) (logf l2 f2 a2).
Proof.
  intros st1 st2 H. simpl. split; [reflexivity|].
  apply (lb_log_l R HR), (lb_log_r R HR), H.
Qed.

Lemma sim_logf_l l f a : sim R (logf l f a) (mret tt).
Proof. intros st1 st2 H. simpl. split; [reflexivity|]. apply (lb_log_l R HR), H. Qed.

Lemma sim_when_l (b : bool) l f a : sim R (when b (logf l f a)) (mret tt).
Proof. destruct b; simpl; [apply sim_logf_l|apply sim_ret]. Qed.

Lemma sim_when (b : bool) l f a : sim R (when b (logf l f a)) (when b (logf l f a)).
Proof. destruct b; simpl; [apply sim_logf|apply sim_ret]. Qed.

Lemma sim_out_of_fuel {A : Type} : sim R (@out_of_fuel W A) out_of_fuel.
Proof. intros st1 st2 H. exact I. Qed.

Lemma sim_panic {A : Type} msg : sim R (@panic W A msg) (panic msg).
Proof. intros st1 st2 H. simpl. auto. Qed.

Lemma sim_range_map m : sim R (range_map E m) (range_map E m).
Proof.
  intros st1 st2 H. unfold range_map. simpl. rewrite (lb_ext R HR _ _ H). auto.
Qed.

Lemma sim_for_each {A S : Type} (xs : list A) (b1 b2 : A -> S -> M W S) :
  (forall x acc, sim R (b1 x acc) (b2 x acc)) ->
  forall acc, sim R (for_each xs b1 acc) (for_each xs b2 acc).
Proof.
  intros Hb. induction xs as [|x xs IH]; intros acc; simpl.
  - apply sim_ret.
  - apply sim_bind; [apply Hb|exact IH].
Qed.

Lemma sim_for_range {A S T : Type} (xs : list A) (b1 b2 : A -> S -> M W (S + T)) :
  (forall x acc, sim R (b1 x acc) (b2 x acc)) ->
  forall acc, sim R (for_range xs b1 acc) (for_range xs b2 acc).
Proof.
  intros Hb. induction xs as [|x xs IH]; intros acc; simpl.
  - apply sim_ret.
  - apply sim_bind; [apply Hb|]. intros [acc'|v]; [apply IH|apply sim_ret].
Qed.

Lemma sim_dial_until_up fuel : forall addr conn err,
  sim R (dial_until_up E fuel addr conn err) (dial_until_up E fuel addr conn err).
Proof.
  induction fuel as [|fuel IH]; intros addr conn [e|]; simpl;
    try apply sim_ret; try apply sim_out_of_fuel.
  apply sim_bind; [apply sim_extcall|]. intros r.
  apply sim_bind; [|intros _; apply IH].
  destruct (snd r); [apply sim_logf|apply sim_ret].
Qed.

Lemma sim_checkHTTPServerUp fuel (srv : http_Server W) :
  sim R (checkHTTPServerUp E fuel srv) (checkHTTPServerUp E fuel srv).
Proof.
  unfold checkHTTPServerUp.
  apply sim_bind; [apply sim_dial_until_up|]. intros conn.
  apply sim_bind; [apply sim_logf|]. intros _.
  apply sim_bind; [|intros _; apply sim_ret].
  destruct conn; [|apply sim_ret].
  apply sim_bind; [apply sim_extcall|intros _; apply sim_ret].
Qed.

Lemma sim_checkGRPCServerUp s : sim R (checkGRPCServerUp E s) (checkGRPCServerUp E s).
Proof.
  unfold checkGRPCServerUp.
  apply sim_bind.
  - apply sim_for_range. intros server acc.
    apply sim_bind; [apply sim_extcall|]. intros d.
    destruct (snd d); (apply sim_bind; [apply sim_logf|intros _; apply sim_ret]).
  - intros r. destruct (match r with inl c => (c, true) | inr v => v end) as [conn result].
    apply sim_bind; [|intros _; apply sim_ret].
    destruct conn; [|apply sim_ret].
    apply sim_bind; [apply sim_extcall|intros _; apply sim_ret].
Qed.

Lemma sim_checkDBAlive s : sim R (checkDBAlive s) (checkDBAlive s).
Proof.
  unfold checkDBAlive. destruct (Service_DB s); [|apply sim_panic].
  apply sim_bind; [apply sim_extcall|]. intros err.
  apply sim_bind; [apply sim_when|]. intros _.
  apply sim_bind; [apply sim_when|intros _; apply sim_ret].
Qed.

Lemma sim_checkRedisAlive s : sim R (checkRedisAlive s) (checkRedisAlive s).
Proof.
  unfold checkRedisAlive. destruct (Service_Redis s); [|apply sim_panic].
  apply sim_bind; [apply sim_extcall|]. intros [pong err].
  apply sim_bind; [apply sim_when|]. intros _.
  apply sim_bind; [apply sim_when|intros _; apply sim_ret].
Qed.

End Sim.

(** ** Liveness and readiness against their conditions *)

Section SimLiveness.
Context (R : State W -> State W -> Prop) (HR : log_blind R).

Lemma sim_grpc_part s lvl msg :
  sim R (if slice_not_nil (GRPCServers s) then
           b ← checkGRPCServerUp E s; when (negb b) (logf lvl msg []);; mret b
         else mret true)
        (grpc_condition E s).
Proof.
  unfold grpc_condition. destruct (slice_not_nil (GRPCServers s)); [|apply sim_ret].
  apply sim_bind_l; [apply sim_checkGRPCServerUp, HR|]. intros b.
  intros st1 st2 H. rewrite bind_run.
  destruct (negb b); simpl; (split; [reflexivity|]); auto. apply (lb_log_l R HR), H.
Qed.

Lemma sim_http_part fuel s :
  sim R (for_each (HTTPServers s)
           (fun httpServer acc =>
              up ← checkHTTPServerUp E fuel httpServer;
              mret (if negb up then false else acc)) true)
        (http_condition E fuel s).
Proof.
  unfold http_condition. apply sim_for_each. intros srv acc.
  apply sim_bind; [apply sim_checkHTTPServerUp, HR|]. intros up.
  replace (if negb up then false else acc) with (acc && up) by (destruct up, acc; reflexivity).
  apply sim_ret.
Qed.

Lemma sim_db_part s :
  sim R (if notnil (Service_DB s) then
           b ← checkDBAlive s; mret (if negb b then false else true)
         else mret true)
        (db_condition s).
Proof.
  unfold db_condition. destruct (notnil (Service_DB s)); [|apply sim_ret].
  apply sim_bind_l; [apply sim_checkDBAlive, HR|]. intros b.
  replace (if negb b then false else true) with b by (destruct b; reflexivity).
  apply sim_ret.
Qed.

Lemma sim_cache_part s :
  sim R (if notnil (Service_Redis s) then
           b ← checkRedisAlive s; mret (if negb b then false else true)
         else mret true)
        (cache_condition s).
Proof.
  unfold cache_condition. destruct (notnil (Service_Redis s)); [|apply sim_ret].
  apply sim_bind_l; [apply sim_checkRedisAlive, HR|]. intros b.
  replace (if negb b then false else true) with b by (destruct b; reflexivity).
  apply sim_ret.
Qed.

Lemma sim_IsAlive_liveness fuel s : sim R (IsAlive E fuel s) (liveness E fuel s).
Proof.
  unfold IsAlive, liveness.
  apply sim_bind; [apply sim_grpc_part|]. intros g.
  apply sim_bind; [apply sim_http_part|]. intros h.
  apply sim_bind; [apply sim_db_part|]. intros d.
  apply sim_bind; [apply sim_cache_part|]. intros c.
  apply sim_ret.
Qed.

Lemma sim_subservices_loop (subs : list (string * SubService W)) :
  sim R (for_each subs
           (fun kv acc =>
              ok ← extcall (CallSubReady (fst kv)) (SubService_Ready (snd kv));
              acc' ←
                (if negb ok then
                   logf LvlError "subservice not ready subservice %s"
                     [ArgString (SubService_Name (snd kv))];;
                   mret false
                 else mret acc);
              logf LvlInfo "subservice is ready subservice %s"
                [ArgString (SubService_Name (snd kv))];;
              mret acc')
           true)
        (for_each subs
           (fun kv acc => ok ← extcall (CallSubReady (fst kv)) (SubService_Ready (snd kv));
                          mret (acc && ok))
           true).
Proof.
  apply sim_for_each. intros kv acc.
  apply sim_bind; [apply sim_extcall, HR|]. intros ok.
  intros st1 st2 H. rewrite !bind_run.
  destruct ok; simpl; (split; [|repeat apply (lb_log_l R HR); exact H]).
  - rewrite andb_true_r. reflexivity.
  - rewrite andb_false_r. reflexivity.
Qed.

Lemma sim_self_IsAlive fuel s : sim R (IsAlive E fuel s) (IsAlive E fuel s).
Proof.
  unfold IsAlive.
  apply sim_bind.
  { destruct (slice_not_nil (GRPCServers s)); [|apply sim_ret].
    apply sim_bind; [apply sim_checkGRPCServerUp, HR|]. intros b.
    apply sim_bind; [apply sim_when, HR|intros _; apply sim_ret]. }
  intros g. apply sim_bind.
  { apply sim_for_each. intros srv acc.
    apply sim_bind; [apply sim_checkHTTPServerUp, HR|intros up; apply sim_ret]. }
  intros h. apply sim_bind.
  { destruct (notnil (Service_DB s)); [|apply sim_ret].
    apply sim_bind; [apply sim_checkDBAlive, HR|intros b; apply sim_ret]. }
  intros d. apply sim_bind.
  { destruct (notnil (Service_Redis s)); [|apply sim_ret].
    apply sim_bind; [apply sim_checkRedisAlive, HR|intros b; apply sim_ret]. }
  intros c. apply sim_ret.
Qed.

End SimLiveness.

Lemma sim_atomic_Swap p x : sim same_but_logs (atomic_Swap (W:=W) p x) (atomic_Swap p x).
Proof.
  intros st1 st2 (Hx & Ha & Hn & Ht). unfold atomic_Swap. rewrite Ha.
  destruct p as [l|]; [|simpl; repeat split; auto].
  destruct (atomics st2 !! l) as [[[b|ty]|]|]; simpl; repeat split; auto.
Qed.

Lemma sim_Ready_readiness fuel s : sim same_but_logs (Ready E fuel s) (readiness E fuel s).
Proof.
  unfold Ready, readiness, subservices_condition.
  eapply sim_ext_r; [intros st; apply bind_assoc|].
  apply sim_bind; [apply sim_range_map, same_but_logs_blind|]. intros subs.
  apply sim_bind; [apply sim_subservices_loop, same_but_logs_blind|]. intros a.
  apply sim_bind; [apply sim_grpc_part, same_but_logs_blind|]. intros g.
  apply sim_bind; [apply sim_http_part, same_but_logs_blind|]. intros h.
  apply sim_bind; [apply sim_db_part, same_but_logs_blind|]. intros d.
  apply sim_bind; [apply sim_cache_part, same_but_logs_blind|]. intros c.
  apply sim_bind; [apply sim_atomic_Swap|]. intros _. apply sim_ret.
Qed.

(** ** Computations that always return *)

Lemma total_ret {A : Type} (a : A) : total (mret a : M W A).
Proof. intros st. eexists _, _. reflexivity. Qed.

Lemma total_bind {A B : Type} (m : M W A) (f : A -> M W B) :
  total m -> (forall a, total (f a)) -> total (m ≫= f).
Proof.
  intros Hm Hf st. destruct (Hm st) as (a & st1 & H1). rewrite bind_run, H1. apply Hf.
Qed.

Lemma total_extcall {A : Type} c (f : W -> A * W) : total (extcall c f).
Proof. intros st. eexists _, _. reflexivity. Qed.

Lemma total_logf l f a : total (logf (W:=W) l f a).
Proof. intros st. eexists _, _. reflexivity. Qed.

Lemma total_when (b : bool) (m : M W unit) : total m -> total (when b m).
Proof. destruct b; simpl; [auto|intros _; apply total_ret]. Qed.

Lemma total_go t : total (go (W:=W) t).
Proof. intros st. eexists _, _. reflexivity. Qed.

Lemma total_range_map m : total (range_map E m).
Proof. intros st. eexists _, _. reflexivity. Qed.

Lemma total_for_each {A S : Type} (xs : list A) (body : A -> S -> M W S) :
  (forall x acc, total (body x acc)) -> forall acc, total (for_each xs body acc).
Proof.
  intros Hb. induction xs as [|x xs IH]; intros acc; simpl.
  - apply total_ret.
  - apply total_bind; [apply Hb|exact IH].
Qed.

Lemma total_for_range {A S T : Type} (xs : list A) (body : A -> S -> M W (S + T)) :
  (forall x acc, total (body x acc)) -> forall acc, total (for_range xs body acc).
Proof.
  intros Hb. induction xs as [|x xs IH]; intros acc; simpl.
  - apply total_ret.
  - apply total_bind; [apply Hb|]. intros [acc'|v]; [apply IH|apply total_ret].
Qed.

Create HintDb total.

#[local] Hint Resolve total_ret total_extcall total_logf total_when total_go
  total_range_map : total.

Ltac total_step :=
  lazymatch goal with
  | |- total (_ ≫= _) => apply total_bind; [|intros ?]
  | |- total (for_each _ _ _) => apply total_for_each; intros ? ?
  | |- total (for_range _ _ _) => apply total_for_range; intros ? ?
  | |- _ => solve [auto with total]
  end.

Lemma total_checkGRPCServerUp s : total (checkGRPCServerUp E s).
Proof.
  unfold checkGRPCServerUp. apply total_bind.
  - apply total_for_range. intros server acc. apply total_bind; [auto with total|].
    intros d. destruct (snd d); repeat total_step.
  - intros r. destruct (match r with inl c => (c, true) | inr v => v end) as [conn result].
    destruct conn; repeat total_step.
Qed.

Lemma total_grpc_part s lvl msg :
  total (if slice_not_nil (GRPCServers s) then
           b ← checkGRPCServerUp E s; when (negb b) (logf lvl msg []);; mret b
         else mret true).
Proof.
  destruct (slice_not_nil (GRPCServers s)); [|apply total_ret].
  apply total_bind; [apply total_checkGRPCServerUp|]. intros b. repeat total_step.
Qed.

Lemma total_subservices_part s :
  total (subs ← range_map E (SubServices s);
         for_each subs
           (fun kv acc =>
              ok ← extcall (CallSubReady (fst kv)) (SubService_Ready (snd kv));
              acc' ←
                (if negb ok then
                   logf LvlError "subservice not ready subservice %s"
                     [ArgString (SubService_Name (snd kv))];;
                   mret false
                 else mret acc);
              logf LvlInfo "subservice is ready subservice %s"
                [ArgString (SubService_Name (snd kv))];;
              mret acc')
           true).
Proof.
  apply total_bind; [auto with total|]. intros subs.
  apply total_for_each. intros kv acc. apply total_bind; [auto with total|].
  intros ok. destruct ok; simpl; repeat total_step.
Qed.

(** ** Waiting for a listener that never accepts *)

Lemma hang_after_total {A B : Type} (m : M W A) (f : A -> M W B) :
  total m -> (forall a st, f a st = None) -> forall st, (m ≫= f) st = None.
Proof.
  intros Hm Hf st. destruct (Hm st) as (a & st1 & H1). rewrite bind_run, H1. apply Hf.
Qed.

Lemma hang_bind {A B : Type} (m : M W A) (f : A -> M W B) st :
  m st = None -> (m ≫= f) st = None.
Proof. intros H. rewrite bind_run, H. reflexivity. Qed.

Lemma http_loop_hangs fuel (servers : list (http_Server W)) (srv : http_Server W)
    (g : bool -> bool -> bool) :
  srv ∈ servers -> refuses E (Addr srv) ->
  forall acc st,
    for_each servers
      (fun httpServer acc => up ← checkHTTPServerUp E fuel httpServer; mret (g up acc))
      acc st = None.
Proof.
  intros Hin Href. induction servers as [|x xs IH]; intros acc st.
  - inversion Hin.
  - simpl. rewrite !bind_run.
    destruct (checkHTTPServerUp E fuel x st) as [[o st1]|] eqn:Hx; [|reflexivity].
    rewrite (checkHTTPServerUp_only_true _ _ _ _ _ Hx). apply elem_of_cons in Hin as [->|Hin].
    + rewrite checkHTTPServerUp_never in Hx; [discriminate|].
      apply refuses_never_up, Href.
    + simpl. apply IH, Hin.
Qed.

Lemma IsAlive_waits fuel s (srv : http_Server W) st :
  srv ∈ HTTPServers s -> refuses E (Addr srv) -> IsAlive E fuel s st = None.
Proof.
  intros Hin Href. unfold IsAlive.
  apply hang_after_total; [apply total_grpc_part|]. intros g st1.
  apply hang_bind.
  apply (http_loop_hangs fuel _ srv (fun up acc => if negb up then false else acc) Hin Href).
Qed.

Lemma Ready_waits fuel s (srv : http_Server W) st :
  srv ∈ HTTPServers s -> refuses E (Addr srv) -> Ready E fuel s st = None.
Proof.
  intros Hin Href. unfold Ready. rewrite <- bind_assoc.
  apply hang_after_total; [apply total_subservices_part|]. intros a st1.
  apply hang_after_total; [apply total_grpc_part|]. intros g st2.
  apply hang_bind.
  apply (http_loop_hangs fuel _ srv (fun up acc => if negb up then false else acc) Hin Href).
Qed.

Lemma http_condition_only_true fuel s st o st' :
  http_condition E fuel s st = Some (o, st') -> o = Ret true.
Proof.
  unfold http_condition. generalize (HTTPServers s). intros servers.
  assert (forall acc, acc = true ->
            for_each servers
              (fun srv acc => up ← checkHTTPServerUp E fuel srv; mret (acc && up)) acc st
            = Some (o, st') -> o = Ret true) as H; [|apply H; reflexivity].
  revert st. induction servers as [|x xs IH]; intros st acc -> H.
  - inversion H; reflexivity.
  - simpl in H. rewrite !bind_run in H.
    destruct (checkHTTPServerUp E fuel x st) as [[o1 st1]|] eqn:Hx; [|discriminate].
    rewrite (checkHTTPServerUp_only_true _ _ _ _ _ Hx) in H. simpl in H.
    eapply IH; [reflexivity|exact H].
Qed.

Lemma sim_self_alive (R : State W -> State W -> Prop) fuel s areAlive w :
  log_blind R -> sim R (alive E fuel s areAlive w) (alive E fuel s areAlive w).
Proof.
  intros HR. unfold alive. apply sim_bind.
  - apply sim_for_range. intros c []. apply sim_bind.
    + destruct c; simpl; [apply sim_self_IsAlive, HR|apply sim_extcall, HR].
    + intros b. destruct (negb b); apply sim_ret.
  - intros [[]|w']; apply sim_ret.
Qed.


(** ** Who writes the [atomic.Value] cells *)

Lemma keeps_ret {A : Type} (a : A) : keeps_atomics (mret a : M W A).
Proof. intros st o st' H. inversion H; reflexivity. Qed.

Lemma keeps_bind {A B : Type} (m : M W A) (f : A -> M W B) :
  keeps_atomics m -> (forall a, keeps_atomics (f a)) -> keeps_atomics (m ≫= f).
Proof.
  intros Hm Hf st o st' H. rewrite bind_run in H.
  destruct (m st) as [[[a|c|p] st1]|] eqn:H1; try discriminate.
  - rewrite (Hf a _ _ _ H). eapply Hm, H1.
  - inversion H; subst. eapply Hm, H1.
  - inversion H; subst. eapply Hm, H1.
Qed.

Lemma keeps_extcall {A : Type} c (f : W -> A * W) : keeps_atomics (extcall c f).
Proof. intros st o st' H. inversion H; reflexivity. Qed.

Lemma keeps_logf l f a : keeps_atomics (logf (W:=W) l f a).
Proof. intros st o st' H. inversion H; reflexivity. Qed.

Lemma keeps_go t : keeps_atomics (go (W:=W) t).
Proof. intros st o st' H. inversion H; reflexivity. Qed.

Lemma keeps_when (b : bool) (m : M W unit) : keeps_atomics m -> keeps_atomics (when b m).
Proof. destruct b; simpl; [auto|intros _; apply keeps_ret]. Qed.

Lemma keeps_range_map m : keeps_atomics (range_map E m).
Proof. intros st o st' H. inversion H; reflexivity. Qed.

Lemma keeps_out_of_fuel {A : Type} : keeps_atomics (@out_of_fuel W A).
Proof. intros st o st' H. discriminate. Qed.

Lemma keeps_panic {A : Type} msg : keeps_atomics (@panic W A msg).
Proof. intros st o st' H. inversion H; reflexivity. Qed.

Lemma keeps_os_Exit {A : Type} code : keeps_atomics (@os_Exit W A code).
Proof. intros st o st' H. inversion H; reflexivity. Qed.

Lemma keeps_atomic_Load p : keeps_atomics (atomic_Load (W:=W) p).
Proof.
  intros st o st' H. unfold atomic_Load in H.
  destruct p as [l|]; [destruct (atomics st !! l)|]; inversion H; reflexivity.
Qed.

Lemma keeps_assert_bool x : keeps_atomics (assert_bool (W:=W) x).
Proof. destruct x as [[b|ty]|]; simpl; [apply keeps_ret|apply keeps_panic..]. Qed.

Lemma keeps_for_each {A S : Type} (xs : list A) (body : A -> S -> M W S) :
  (forall x acc, keeps_atomics (body x acc)) ->
  forall acc, keeps_atomics (for_each xs body acc).
Proof.
  intros Hb. induction xs as [|x xs IH]; intros acc; simpl.
  - apply keeps_ret.
  - apply keeps_bind; [apply Hb|exact IH].
Qed.

Lemma keeps_for_range {A S T : Type} (xs : list A) (body : A -> S -> M W (S + T)) :
  (forall x acc, keeps_atomics (body x acc)) ->
  forall acc, keeps_atomics (for_range xs body acc).
Proof.
  intros Hb. induction xs as [|x xs IH]; intros acc; simpl.
  - apply keeps_ret.
  - apply keeps_bind; [apply Hb|]. intros [acc'|v]; [apply IH|apply keeps_ret].
Qed.

Create HintDb keeps.

#[local] Hint Resolve keeps_ret keeps_extcall keeps_logf keeps_go keeps_when
  keeps_range_map keeps_out_of_fuel keeps_panic keeps_os_Exit keeps_atomic_Load
  keeps_assert_bool : keeps.

Ltac keeps_step :=
  lazymatch goal with
  | |- keeps_atomics (if ?b then _ else _) => destruct b
  | |- keeps_atomics (_ ≫= _) => apply keeps_bind; [|intros ?]
  | |- keeps_atomics (for_each _ _ _) => apply keeps_for_each; intros ? ?
  | |- keeps_atomics (for_range _ _ _) => apply keeps_for_range; intros ? ?
  | |- _ => solve [auto with keeps]
  end.

Lemma keeps_dial_until_up fuel : forall addr conn err,
  keeps_atomics (dial_until_up E fuel addr conn err).
Proof.
  induction fuel as [|fuel IH]; intros addr conn [e|]; simpl; auto with keeps.
  apply keeps_bind; [auto with keeps|]. intros r.
  apply keeps_bind; [destruct (snd r); auto with keeps|intros _; apply IH].
Qed.

Lemma keeps_checkHTTPServerUp fuel (srv : http_Server W) :
  keeps_atomics (checkHTTPServerUp E fuel srv).
Proof.
  unfold checkHTTPServerUp. apply keeps_bind; [apply keeps_dial_until_up|].
  intros conn. destruct conn; repeat keeps_step.
Qed.

Lemma keeps_checkGRPCServerUp s : keeps_atomics (checkGRPCServerUp E s).
Proof.
  unfold checkGRPCServerUp. apply keeps_bind.
  - apply keeps_for_range. intros server acc. apply keeps_bind; [auto with keeps|].
    intros d. destruct (snd d); repeat keeps_step.
  - intros r. destruct (match r with inl c => (c, true) | inr v => v end) as [conn result].
    destruct conn; repeat keeps_step.
Qed.

Lemma keeps_checkDBAlive s : keeps_atomics (checkDBAlive s).
Proof. unfold checkDBAlive. destruct (Service_DB s); repeat keeps_step. Qed.

Lemma keeps_checkRedisAlive s : keeps_atomics (checkRedisAlive s).
Proof.
  unfold checkRedisAlive. destruct (Service_Redis s); [|auto with keeps].
  apply keeps_bind; [auto with keeps|]. intros [pong err]. repeat keeps_step.
Qed.

#[local] Hint Resolve keeps_checkHTTPServerUp keeps_checkGRPCServerUp
  keeps_checkDBAlive keeps_checkRedisAlive : keeps.

Lemma keeps_grpc_part s lvl msg :
  keeps_atomics (if slice_not_nil (GRPCServers s) then
                   b ← checkGRPCServerUp E s; when (negb b) (logf lvl msg []);; mret b
                 else mret true).
Proof. repeat keeps_step. Qed.

Lemma keeps_db_part s :
  keeps_atomics (if notnil (Service_DB s) then
                   b ← checkDBAlive s; mret (if negb b then false else true)
                 else mret true).
Proof. repeat keeps_step. Qed.

Lemma keeps_cache_part s :
  keeps_atomics (if notnil (Service_Redis s) then
                   b ← checkRedisAlive s; mret (if negb b then false else true)
                 else mret true).
Proof. repeat keeps_step. Qed.

Lemma keeps_IsAlive fuel s : keeps_atomics (IsAlive E fuel s).
Proof.
  unfold IsAlive.
  apply keeps_bind; [apply keeps_grpc_part|].
  intros g. apply keeps_bind; [repeat keeps_step|].
  intros h. apply keeps_bind; [apply keeps_db_part|].
  intros d. apply keeps_bind; [apply keeps_cache_part|].
  intros c. apply keeps_ret.
Qed.

Lemma keeps_Wait t (c : context_Context W) : keeps_atomics (Wait E t c).
Proof.
  intros st o st' H. unfold Wait in H.
  destruct t as [ch|], (ctx_Done c) as [d|]; try discriminate.
  - destruct (chan_select E ch d (ext st)) as [[[] w]|]; inversion H; reflexivity.
  - destruct (chan_recv E ch (ext st)); inversion H; reflexivity.
  - destruct (chan_recv E d (ext st)); inversion H; reflexivity.
Qed.

Lemma keeps_Start s : keeps_atomics (Start E s).
Proof.
  unfold Start. do 3 (apply keeps_bind; [repeat keeps_step|intros ?]).
  apply keeps_bind; [apply keeps_Wait|]. intros err.
  destruct (notnil err && negb (errors_Is_nilable err ErrTermSig)); repeat keeps_step.
Qed.

Lemma keeps_Stop s : keeps_atomics (Stop E s).
Proof.
  unfold Stop. apply keeps_bind; [auto with keeps|]. intros subs.
  do 3 (apply keeps_bind; [repeat keeps_step|intros ?]).
  apply keeps_bind; [destruct (Service_DB s); repeat keeps_step|intros ?].
  apply keeps_bind; [destruct (Service_Redis s); repeat keeps_step|intros ?].
  auto with keeps.
Qed.

Lemma keeps_alive fuel s areAlive w : keeps_atomics (alive E fuel s areAlive w).
Proof.
  unfold alive. apply keeps_bind.
  - apply keeps_for_range. intros c []. apply keeps_bind.
    + destruct c; simpl; [apply keeps_IsAlive|auto with keeps].
    + intros b. destruct (negb b); auto with keeps.
  - intros [[]|w']; auto with keeps.
Qed.

Lemma keeps_ready areReady w : keeps_atomics (ready (W:=W) areReady w).
Proof.
  unfold ready. apply keeps_bind.
  - apply keeps_for_range. intros [l|] []; [|auto with keeps].
    repeat (apply keeps_bind; [auto with keeps|intros ?]).
    destruct (negb _); auto with keeps.
  - intros [[]|w']; auto with keeps.
Qed.

Lemma keeps_ServeHTTP fuel s r method path w :
  keeps_atomics (ServeHTTP E fuel s r method path w).
Proof.
  unfold ServeHTTP.
  destruct (List.find _ (routes r)) as [rt|].
  - assert (keeps_atomics (run_handler E fuel s (route_handler rt) w)) as Hh.
    { destruct (route_handler rt); simpl;
        [apply keeps_alive|apply keeps_ready|].
      intros st o st' H. inversion H; reflexivity. }
    destruct (bool_decide _); [|exact Hh].
    intros st o st' H. unfold Recoverer in H.
    destruct (run_handler E fuel s (route_handler rt) w st) as [[[a|c|p] st1]|] eqn:H1;
      inversion H; subst; eapply Hh, H1.
  - destruct (existsb _ _); auto with keeps.
Qed.

(** ** Liveness and readiness come back once the listeners accept *)

Lemma total_db_part s :
  total (if notnil (Service_DB s) then
           b ← checkDBAlive s; mret (if negb b then false else true)
         else mret true).
Proof.
  unfold checkDBAlive. destruct (Service_DB s); simpl; repeat total_step.
Qed.

Lemma total_cache_part s :
  total (if notnil (Service_Redis s) then
           b ← checkRedisAlive s; mret (if negb b then false else true)
         else mret true).
Proof.
  unfold checkRedisAlive. destruct (Service_Redis s); simpl; [|apply total_ret].
  apply total_bind; [|intros b; apply total_ret].
  apply total_bind; [apply total_extcall|]. intros [pong err]. repeat total_step.
Qed.

Lemma total_http_part fuel s (g : bool -> bool -> bool) :
  reachable_within E fuel s ->
  forall acc,
    total (for_each (HTTPServers s)
             (fun httpServer acc => up ← checkHTTPServerUp E fuel httpServer;
                                    mret (g up acc)) acc).
Proof.
  unfold reachable_within. generalize (HTTPServers s). intros servers Hup.
  induction servers as [|x xs IH]; intros acc; simpl; [apply total_ret|].
  apply total_bind; [|intros acc'; apply IH; intros srv Hin; apply Hup; right; exact Hin].
  apply total_bind; [|intros up; apply total_ret].
  intros st. destruct (Hup x (list_elem_of_here _ _) (ext st)) as (k & Hk & Hupk).
  destruct (checkHTTPServerUp_up k fuel x st Hupk Hk) as (st' & Hrun & _). eauto.
Qed.

Lemma IsAlive_returns fuel s : reachable_within E fuel s -> total (IsAlive E fuel s).
Proof.
  intros Hup. unfold IsAlive.
  apply total_bind; [apply total_grpc_part|]. intros g.
  apply total_bind; [apply (total_http_part fuel s _ Hup)|]. intros h.
  apply total_bind; [apply total_db_part|]. intros d.
  apply total_bind; [apply total_cache_part|]. intros c.
  apply total_ret.
Qed.

Lemma returns_bind {A B : Type} (m : M W A) (f : A -> M W B) st
    (P : Outcome B * State W -> Prop) :
  total m -> keeps_atomics m ->
  (forall a st1, atomics st1 = atomics st -> exists r, f a st1 = Some r /\ P r) ->
  exists r, (m ≫= f) st = Some r /\ P r.
Proof.
  intros Ht Hk Hf. destruct (Ht st) as (a & st1 & H1).
  rewrite bind_run, H1. apply Hf. eapply Hk, H1.
Qed.

Lemma Ready_returns fuel s st b :
  reachable_within E fuel s -> flag_reads st (isReady s) b ->
  exists r, Ready E fuel s st = Some r /\ exists st', r = (Ret tt, st').
Proof.
  intros Hup (l & Hl & Hcell). unfold Ready.
  apply returns_bind; [apply total_range_map|apply keeps_range_map|]. intros subs st1 K1.
  apply returns_bind;
    [apply total_for_each; intros kv acc;
       apply total_bind; [apply total_extcall|]; intros []; simpl; repeat total_step
    |apply keeps_for_each; intros; repeat keeps_step|].
  intros a st2 K2.
  apply returns_bind; [apply total_grpc_part|apply keeps_grpc_part|]. intros g st3 K3.
  apply returns_bind;
    [apply (total_http_part fuel s _ Hup)|apply keeps_for_each; intros; repeat keeps_step|].
  intros h st4 K4.
  apply returns_bind; [apply total_db_part|apply keeps_db_part|]. intros d st5 K5.
  apply returns_bind; [apply total_cache_part|apply keeps_cache_part|]. intros c st6 K6.
  rewrite bind_run. unfold atomic_Swap. rewrite Hl, K6, K5, K4, K3, K2, K1, Hcell.
  eexists. split; [reflexivity|]. eexists. reflexivity.
Qed.

(** ** What [Ready] stores *)

Lemma bind_returns_inv {A B : Type} (m : M W A) (f : A -> M W B) st b st' :
  (m ≫= f) st = Some (Ret b, st') ->
  exists a st1, m st = Some (Ret a, st1) /\ f a st1 = Some (Ret b, st').
Proof.
  rewrite bind_run. destruct (m st) as [[[a|c|p] st1]|]; try discriminate. eauto.
Qed.

Lemma Ready_stores_and fuel s st st' :
  Ready E fuel s st = Some (Ret tt, st') ->
  exists l x c stc stc',
    isReady s = Some l
    /\ (if notnil (Service_Redis s) then
          b ← checkRedisAlive s; mret (if negb b then false else true)
        else mret true) stc = Some (Ret c, stc')
    /\ atomics st' = <[l := Some (VBool (x && c))]> (atomics st).
Proof.
  intros H. unfold Ready in H.
  apply bind_returns_inv in H as (subs & st1 & H1 & H). apply keeps_range_map in H1.
  apply bind_returns_inv in H as (a & st2 & H2 & H).
  apply keeps_for_each in H2; [|intros; repeat keeps_step].
  apply bind_returns_inv in H as (g & st3 & H3 & H).
  apply keeps_grpc_part in H3.
  apply bind_returns_inv in H as (h & st4 & H4 & H).
  apply keeps_for_each in H4; [|intros; repeat keeps_step].
  apply bind_returns_inv in H as (d & st5 & H5 & H).
  apply keeps_db_part in H5.
  apply bind_returns_inv in H as (c & st6 & H6 & H).
  assert (K6 := keeps_cache_part s _ _ _ H6).
  apply bind_returns_inv in H as (old & st7 & H7 & H). inversion H; subst st7.
  unfold atomic_Swap in H7. destruct (isReady s) as [l|]; [|discriminate].
  exists l, (a && g && h && d), c, st5, st6. split; [reflexivity|]. split; [exact H6|].
  destruct (atomics st6 !! l) as [[[b|ty]|]|]; inversion H7; simpl;
    congruence.
Qed.

Lemma Ready_stores_flag fuel s st st' :
  Ready E fuel s st = Some (Ret tt, st') ->
  exists l v, isReady s = Some l /\ atomics st' = <[l := Some (VBool v)]> (atomics st).
Proof.
  intros H. apply Ready_stores_and in H as (l & x & c & _ & _ & Hl & _ & Hst). eauto.
Qed.

(** ** The goroutines [Start] launches *)

Lemma goroutines_snoc (t : list Event) e :
  goroutines (t ++ [e]) = goroutines t ++ match e with EvGo k => [k] | _ => [] end.
Proof. unfold goroutines. rewrite omap_app. simpl. destruct e; reflexivity. Qed.

Lemma for_each_go {A : Type} (xs : list A) (f : A -> Task) : forall st o st',
  for_each xs (fun x (_ : unit) => go (f x)) tt st = Some (o, st') ->
  o = Ret tt /\ ext st' = ext st
  /\ goroutines (trace st') = goroutines (trace st) ++ map f xs.
Proof.
  induction xs as [|x xs IH]; intros st o st' H; simpl in H.
  - inversion H; subst. rewrite app_nil_r. auto.
  - rewrite bind_run in H. simpl in H. apply IH in H as (-> & Hx & Ht).
    split; [reflexivity|]. split; [exact Hx|].
    rewrite Ht. simpl. rewrite goroutines_snoc, <- app_assoc. reflexivity.
Qed.

Lemma Wait_goroutines t (c : context_Context W) st o st' :
  Wait E t c st = Some (o, st') -> goroutines (trace st') = goroutines (trace st).
Proof.
  intros H. unfold Wait in H.
  destruct t as [ch|], (ctx_Done c) as [d|]; try discriminate.
  - destruct (chan_select E ch d (ext st)) as [[[] w]|]; inversion H; subst; simpl; auto.
    rewrite goroutines_snoc. apply app_nil_r.
  - destruct (chan_recv E ch (ext st)); inversion H; reflexivity.
  - destruct (chan_recv E d (ext st)); inversion H; subst; simpl.
    rewrite goroutines_snoc. apply app_nil_r.
Qed.

Lemma Start_goroutines s st o st' :
  Start E s st = Some (o, st') ->
  goroutines (trace st') = goroutines (trace st) ++ listener_tasks s ++ [TaskReady].
Proof.
  intros H. unfold Start in H. rewrite bind_run in H.
  destruct (for_each (HTTPServers s) _ tt st) as [[o1 st1]|] eqn:H1; [|discriminate].
  apply for_each_go in H1 as (-> & Hx1 & Ht1).
  rewrite bind_run in H.
  destruct (for_each (GRPCServers s) _ tt st1) as [[o2 st2]|] eqn:H2; [|discriminate].
  apply for_each_go in H2 as (-> & Hx2 & Ht2).
  rewrite bind_run in H; simpl in H. rewrite bind_run in H.
  destruct (Wait E (sigHandler s) (GetContext s) _) as [[[err|c|p] st3]|] eqn:H3;
    try discriminate.
  - apply Wait_goroutines in H3. simpl in H3. rewrite goroutines_snoc in H3.
    assert (goroutines (trace st') = goroutines (trace st3)) as ->.
    { destruct (notnil err && negb (errors_Is_nilable err ErrTermSig));
        inversion H; subst; simpl; rewrite goroutines_snoc; apply app_nil_r. }
    rewrite H3, Ht2, Ht1. unfold listener_tasks. rewrite <- !app_assoc. reflexivity.
  - unfold Wait in H3.
    destruct (sigHandler s), (ctx_Done (GetContext s)); try discriminate;
      repeat match type of H3 with
             | context [match ?x with _ => _ end] => destruct x; try discriminate
             end.
  - unfold Wait in H3.
    destruct (sigHandler s), (ctx_Done (GetContext s)); try discriminate;
      repeat match type of H3 with
             | context [match ?x with _ => _ end] => destruct x; try discriminate
             end.
Qed.



(** ** Shutdown *)

Lemma performs_ret {A : Type} (a : A) : performs (mret a : M W A) [].
Proof. intros st. eexists _, _. split; [reflexivity|]. symmetry. apply app_nil_r. Qed.

Lemma performs_bind {A B : Type} (m : M W A) (f : A -> M W B) e1 e2 :
  performs m e1 -> (forall a, performs (f a) e2) -> performs (m ≫= f) (e1 ++ e2).
Proof.
  intros Hm Hf st. destruct (Hm st) as (a & st1 & H1 & T1).
  destruct (Hf a st1) as (b & st2 & H2 & T2).
  exists b, st2. rewrite bind_run, H1. split; [exact H2|].
  rewrite T2, T1, app_assoc. reflexivity.
Qed.

Lemma performs_bind_exit {A B : Type} (m : M W A) (f : A -> M W B) code e1 e2 :
  performs m e1 -> (forall a, exits (f a) code e2) -> exits (m ≫= f) code (e1 ++ e2).
Proof.
  intros Hm Hf st. destruct (Hm st) as (a & st1 & H1 & T1).
  destruct (Hf a st1) as (st2 & H2 & T2).
  exists st2. rewrite bind_run, H1. split; [exact H2|].
  rewrite T2, T1, app_assoc. reflexivity.
Qed.

Lemma exits_os_Exit {A : Type} code : exits (@os_Exit W A code) code [].
Proof. intros st. eexists. split; [reflexivity|]. symmetry. apply app_nil_r. Qed.

Lemma performs_extcall {A : Type} c (f : W -> A * W) : performs (extcall c f) [EvCall c].
Proof. intros st. eexists _, _. split; [reflexivity|]. simpl. apply calls_snoc. Qed.

Lemma performs_logf l f a : performs (logf (W:=W) l f a) [].
Proof.
  intros st. eexists _, _. split; [reflexivity|]. simpl. rewrite calls_snoc. reflexivity.
Qed.

Lemma performs_when_logf (b : bool) l f a : performs (when b (logf (W:=W) l f a)) [].
Proof. destruct b; [apply performs_logf|apply performs_ret]. Qed.

Lemma performs_for_each {A : Type} (xs : list A) (body : A -> unit -> M W unit)
    (c : A -> Event) :
  (forall x acc, performs (body x acc) [c x]) ->
  forall acc, performs (for_each xs body acc) (map c xs).
Proof.
  intros Hb. induction xs as [|x xs IH]; intros acc; simpl.
  - apply performs_ret.
  - apply (performs_bind _ _ [c x] (map c xs)); [apply Hb|exact IH].
Qed.

Lemma Stop_after_range s subs : exits
  (for_each subs
    (fun kv (_ : unit) =>
       err ← extcall (CallSubClose (fst kv)) (SubService_Close (snd kv));
       when (notnil err)
         (logf LvlError "failed to stop service service %s"
            [ArgString (SubService_Name (snd kv))]);;
       logf LvlDebug "subservice stopped subservice %s"
         [ArgString (SubService_Name (snd kv))])
    tt;;
  for_each (GRPCServers s)
    (fun grpcServer (_ : unit) =>
       extcall (CallGracefulStop (address grpcServer))
         (fun w => (tt, grpc_Server_GracefulStop E grpcServer w));;
       logf LvlDebug "grpc server stopped" [])
    tt;;
  for_each (HTTPServers s)
    (fun httpServer (_ : unit) =>
       err ← extcall (CallShutdown (Addr httpServer))
               (http_Server_Shutdown E httpServer (ctx s));
       when (notnil err)
         (logf LvlError "failed to shutdown http server %s" [ArgString (Addr httpServer)]);;
       logf LvlDebug "http server stopped" [])
    tt;;
  match Service_DB s with
  | Some db =>
      err ← extcall CallDBClose (DB_Close db);
      when (notnil err) (logf LvlError "failed to close connection to db" []);;
      logf LvlDebug "db stopped" []
  | None => mret tt
  end;;
  match Service_Redis s with
  | Some redis =>
      err ← extcall CallRedisClose (Redis_Close redis);
      when (notnil err) (logf LvlError "failed to close connection to redis" []);;
      logf LvlDebug "redis stopped" []
  | None => mret tt
  end;;
  @os_Exit W unit 1) 1 (teardown_calls s subs).
Proof.
  unfold teardown_calls.
  apply performs_bind_exit.
  { apply (performs_for_each subs _ (fun kv => EvCall (CallSubClose (fst kv)))).
    intros kv acc.
    apply (performs_bind _ _ [_] []); [apply performs_extcall|]. intros err.
    apply (performs_bind _ _ [] []); [apply performs_when_logf|]. intros _.
    apply performs_logf. }
  intros _. apply performs_bind_exit.
  { apply (performs_for_each _ _ (fun srv => EvCall (CallGracefulStop (address srv)))).
    intros srv acc.
    apply (performs_bind _ _ [_] []); [apply performs_extcall|]. intros _.
    apply performs_logf. }
  intros _. apply performs_bind_exit.
  { apply (performs_for_each _ _ (fun srv => EvCall (CallShutdown (Addr srv)))).
    intros srv acc.
    apply (performs_bind _ _ [_] []); [apply performs_extcall|]. intros err.
    apply (performs_bind _ _ [] []); [apply performs_when_logf|]. intros _.
    apply performs_logf. }
  intros _. apply performs_bind_exit.
  { destruct (Service_DB s); simpl; [|apply performs_ret].
    apply (performs_bind _ _ [_] []); [apply performs_extcall|]. intros err.
    apply (performs_bind _ _ [] []); [apply performs_when_logf|]. intros _.
    apply performs_logf. }
  intros _. rewrite <- (app_nil_r (if notnil (Service_Redis s) then _ else _)).
  apply performs_bind_exit; [|intros _; apply exits_os_Exit].
  destruct (Service_Redis s); simpl; [|apply performs_ret].
  apply (performs_bind _ _ [_] []); [apply performs_extcall|]. intros err.
  apply (performs_bind _ _ [] []); [apply performs_when_logf|]. intros _.
  apply performs_logf.
Qed.


(** ** Construction *)

Lemma for_range_app {A S T : Type} (xs ys : list A) (body : A -> S -> M W (S + T)) :
  forall acc st,
    for_range (xs ++ ys) body acc st =
    (r ← for_range xs body acc;
     match r with
     | inl acc' => for_range ys body acc'
     | inr v => mret (inr v)
     end) st.
Proof.
  induction xs as [|x xs IH]; intros acc st; simpl.
  - reflexivity.
  - rewrite !bind_run. destruct (body x acc st) as [[[[acc'|v]|c|p] st1]|]; try reflexivity.
    rewrite IH. reflexivity.
Qed.

Lemma New_run (ctx : context_Context W) name options st :
  New ctx name options st =
  (r ← apply_options options (initial_service ctx name st);
   match r with
   | inl s' => mret (Some s', None)
   | inr v => mret v
   end) (initial_state st).
Proof.
  unfold New. rewrite bind_run. simpl. rewrite bind_run.
  unfold atomic_Store. simpl. rewrite lookup_insert_eq. simpl.
  rewrite insert_insert_eq. reflexivity.
Qed.

(** The loop leaves early only with a nil orchestrator and an error. *)
Lemma apply_options_early options : forall s st v st',
  apply_options options s st = Some (Ret (inr v), st') -> exists e, v = (None, Some e).
Proof.
  unfold apply_options.
  induction options as [|o options IH]; intros s st v st' H; simpl in H.
  - inversion H.
  - rewrite bind_run in H. rewrite bind_run in H.
    destruct (Apply o s st) as [[[[[e|] s1]|c|p] st1]|]; simpl in H; try discriminate.
    + inversion H; eauto.
    + eapply IH, H.
Qed.

Lemma New_success_inv (ctx : context_Context W) name options st s1 st1 :
  New ctx name options st = Some (Ret (Some s1, None), st1) ->
  apply_options options (initial_service ctx name st) (initial_state st)
  = Some (Ret (inl s1), st1).
Proof.
  rewrite New_run, bind_run.
  destruct (apply_options options _ _) as [[[[s'|v]|c|p] st']|] eqn:H; try discriminate.
  - intros H'; inversion H'; reflexivity.
  - destruct (apply_options_early _ _ _ _ _ H) as [e ->]. discriminate.
Qed.

Lemma New_extend (ctx : context_Context W) name pre o st s1 st1 s2 st2 :
  New ctx name pre st = Some (Ret (Some s1, None), st1) ->
  Apply o s1 st1 = Some (Ret (None, s2), st2) ->
  New ctx name (pre ++ [o]) st = Some (Ret (Some s2, None), st2).
Proof.
  intros Hpre Ho. apply New_success_inv in Hpre.
  rewrite New_run, bind_run. unfold apply_options in *.
  rewrite for_range_app, bind_run, Hpre. simpl. rewrite !bind_run, Ho. reflexivity.
Qed.

Lemma New_abort (ctx : context_Context W) name pre o post st s1 st1 e s2 st2 :
  New ctx name pre st = Some (Ret (Some s1, None), st1) ->
  Apply o s1 st1 = Some (Ret (Some e, s2), st2) ->
  New ctx name (pre ++ o :: post) st = Some (Ret (None, Some e), st2).
Proof.
  intros Hpre Ho. apply New_success_inv in Hpre.
  rewrite New_run, bind_run. unfold apply_options in *.
  rewrite for_range_app, bind_run, Hpre. simpl. rewrite !bind_run, Ho. reflexivity.
Qed.

Lemma New_result_shape (ctx : context_Context W) name options st r e st' :
  New ctx name options st = Some (Ret (r, e), st') ->
  (r = None /\ e <> None) \/ (r <> None /\ e = None).
Proof.
  rewrite New_run, bind_run.
  destruct (apply_options options _ _) as [[[[s'|v]|c|p] st1]|] eqn:H; try discriminate.
  - intros H'; inversion H'. right. split; congruence.
  - destruct (apply_options_early _ _ _ _ _ H) as [e' ->].
    intros H'; inversion H'. left. split; congruence.
Qed.

(** C6.  [New] applies its options strictly in call order, each to the
    orchestrator the previous ones left: with no option it returns the
    initial orchestrator, and one more option that succeeds is applied after
    all those before it.  When an option's [Apply] returns an error,
    construction stops at that option: the options after it are not applied,
    the error is returned to the caller and the orchestrator returned is
    nil.  [New] never returns both or neither of an orchestrator and an
    error. *)
Theorem New_applies_in_order_and_aborts (ctx : context_Context W) name st :
  New ctx name [] st
  = Some (Ret (Some (initial_service ctx name st), None), initial_state st)
  /\ (forall pre o s1 st1 s2 st2,
        New ctx name pre st = Some (Ret (Some s1, None), st1) ->
        Apply o s1 st1 = Some (Ret (None, s2), st2) ->
        New ctx name (pre ++ [o]) st = Some (Ret (Some s2, None), st2))
  /\ (forall pre o post s1 st1 e s2 st2,
        New ctx name pre st = Some (Ret (Some s1, None), st1) ->
        Apply o s1 st1 = Some (Ret (Some e, s2), st2) ->
        New ctx name (pre ++ o :: post) st = Some (Ret (None, Some e), st2))
  /\ (forall options r e st',
        New ctx name options st = Some (Ret (r, e), st') ->
        (r = None /\ e <> None) \/ (r <> None /\ e = None)).
Proof.
  split; [|split; [|split]].
  - rewrite New_run. reflexivity.
  - intros pre o s1 st1 s2 st2. apply New_extend.
  - intros pre o post s1 st1 e s2 st2. apply New_abort.
  - intros options r e st'. apply New_result_shape.
Qed.

Lemma Apply_recognized (o : Option W) s st :
  recognized o = true -> exists s', Apply o s st = Some (Ret (None, s'), st).
Proof. destruct o; simpl; intros H; try discriminate; eexists; reflexivity. Qed.

Lemma apply_options_recognized (options : list (Option W)) : forall s st,
  forallb recognized options = true ->
  exists s', apply_options options s st = Some (Ret (inl s'), st).
Proof.
  unfold apply_options.
  induction options as [|o options IH]; intros s st H; simpl in *.
  - eexists; reflexivity.
  - apply andb_prop in H as [Ho H].
    destruct (Apply_recognized o s st Ho) as [s1 H1].
    rewrite !bind_run, H1. simpl. apply IH, H.
Qed.

(** C10.  The [Apply] of each option of options.go ([WithGRPCServer],
    [WithTechHTTPServerOption], [WithDB], [WithRedis]) returns a nil error,
    for every input; so [New], called with any combination of these options
    only, returns an orchestrator and no error. *)
Theorem recognized_options_never_fail (ctx : context_Context W) name :
  (forall address s st, exists s',
      Apply (WithGRPCServer address) s st = Some (Ret (None, s'), st))
  /\ (forall address s st, exists s',
        Apply (WithTechHTTPServerOption address) s st = Some (Ret (None, s'), st))
  /\ (forall db s st, exists s', Apply (WithDB db) s st = Some (Ret (None, s'), st))
  /\ (forall redis s st, exists s', Apply (WithRedis redis) s st = Some (Ret (None, s'), st))
  /\ (forall options st,
        forallb recognized options = true ->
        exists s st', New ctx name options st = Some (Ret (Some s, None), st')).
Proof.
  split; [|split; [|split; [|split]]];
    try (intros; apply Apply_recognized; reflexivity).
  intros options st H.
  destruct (apply_options_recognized options (initial_service ctx name st)
              (initial_state st) H) as [s' Hs].
  exists s', (initial_state st). rewrite New_run, bind_run, Hs. reflexivity.
Qed.

(** ** [Start] and the signal trap *)

Lemma Wait_same_world t (c : context_Context W) st1 st2 :
  ext st1 = ext st2 -> same_result same_world (Wait E t c st1) (Wait E t c st2).
Proof.
  intros Hx. unfold Wait, extcall, same_world. simpl. rewrite Hx.
  destruct t as [ch|], (ctx_Done c) as [d|]; simpl; auto.
  - destruct (chan_select E ch d (ext st2)) as [[[] w]|]; simpl; auto.
  - destruct (chan_recv E ch (ext st2)); simpl; auto.
  - destruct (chan_recv E d (ext st2)); simpl; auto.
Qed.

(** [Start] is its wait on the trap, run once the goroutines are launched. *)
Lemma Start_run s st :
  exists st0, ext st0 = ext st /\
    Start E s st =
    (err ← Wait E (sigHandler s) (GetContext s);
     if notnil err && negb (errors_Is_nilable err ErrTermSig) then
       logf LvlError "failed to caught signal" [ArgLogErr err];; mret err
     else logf LvlInfo "termination signal received" [];; mret None) st0.
Proof.
  unfold Start.
  destruct (total_for_each (HTTPServers s)
              (fun httpServ (_ : unit) => go (TaskServeHTTP (Addr httpServ)))
              (fun x acc => total_go _) tt st) as (a1 & st1 & H1).
  destruct (total_for_each (GRPCServers s)
              (fun grpcServer (_ : unit) => go (TaskServeGRPC (address grpcServer)))
              (fun x acc => total_go _) tt st1) as (a2 & st2 & H2).
  exists (emit (EvGo TaskReady) st2). split.
  - simpl. apply for_each_go in H1 as (_ & Hx1 & _). apply for_each_go in H2 as (_ & Hx2 & _).
    congruence.
  - rewrite bind_run, H1, bind_run, H2. reflexivity.
Qed.

Lemma Start_after_Wait s st err st1 :
  Wait E (sigHandler s) (ctx s) st = Some (Ret err, st1) ->
  exists st',
    Start E s st
    = Some (Ret (if notnil err && negb (errors_Is_nilable err ErrTermSig)
                 then err else None), st').
Proof.
  intros HW. destruct (Start_run s st) as (st0 & Hx & ->).
  assert (HS := Wait_same_world (sigHandler s) (ctx s) st0 st Hx).
  rewrite HW in HS. unfold GetContext. rewrite bind_run.
  destruct (Wait E (sigHandler s) (ctx s) st0) as [[o st0']|]; [|contradiction].
  destruct HS as [-> _].
  destruct (notnil err && negb (errors_Is_nilable err ErrTermSig));
    eexists; reflexivity.
Qed.

Lemma Start_blocked s st :
  Wait E (sigHandler s) (ctx s) st = None -> Start E s st = None.
Proof.
  intros HW. destruct (Start_run s st) as (st0 & Hx & ->).
  assert (HS := Wait_same_world (sigHandler s) (ctx s) st0 st Hx).
  rewrite HW in HS. unfold GetContext. rewrite bind_run.
  destruct (Wait E (sigHandler s) (ctx s) st0) as [[o st0']|]; [contradiction|reflexivity].
Qed.

Lemma Wait_result t (c : context_Context W) st o st' :
  Wait E t c st = Some (o, st') ->
  o = Ret (Some ErrTermSig) \/ exists w, o = Ret (fst (ctx_Err c w)).
Proof.
  unfold Wait, extcall. intros H.
  destruct t as [ch|], (ctx_Done c) as [d|]; try discriminate.
  - destruct (chan_select E ch d (ext st)) as [[[] w]|]; inversion H; eauto.
  - destruct (chan_recv E ch (ext st)); inversion H; eauto.
  - destruct (chan_recv E d (ext st)); inversion H; eauto.
Qed.


(** ** The liveness and readiness handlers *)

Lemma json_Marshal_payload code :
  json_Marshal {| ErrorCode := code; ErrorDetails := "error during request processing" |}
  = (payload code, None).
Proof.
  unfold json_Marshal, payload. cbn [ErrorCode ErrorDetails].
  generalize (pretty code). intros p. reflexivity.
Qed.

Lemma payload_503_eq : payload 503 = payload_503.
Proof. vm_compute. reflexivity. Qed.

Lemma AnswerWithJSONError_fresh w code :
  fresh_writer w ->
  status_of (AnswerWithJSONError w code) = Some code
  /\ rw_body (AnswerWithJSONError w code) = payload code
  /\ rw_header (AnswerWithJSONError w code) !! "Content-Type" = Some "application/json".
Proof.
  intros (Hsent & Hbody & Hpeer).
  unfold AnswerWithJSONError. rewrite json_Marshal_payload. cbn [fst snd notnil].
  unfold ResponseWriter_Write, WriteHeader, Header_Set, status_of.
  cbn [rw_sent rw_header rw_body rw_peer_gone]. rewrite Hsent.
  cbn [rw_sent rw_header rw_body rw_peer_gone]. rewrite Hpeer.
  cbn [fst snd notnil rw_sent rw_header rw_body rw_peer_gone]. rewrite Hbody.
  repeat split. apply lookup_insert_eq.
Qed.

Lemma WriteHeader_fresh w code :
  fresh_writer w ->
  status_of (WriteHeader code w) = Some code /\ rw_body (WriteHeader code w) = "".
Proof.
  intros (Hsent & Hbody & Hpeer). unfold WriteHeader, status_of. rewrite Hsent. simpl. auto.
Qed.

Lemma alive_succeeds fuel self cs w st st' :
  all_pass E fuel self cs st st' ->
  alive E fuel self cs w st = Some (Ret (WriteHeader http_StatusOK w), st').
Proof.
  unfold alive. induction 1 as [st|c cs st st1 st' Hc _ IH]; [reflexivity|].
  rewrite bind_run in IH |- *. simpl. rewrite !bind_run, Hc. simpl. exact IH.
Qed.

Lemma alive_fails fuel self pre c post w st st1 st2 :
  all_pass E fuel self pre st st1 ->
  run_checker E fuel self c st1 = Some (Ret false, st2) ->
  alive E fuel self (pre ++ c :: post) w st
  = Some (Ret (AnswerWithJSONError w http_StatusServiceUnavailable), st2).
Proof.
  unfold alive. intros Hpre Hc. induction Hpre as [st|c' cs st st1 st' Hc' _ IH].
  - simpl. rewrite !bind_run, Hc. reflexivity.
  - specialize (IH Hc). rewrite bind_run in IH |- *. simpl. rewrite !bind_run, Hc'.
    simpl. exact IH.
Qed.

Lemma ready_succeeds (flags : list (option loc)) w st :
  (forall p, p ∈ flags -> flag_reads st p true) ->
  ready flags w st = Some (Ret (WriteHeader http_StatusOK w), st).
Proof.
  unfold ready. induction flags as [|p flags IH]; intros H; [reflexivity|].
  destruct (H p) as (l & -> & Hl); [left|].
  rewrite bind_run in IH |- *. simpl. rewrite !bind_run. unfold atomic_Load at 1.
  rewrite Hl. simpl. apply IH. intros q Hq. apply H. right. exact Hq.
Qed.

Lemma ready_fails (pre : list (option loc)) p post w st :
  (forall q, q ∈ pre -> flag_reads st q true) ->
  p = None \/ flag_reads st p false ->
  ready (pre ++ p :: post) w st
  = Some (Ret (AnswerWithJSONError w http_StatusServiceUnavailable), st).
Proof.
  unfold ready. induction pre as [|q pre IH]; intros Hpre Hp.
  - simpl. rewrite !bind_run. destruct Hp as [->|(l & -> & Hl)]; [reflexivity|].
    rewrite bind_run. unfold atomic_Load. rewrite Hl. reflexivity.
  - destruct (Hpre q) as (l & -> & Hl); [left|].
    assert (forall q, q ∈ pre -> flag_reads st q true) as Hpre'
        by (intros q Hq; apply Hpre; right; exact Hq).
    specialize (IH Hpre' Hp). rewrite bind_run in IH |- *. simpl.
    rewrite !bind_run. unfold atomic_Load at 1. rewrite Hl. simpl. exact IH.
Qed.

(** C8.  A failed liveness or readiness query answers with a JSON error
    payload whose code field is the HTTP status and whose details field is
    "error during request processing", the same status being on the status
    line: when a liveness checker answers false, or a readiness flag is
    missing or false, the response is a 503 whose body is, byte for byte,
    the object with [ErrorCode] 503 and those [ErrorDetails].  A successful
    query answers 200 with an empty body. *)
Theorem health_response_contract fuel self w :
  fresh_writer w ->
  (forall code,
     status_of (AnswerWithJSONError w code) = Some code
     /\ rw_body (AnswerWithJSONError w code) = payload code
     /\ rw_header (AnswerWithJSONError w code) !! "Content-Type" = Some "application/json")
  /\ (forall pre c post st st1 st2,
        all_pass E fuel self pre st st1 ->
        run_checker E fuel self c st1 = Some (Ret false, st2) ->
        exists w', alive E fuel self (pre ++ c :: post) w st = Some (Ret w', st2)
                   /\ status_of w' = Some 503 /\ rw_body w' = payload_503)
  /\ (forall cs st st',
        all_pass E fuel self cs st st' ->
        exists w', alive E fuel self cs w st = Some (Ret w', st')
                   /\ status_of w' = Some 200 /\ rw_body w' = "")
  /\ (forall pre p post st,
        (forall q, q ∈ pre -> flag_reads st q true) ->
        p = None \/ flag_reads st p false ->
        exists w', ready (pre ++ p :: post) w st = Some (Ret w', st)
                   /\ status_of w' = Some 503 /\ rw_body w' = payload_503)
  /\ (forall flags st,
        (forall p, p ∈ flags -> flag_reads st p true) ->
        exists w', ready flags w st = Some (Ret w', st)
                   /\ status_of w' = Some 200 /\ rw_body w' = "").
Proof.
  intros Hw.
  destruct (AnswerWithJSONError_fresh w http_StatusServiceUnavailable Hw) as (Hs & Hb & _).
  unfold http_StatusServiceUnavailable in Hs, Hb. rewrite payload_503_eq in Hb.
  destruct (WriteHeader_fresh w http_StatusOK Hw) as (Hs' & Hb').
  split; [intros code; apply AnswerWithJSONError_fresh, Hw|].
  split; [|split; [|split]].
  - intros pre c post st st1 st2 Hpre Hc. eexists. split; [|split; [exact Hs|exact Hb]].
    apply (alive_fails _ _ _ _ _ _ _ _ _ Hpre Hc).
  - intros cs st st' Hcs. eexists. split; [|split; [exact Hs'|exact Hb']].
    apply alive_succeeds, Hcs.
  - intros pre p post st Hpre Hp. eexists. split; [|split; [exact Hs|exact Hb]].
    apply ready_fails; assumption.
  - intros flags st Hflags. eexists. split; [|split; [exact Hs'|exact Hb']].
    apply ready_succeeds, Hflags.
Qed.

(** ** The cache ping *)

Lemma checkRedisAlive_reply s redis st :
  Service_Redis s = Some redis ->
  let r := Redis_Ping redis (ctx s) (ext st) in
  exists st',
    checkRedisAlive s st = Some (Ret (String.eqb (fst (fst r)) "PONG"), st')
    /\ ext st' = snd r
    /\ trace st' = trace st ++ [EvCall CallRedisPing]
         ++ (if notnil (snd (fst r))
             then [EvLog LvlDebug "redis is not ready" [ArgLogErr (snd (fst r))]] else [])
         ++ (if String.eqb (fst (fst r)) "PONG"
             then [EvLog LvlDebug "redis is ready" []] else []).
Proof.
  intros Hr. unfold checkRedisAlive. rewrite Hr. rewrite bind_run. unfold extcall.
  destruct (Redis_Ping redis (ctx s) (ext st)) as [[pong err] w'] eqn:Hping.
  cbn [fst snd]. destruct err as [e|], (String.eqb pong "PONG") eqn:Hpong;
    rewrite !bind_run; simpl; rewrite ?Hpong; simpl;
    eexists; (split; [reflexivity|]); simpl; rewrite <- ?app_assoc; auto.
Qed.

Lemma last_term_apart (G H D C : M W bool) st :
  (g ← G; h ← H; d ← D;
   c ← (b ← C; mret (if negb b then false else true));
   mret (g && h && d && c)) st
  = (x ← (g ← G; h ← H; d ← D; c ← mret true; mret (g && h && d && c));
     c ← C; mret (x && c)) st.
Proof.
  rewrite !bind_run. destruct (G st) as [[[g|?|?] st1]|]; try reflexivity.
  rewrite !bind_run. destruct (H st1) as [[[h|?|?] st2]|]; try reflexivity.
  rewrite !bind_run. destruct (D st2) as [[[d|?|?] st3]|]; try reflexivity.
  rewrite !bind_run. simpl. rewrite ?bind_run.
  destruct (C st3) as [[[c|?|?] st4]|]; try reflexivity.
  simpl. rewrite andb_true_r. destruct c; reflexivity.
Qed.

Lemma IsAlive_cache_last fuel s redis st :
  Service_Redis s = Some redis ->
  IsAlive E fuel s st
  = (x ← IsAlive E fuel (set_Redis None s); c ← checkRedisAlive s; mret (x && c)) st.
Proof.
  intros Hr. unfold IsAlive. rewrite Hr. cbn [notnil].
  change (Service_Redis (set_Redis None s)) with (@None (Redis W)).
  cbn [notnil]. apply last_term_apart.
Qed.


(** ** The readiness flag before its evaluation *)

Lemma keeps_Apply (o : Option W) s : keeps_atomics (Apply o s).
Proof. destruct o; simpl; auto with keeps. Qed.

Lemma keeps_apply_options (options : list (Option W)) s :
  keeps_atomics (apply_options options s).
Proof.
  unfold apply_options. apply keeps_for_range. intros o acc.
  apply keeps_bind; [apply keeps_Apply|]. intros a. destruct (fst a); auto with keeps.
Qed.

Lemma New_flag_false (ctx : context_Context W) name options st s st1 :
  New ctx name options st = Some (Ret (Some s, None), st1) ->
  atomics st1 !! fresh (dom (atomics st)) = Some (Some (VBool false)).
Proof.
  intros H. apply New_success_inv in H. apply keeps_apply_options in H.
  rewrite H. simpl. apply lookup_insert_eq.
Qed.

Lemma Apply_wired l (o : Option W) s st a st' :
  recognized o = true -> wired l s ->
  Apply o s st = Some (Ret a, st') -> fst a = None /\ wired l (snd a).
Proof.
  intros Ho [Hl Hsrv] H. destruct o; simpl in H; try discriminate; inversion H; subst;
    simpl; (split; [reflexivity|]); split; simpl; auto.
  apply Forall_app. split; [exact Hsrv|]. constructor; [|constructor].
  simpl. rewrite Hl. reflexivity.
Qed.

Lemma apply_options_wired l (options : list (Option W)) : forall s st s' st',
  forallb recognized options = true -> wired l s ->
  apply_options options s st = Some (Ret (inl s'), st') -> wired l s'.
Proof.
  unfold apply_options.
  induction options as [|o options IH]; intros s st s' st' Hrec Hw H; simpl in *.
  - inversion H; subst. exact Hw.
  - apply andb_prop in Hrec as [Ho Hrec]. rewrite !bind_run in H.
    destruct (Apply o s st) as [[[a|?|?] st1]|] eqn:Ha; try discriminate.
    destruct (Apply_wired l o s st a st1 Ho Hw Ha) as [Hnone Hw1].
    rewrite Hnone in H. simpl in H. eapply IH; eauto.
Qed.

Lemma New_wired (ctx : context_Context W) name options st s st1 :
  forallb recognized options = true ->
  New ctx name options st = Some (Ret (Some s, None), st1) ->
  wired (fresh (dom (atomics st))) s.
Proof.
  intros Hrec H. apply New_success_inv in H.
  eapply apply_options_wired; [exact Hrec| |exact H].
  split; [reflexivity|constructor].
Qed.

Lemma other_steps_keep_atomics s st1 st2 :
  rtc (other_step E s) st1 st2 -> atomics st2 = atomics st1.
Proof.
  induction 1 as [|st1 st2 st3 Hstep _ IH]; [reflexivity|].
  rewrite IH. destruct Hstep as [fuel st o st' H|fuel r method path w st o st' H
                                 |st o st' H|st o st' H|st w].
  - eapply keeps_IsAlive, H.
  - eapply keeps_ServeHTTP, H.
  - eapply keeps_Start, H.
  - eapply keeps_Stop, H.
  - reflexivity.
Qed.

Lemma tech_router_not_ready fuel s l path w st :
  atomics st !! l = Some (Some (VBool false)) ->
  path = "/ready" \/ path = "/health/ready" ->
  ServeHTTP E fuel s (tech_router (Some l)) "GET" path w st
  = Some (Ret (AnswerWithJSONError w http_StatusServiceUnavailable), st).
Proof.
  intros Hl Hpath.
  assert (ready [Some l] w st
          = Some (Ret (AnswerWithJSONError w http_StatusServiceUnavailable), st)) as Hr.
  { apply (ready_fails [] (Some l) [] w st).
    - intros q Hq. inversion Hq.
    - right. exists l. auto. }
  destruct Hpath as [->| ->]; unfold ServeHTTP; simpl; unfold Recoverer; rewrite Hr;
    reflexivity.
Qed.

Lemma Apply_keeps_trap (o : Option W) s st a st' :
  recognized o = true -> Apply o s st = Some (Ret a, st') ->
  sigHandler (snd a) = sigHandler s.
Proof.
  intros Ho H. destruct o; simpl in H; try discriminate; inversion H; reflexivity.
Qed.

(** [New] never installs a signal trap: with the options of options.go the
    orchestrator it returns has a nil [sigHandler], so that only the context
    can end the wait of [Start]. *)
Lemma New_leaves_trap_unset (ctx : context_Context W) name options st s st1 :
  forallb recognized options = true ->
  New ctx name options st = Some (Ret (Some s, None), st1) ->
  sigHandler s = None.
Proof.
  intros Hrec H. apply New_success_inv in H. revert H.
  assert (sigHandler (initial_service ctx name st) = None) as H0 by reflexivity.
  revert H0. generalize (initial_service ctx name st) (initial_state st).
  unfold apply_options.
  induction options as [|o options IH]; intros s0 st0 H0 H; simpl in *.
  - inversion H; subst. exact H0.
  - apply andb_prop in Hrec as [Ho Hrec]. rewrite !bind_run in H.
    destruct (Apply o s0 st0) as [[[a|?|?] st2]|] eqn:Ha; try discriminate.
    destruct (Apply_recognized o s0 st0 Ho) as [s' Hs']. rewrite Hs' in Ha.
    inversion Ha; subst. simpl in H.
    eapply IH; [exact Hrec| |exact H].
    rewrite <- H0. apply (Apply_keeps_trap o s0 st2 (None, s') st2 Ho Hs').
Qed.


End Properties.

(** * The properties at work on the test doubles *)

Section Instances.
Import Doubles.

Lemma refusing_env_refuses addr bad : refuses (env None bad) addr.
Proof. intros w. reflexivity. Qed.

(** C4, counterexample.  At an address that never accepts, the check does
    not report failure after some bound: it gives no answer at all, however
    many dials it is allowed; and where it answers, after two refused dials,
    the answer is true. *)
Lemma checkHTTPServerUp_has_no_bound :
  ~ (exists fuel r, checkHTTPServerUp (env None "") fuel (plain_server ":8081") state0 = Some r)
  /\ up_after (env (Some 2%nat) "") 0 ":8081" world0 = false
  /\ fst <$> checkHTTPServerUp (env (Some 2%nat) "") 3 (plain_server ":8081") state0
     = Some (Ret true).
Proof.
  split; [|split; reflexivity].
  intros (fuel & r & H).
  rewrite checkHTTPServerUp_never in H; [discriminate|].
  apply refuses_never_up, refusing_env_refuses.
Qed.

Lemma checkHTTPServerUp_retries_until_up_witness :
  up_after (env (Some 2%nat) "") 2 ":8081" (ext state0) = true
  /\ (2 < 5)%nat
  /\ exists st',
       returns (checkHTTPServerUp (env (Some 2%nat) "") 5 (plain_server ":8081"))
         state0 true st'
       /\ dial_count (trace st') = (dial_count (trace state0) + 3)%nat.
Proof.
  split; [reflexivity|]. split; [repeat constructor|].
  apply (proj1 (proj1 (proj2 (checkHTTPServerUp_retries_until_up
                                (env (Some 2%nat) "") (plain_server ":8081") state0))
                 2%nat 5%nat eq_refl)).
  repeat constructor.
Defined.



(** A database that goes down between two liveness queries turns the answer
    from true to false. *)
Example IsAlive_follows_the_database :
  fst <$> IsAlive (env None "") 1 (set_DB (Some db) bare) state0 = Some (Ret true)
  /\ fst <$> IsAlive (env None "") 1 (set_DB (Some db) bare) state_db_down
     = Some (Ret false).
Proof. split; reflexivity. Qed.



(** [Stop] on an orchestrator whose sub-service and database fail to close:
    every step still runs, the failures go to the log, and the process
    exits with status 1. *)
Example Stop_goes_on_after_failures :
  (fun r => (fst r, trace (snd r)))
    <$> Stop (env None "")
          (set_SubServices {[ "worker" := sub "worker" true (Some refused) ]}
             (set_Redis (Some cache)
                (set_DB (Some db)
                   (set_GRPCServers [{| address := ":8080"; server := grpc_NewServer |}]
                      one_listener))))
          state0
  = Some (Exit 1,
          [EvCall (CallSubClose "worker");
           EvLog LvlError "failed to stop service service %s" [ArgString "worker"];
           EvLog LvlDebug "subservice stopped subservice %s" [ArgString "worker"];
           EvCall (CallGracefulStop ":8080");
           EvLog LvlDebug "grpc server stopped" [];
           EvCall (CallShutdown ":8081");
           EvLog LvlDebug "http server stopped" [];
           EvCall CallDBClose;
           EvLog LvlError "failed to close connection to db" [];
           EvLog LvlDebug "db stopped" [];
           EvCall CallRedisClose;
           EvLog LvlDebug "redis stopped" []]).
Proof. vm_compute. reflexivity. Qed.

(** An orchestrator built by [New] has no trap: with a context that cannot
    be cancelled its [Start] never returns. *)
Example Start_of_built_never_returns : Start (env None "") built_service built_state = None.
Proof. vm_compute. reflexivity. Qed.

Lemma built_is_New :
  New background "test" main_options state0
  = Some (Ret (Some built_service, None), built_state).
Proof. vm_compute. reflexivity. Qed.


Lemma New_applies_in_order_and_aborts_witness :
  New background "test" [WithGRPCServer ":8080"] state0
  = Some (Ret (Some (set_GRPCServers [{| address := ":8080"; server := grpc_NewServer |}]
                       (initial_service background "test" state0)), None),
          initial_state state0)
  /\ New background "test"
       ([WithGRPCServer ":8080"] ++ failing_option :: [WithTechHTTPServerOption ":5051"])
       state0
     = Some (Ret (None, Some (ErrorString "bad option")),
             emit (EvCall CallOptionApply) (initial_state state0)).
Proof.
  assert (New background "test" [WithGRPCServer ":8080"] state0
          = Some (Ret (Some (set_GRPCServers
                               [{| address := ":8080"; server := grpc_NewServer |}]
                               (initial_service background "test" state0)), None),
                  initial_state state0)) as Hpre.
  { apply (proj1 (proj2 (New_applies_in_order_and_aborts background "test" state0))
             [] (WithGRPCServer ":8080") (initial_service background "test" state0)
             (initial_state state0)).
    - apply (proj1 (New_applies_in_order_and_aborts background "test" state0)).
    - reflexivity. }
  split; [exact Hpre|].
  apply (proj1 (proj2 (proj2 (New_applies_in_order_and_aborts background "test" state0)))
           [WithGRPCServer ":8080"] failing_option [WithTechHTTPServerOption ":5051"]
           _ _ (ErrorString "bad option")
           (set_GRPCServers [{| address := ":8080"; server := grpc_NewServer |}]
              (initial_service background "test" state0))
           _ Hpre).
  reflexivity.
Defined.


Lemma health_response_contract_witness :
  fresh_writer NewRecorder
  /\ exists w',
       alive (env None "") 1 bare ([] ++ never_alive :: []) NewRecorder state0
       = Some (Ret w', emit (EvCall CallChecker) state0)
       /\ status_of w' = Some 503 /\ rw_body w' = payload_503.
Proof.
  assert (fresh_writer NewRecorder) as Hw by (repeat split).
  split; [exact Hw|].
  apply (proj1 (proj2 (health_response_contract (env None "") 1 bare NewRecorder Hw))
           [] never_alive [] state0 state0).
  - constructor.
  - reflexivity.
Defined.


Lemma recognized_options_never_fail_witness :
  forallb recognized main_options = true
  /\ exists s st', New background "test" main_options state0 = Some (Ret (Some s, None), st').
Proof.
  split; [reflexivity|].
  apply (proj2 (proj2 (proj2 (proj2 (recognized_options_never_fail
                                       (W:=World) background "test"))))
           main_options state0).
  reflexivity.
Defined.

End Instances.

(** * More properties of the package *)

Section MoreProperties.
Context {W : Type} (E : Env W).

Implicit Types (st : State W) (s : Service W).

(** ** Late registration of a gRPC service *)

Lemma AddGRPCService_loop_miss serverName description s (l : list GRPCServer) :
  Forall (fun srv => address srv <> serverName) l ->
  forall i st,
    for_range l
      (fun grpcServer (i : nat) =>
         if String.eqb (address grpcServer) serverName then
           srv ← grpc_Server_RegisterService description (server grpcServer);
           logf LvlDebug "GRPC service registered. service - %s, server - %s"
             [ArgString (ServiceName description); ArgString serverName];;
           mret (inr (@None Error,
                      set_GRPCServers
                        (<[i := {| address := address grpcServer; server := srv |}]>
                           (GRPCServers s)) s))
         else mret (inl (S i)))
      i st
    = Some (Ret (inl (i + length l)%nat), st).
Proof.
  induction 1 as [|x l Hx _ IH]; intros i st; simpl.
  - rewrite Nat.add_0_r. reflexivity.
  - apply String.eqb_neq in Hx. rewrite Hx, bind_run. simpl.
    rewrite IH, Nat.add_succ_r. reflexivity.
Qed.

Lemma AddGRPCService_miss serverName description s st :
  Forall (fun srv => address srv <> serverName) (GRPCServers s) ->
  AddGRPCService (W:=W) serverName description s st
  = Some (Ret (Some (ErrorString "gRPC server not found"), s), st).
Proof.
  intros H. unfold AddGRPCService. rewrite bind_run.
  rewrite (AddGRPCService_loop_miss _ _ _ _ H). reflexivity.
Qed.

(** X1.  [AddGRPCService] for an address no configured gRPC server has (in
    particular when no server is configured at all) returns the error "gRPC
    server not found" and changes nothing: the orchestrator is as it was,
    nothing is registered, called or logged. *)
Theorem AddGRPCService_not_found serverName description s st :
  Forall (fun srv => address srv <> serverName) (GRPCServers s) ->
  AddGRPCService (W:=W) serverName description s st
  = Some (Ret (Some (ErrorString "gRPC server not found"), s), st).
Proof. apply AddGRPCService_miss. Qed.

Lemma AddGRPCService_hit serverName description s pre srv post st :
  GRPCServers s = pre ++ srv :: post ->
  Forall (fun x => address x <> serverName) pre ->
  address srv = serverName ->
  ServiceName description ∉ registered (server srv) ->
  AddGRPCService (W:=W) serverName description s st
  = Some (Ret (None,
               set_GRPCServers
                 (pre ++ {| address := serverName;
                            server := {| registered := registered (server srv)
                                                       ++ [ServiceName description] |} |}
                      :: post) s),
          emit (EvLog LvlDebug "GRPC service registered. service - %s, server - %s"
                  [ArgString (ServiceName description); ArgString serverName]) st).
Proof.
  intros HL Hpre Hsrv Hnew. unfold AddGRPCService. rewrite bind_run.
  rewrite HL at 1. rewrite for_range_app, bind_run.
  rewrite (AddGRPCService_loop_miss _ _ _ _ Hpre). simpl.
  rewrite Hsrv, String.eqb_refl. rewrite !bind_run.
  unfold grpc_Server_RegisterService. rewrite bool_decide_eq_false_2 by exact Hnew.
  simpl. rewrite HL.
  replace (<[length pre := _]> (pre ++ srv :: post))
    with (pre ++ {| address := serverName;
                    server := {| registered := registered (server srv)
                                               ++ [ServiceName description] |} |}
              :: post); [reflexivity|].
  symmetry. rewrite <- (Nat.add_0_r (length pre)). rewrite insert_app_r. reflexivity.
Qed.

(** X2.  [AddGRPCService] registers the service on the first server bound
    to the address, and on that one only: the servers before and after it
    are untouched, also a later server with the very same address.  It
    returns nil and logs one line. *)
Theorem AddGRPCService_first_match serverName description s pre srv post st :
  GRPCServers s = pre ++ srv :: post ->
  Forall (fun x => address x <> serverName) pre ->
  address srv = serverName ->
  ServiceName description ∉ registered (server srv) ->
  AddGRPCService (W:=W) serverName description s st
  = Some (Ret (None,
               set_GRPCServers
                 (pre ++ {| address := serverName;
                            server := {| registered := registered (server srv)
                                                       ++ [ServiceName description] |} |}
                      :: post) s),
          emit (EvLog LvlDebug "GRPC service registered. service - %s, server - %s"
                  [ArgString (ServiceName description); ArgString serverName]) st).
Proof. apply AddGRPCService_hit. Qed.

(** ** What the options add up to *)

Lemma configured_by_nil s : configured_by [] s s.
Proof.
  unfold configured_by, grpc_addresses, tech_addresses. simpl. rewrite !app_nil_r.
  repeat split; auto.
Qed.

Lemma Apply_configures (o : Option W) s st :
  recognized o = true ->
  exists s', Apply o s st = Some (Ret (None, s'), st) /\ configured_by [o] s s'.
Proof.
  destruct o; simpl; intros H; try discriminate; eexists; (split; [reflexivity|]);
    unfold configured_by, grpc_addresses, tech_addresses; simpl;
    rewrite ?map_app, ?app_nil_r; simpl; repeat split; auto.
  intros Hall. apply Forall_app. split; [exact Hall|]. repeat constructor.
Qed.

Lemma configured_by_cons o options s s1 s2 :
  configured_by [o] s s1 -> configured_by options s1 s2 -> configured_by (o :: options) s s2.
Proof.
  unfold configured_by, grpc_addresses, tech_addresses, last_db, last_redis.
  intros (G1 & R1 & H1 & D1 & C1 & N1 & X1 & F1 & E1 & S1 & T1)
         (G2 & R2 & H2 & D2 & C2 & N2 & X2 & F2 & E2 & S2 & T2).
  simpl in *. rewrite G2, G1, H2, H1, D2, D1, C2, C1.
  repeat split; try congruence; auto.
  - rewrite <- app_assoc. f_equal. destruct o; reflexivity.
  - rewrite <- app_assoc. f_equal. destruct o; reflexivity.
Qed.

Lemma apply_options_configures (options : list (Option W)) : forall s st,
  forallb recognized options = true ->
  exists s', apply_options options s st = Some (Ret (inl s'), st)
             /\ configured_by options s s'.
Proof.
  unfold apply_options.
  induction options as [|o options IH]; intros s st H; simpl in *.
  - exists s. split; [reflexivity|apply configured_by_nil].
  - apply andb_prop in H as [Ho H].
    destruct (Apply_configures o s st Ho) as (s1 & H1 & C1).
    destruct (IH s1 st H) as (s2 & H2 & C2).
    exists s2. rewrite !bind_run, H1. simpl. split; [exact H2|].
    eapply configured_by_cons; eauto.
Qed.

Lemma New_summary (c : context_Context W) name options st :
  forallb recognized options = true ->
  exists s st1,
    New c name options st = Some (Ret (Some s, None), st1)
    /\ map address (GRPCServers s) = grpc_addresses options
    /\ Forall (fun x => registered (server x) = []) (GRPCServers s)
    /\ map Addr (HTTPServers s) = tech_addresses options
    /\ Service_DB s = last_db options None
    /\ Service_Redis s = last_redis options None
    /\ Name s = name /\ ctx s = c
    /\ SubServices s = ∅ /\ sigHandler s = None
    /\ ext st1 = ext st /\ trace st1 = trace st.
Proof.
  intros H.
  destruct (apply_options_configures options (initial_service c name st)
              (initial_state st) H)
    as (s & Hs & G & R & Hh & D & C & N & X & F & Ec & S & T).
  exists s, (initial_state st). rewrite New_run, bind_run, Hs.
  split; [reflexivity|]. simpl in *.
  repeat split; auto.
Qed.

(** X3.  With the options of options.go [New] always succeeds, and what it
    builds is the sum of its options: the gRPC and status listeners in the
    order they were asked for, nothing registered on the gRPC servers, the
    database and cache handles of the last [WithDB] and [WithRedis] (a later
    one replaces an earlier one), the name and context given, no
    sub-service and no signal trap.  Construction touches nothing outside:
    the world and the trace are as before, no socket is dialled or bound. *)
Theorem New_adds_up (c : context_Context W) name options st :
  forallb recognized options = true ->
  exists s st1,
    New c name options st = Some (Ret (Some s, None), st1)
    /\ map address (GRPCServers s) = grpc_addresses options
    /\ Forall (fun x => registered (server x) = []) (GRPCServers s)
    /\ map Addr (HTTPServers s) = tech_addresses options
    /\ Service_DB s = last_db options None
    /\ Service_Redis s = last_redis options None
    /\ Name s = name /\ ctx s = c
    /\ SubServices s = ∅ /\ sigHandler s = None
    /\ ext st1 = ext st /\ trace st1 = trace st.
Proof. apply New_summary. Qed.

Lemma first_with_address (a : string) (l : list GRPCServer) :
  In a (map address l) ->
  exists pre srv post,
    l = pre ++ srv :: post /\ Forall (fun x => address x <> a) pre /\ address srv = a.
Proof.
  induction l as [|x l IH]; simpl; [contradiction|]. intros H.
  destruct (decide (address x = a)) as [Heq|Hne].
  - exists [], x, l. repeat split; auto.
  - destruct H as [H|H]; [contradiction|].
    destruct (IH H) as (pre & srv & post & -> & Hpre & Hsrv).
    exists (x :: pre), srv, post. repeat split; auto.
Qed.

Lemma not_in_addresses (a : string) (l : list GRPCServer) :
  ~ In a (map address l) -> Forall (fun x => address x <> a) l.
Proof.
  intros H. apply Forall_forall. intros x Hx Heq. apply H.
  apply in_map_iff. exists x. split; [exact Heq|]. apply list_elem_of_In, Hx.
Qed.

(** X4.  On an orchestrator built by [New] from options of options.go,
    [AddGRPCService] finds exactly the addresses given to [WithGRPCServer]:
    for such an address it returns nil, keeping the listeners and their
    order, and for any other address it returns "gRPC server not found" and
    leaves the orchestrator as it is. *)
Theorem AddGRPCService_after_New (c : context_Context W) name options st s st1
    serverName description st' :
  forallb recognized options = true ->
  New c name options st = Some (Ret (Some s, None), st1) ->
  (serverName ∈ grpc_addresses options ->
     exists s' st2,
       AddGRPCService serverName description s st' = Some (Ret (None, s'), st2)
       /\ map address (GRPCServers s') = map address (GRPCServers s))
  /\ (serverName ∉ grpc_addresses options ->
        AddGRPCService serverName description s st'
        = Some (Ret (Some (ErrorString "gRPC server not found"), s), st')).
Proof.
  intros Hrec HNew.
  destruct (New_summary c name options st Hrec) as (s0 & st0 & H0 & G & R & _).
  rewrite HNew in H0. inversion H0; subst s0 st0. clear H0.
  rewrite <- G. split; intros Hin.
  - apply list_elem_of_In, first_with_address in Hin
      as (pre & srv & post & HL & Hpre & Hsrv).
    assert (registered (server srv) = []) as Hreg.
    { rewrite HL in R. apply Forall_app in R as [_ R]. inversion R; auto. }
    eexists _, _. split.
    + apply (AddGRPCService_hit serverName description s pre srv post st' HL Hpre Hsrv).
      rewrite Hreg. apply not_elem_of_nil.
    + simpl. rewrite HL, !map_app. simpl. rewrite Hsrv. reflexivity.
  - apply AddGRPCService_miss, not_in_addresses.
    intros H. apply Hin, list_elem_of_In, H.
Qed.

(** ** One flag per orchestrator *)

(** X5.  Two orchestrators built by [New], one after the other, never share
    a readiness flag, and the readiness evaluation of the second leaves the
    flag of the first as it is. *)
Theorem flags_are_not_shared (c1 c2 : context_Context W) n1 n2 o1 o2 st st1 st1' st2 s1 s2 :
  forallb recognized o1 = true -> forallb recognized o2 = true ->
  New c1 n1 o1 st = Some (Ret (Some s1, None), st1) ->
  dom (atomics st1) ⊆ dom (atomics st1') ->
  New c2 n2 o2 st1' = Some (Ret (Some s2, None), st2) ->
  isReady s1 <> isReady s2
  /\ forall fuel st3 st4 l1,
       Ready E fuel s2 st3 = Some (Ret tt, st4) ->
       isReady s1 = Some l1 ->
       atomics st4 !! l1 = atomics st3 !! l1.
Proof.
  intros R1 R2 H1 Hsub H2.
  destruct (New_wired _ _ _ _ _ _ R1 H1) as [Hl1 _].
  destruct (New_wired _ _ _ _ _ _ R2 H2) as [Hl2 _].
  assert (fresh (dom (atomics st)) ∈ dom (atomics st1')) as Hin.
  { apply Hsub, elem_of_dom. rewrite (New_flag_false _ _ _ _ _ _ H1). eauto. }
  assert (fresh (dom (atomics st)) <> fresh (dom (atomics st1'))) as Hne.
  { intros Heq. rewrite Heq in Hin. exact (is_fresh _ Hin). }
  split; [rewrite Hl1, Hl2; congruence|].
  intros fuel st3 st4 l1 HR Hs1.
  apply Ready_stores_flag in HR as (l & v & Hl & ->).
  rewrite Hl1 in Hs1. rewrite Hl2 in Hl. inversion Hs1; inversion Hl; subst.
  apply lookup_insert_ne. congruence.
Qed.

(** ** What liveness never does *)

Lemma only_ret {A : Type} (a : A) : only_returns (mret a : M W A).
Proof. intros st o st' H. inversion H; eauto. Qed.

Lemma only_bind {A B : Type} (m : M W A) (f : A -> M W B) :
  only_returns m -> (forall a, only_returns (f a)) -> only_returns (m ≫= f).
Proof.
  intros Hm Hf st o st' H. rewrite bind_run in H.
  destruct (m st) as [[o1 st1]|] eqn:H1; [|discriminate].
  destruct (Hm _ _ _ H1) as [a ->]. eapply Hf, H.
Qed.

Lemma only_extcall {A : Type} c (f : W -> A * W) : only_returns (extcall c f).
Proof. intros st o st' H. inversion H; eauto. Qed.

Lemma only_logf l f a : only_returns (logf (W:=W) l f a).
Proof. intros st o st' H. inversion H; eauto. Qed.

Lemma only_when (b : bool) l f a : only_returns (when b (logf (W:=W) l f a)).
Proof. destruct b; [apply only_logf|apply only_ret]. Qed.

Lemma only_for_each {A S : Type} (xs : list A) (body : A -> S -> M W S) :
  (forall x acc, only_returns (body x acc)) ->
  forall acc, only_returns (for_each xs body acc).
Proof.
  intros Hb. induction xs as [|x xs IH]; intros acc; simpl.
  - apply only_ret.
  - apply only_bind; [apply Hb|exact IH].
Qed.

Lemma only_for_range {A S T : Type} (xs : list A) (body : A -> S -> M W (S + T)) :
  (forall x acc, only_returns (body x acc)) ->
  forall acc, only_returns (for_range xs body acc).
Proof.
  intros Hb. induction xs as [|x xs IH]; intros acc; simpl.
  - apply only_ret.
  - apply only_bind; [apply Hb|]. intros [acc'|v]; [apply IH|apply only_ret].
Qed.

Lemma only_checkHTTPServerUp fuel (srv : http_Server W) :
  only_returns (checkHTTPServerUp E fuel srv).
Proof.
  intros st o st' H. apply checkHTTPServerUp_only_true in H. eauto.
Qed.

Lemma only_checkGRPCServerUp s : only_returns (checkGRPCServerUp E s).
Proof.
  unfold checkGRPCServerUp. apply only_bind.
  - apply only_for_range. intros server acc. apply only_bind; [apply only_extcall|].
    intros d. destruct (snd d); (apply only_bind; [apply only_logf|intros _; apply only_ret]).
  - intros r. destruct (match r with inl c => (c, true) | inr v => v end) as [conn result].
    apply only_bind; [|intros _; apply only_ret].
    destruct conn; [|apply only_ret].
    apply only_bind; [apply only_extcall|intros _; apply only_ret].
Qed.

Lemma only_grpc_part s lvl msg :
  only_returns (if slice_not_nil (GRPCServers s) then
                  b ← checkGRPCServerUp E s; when (negb b) (logf lvl msg []);; mret b
                else mret true).
Proof.
  destruct (slice_not_nil (GRPCServers s)); [|apply only_ret].
  apply only_bind; [apply only_checkGRPCServerUp|]. intros b.
  apply only_bind; [apply only_when|intros _; apply only_ret].
Qed.

Lemma only_http_part fuel (servers : list (http_Server W)) acc :
  only_returns (for_each servers
                  (fun httpServer acc =>
                     up ← checkHTTPServerUp E fuel httpServer;
                     mret (if negb up then false else acc)) acc).
Proof.
  apply only_for_each. intros srv a.
  apply only_bind; [apply only_checkHTTPServerUp|intros up; apply only_ret].
Qed.

(** The guard [s.DB != nil] keeps [checkDBAlive] from a nil handle. *)
Lemma only_db_part s :
  only_returns (if notnil (Service_DB s) then
                  b ← checkDBAlive s; mret (if negb b then false else true)
                else mret true).
Proof.
  unfold checkDBAlive. destruct (Service_DB s); simpl; [|apply only_ret].
  apply only_bind; [|intros b; apply only_ret].
  apply only_bind; [apply only_extcall|]. intros err.
  apply only_bind; [apply only_when|]. intros _.
  apply only_bind; [apply only_when|intros _; apply only_ret].
Qed.

Lemma only_cache_part s :
  only_returns (if notnil (Service_Redis s) then
                  b ← checkRedisAlive s; mret (if negb b then false else true)
                else mret true).
Proof.
  unfold checkRedisAlive. destruct (Service_Redis s); simpl; [|apply only_ret].
  apply only_bind; [|intros b; apply only_ret].
  apply only_bind; [apply only_extcall|]. intros [pong err].
  apply only_bind; [apply only_when|]. intros _.
  apply only_bind; [apply only_when|intros _; apply only_ret].
Qed.

(** X6.  [IsAlive] never panics and never ends the process, whatever is
    configured and whatever the dependencies answer: the two checks that
    would dereference a nil handle are reached only behind their nil guard.
    The checks it is made of, called on an orchestrator without the handle,
    do panic. *)
Theorem IsAlive_never_panics fuel s :
  only_returns (IsAlive E fuel s)
  /\ (Service_DB s = None -> forall st, checkDBAlive s st = Some (Panic nil_deref, st))
  /\ (Service_Redis s = None ->
      forall st, checkRedisAlive s st = Some (Panic nil_deref, st)).
Proof.
  split; [|split].
  - unfold IsAlive.
    apply only_bind; [apply only_grpc_part|]. intros g.
    apply only_bind; [apply only_http_part|]. intros h.
    apply only_bind; [apply only_db_part|]. intros d.
    apply only_bind; [apply only_cache_part|]. intros c. apply only_ret.
  - intros H st. unfold checkDBAlive. rewrite H. reflexivity.
  - intros H st. unfold checkRedisAlive. rewrite H. reflexivity.
Qed.

(** ** The value of liveness and readiness *)

Ltac frame_step :=
  lazymatch goal with
  | |- keeps_atomics (if ?b then _ else _) => destruct b
  | |- keeps_atomics (_ ≫= _) => apply keeps_bind; [|intros ?]
  | |- keeps_atomics (for_each _ _ _) => apply keeps_for_each; intros ? ?
  | |- keeps_atomics (for_range _ _ _) => apply keeps_for_range; intros ? ?
  | |- _ =>
      first [ apply keeps_ret | apply keeps_extcall | apply keeps_logf | apply keeps_go
            | apply keeps_when; apply keeps_logf | apply keeps_checkHTTPServerUp
            | apply keeps_checkGRPCServerUp | apply keeps_checkDBAlive
            | apply keeps_checkRedisAlive | apply keeps_panic | apply keeps_os_Exit ]
  end.

Lemma IsAlive_value fuel s st b st' :
  IsAlive E fuel s st = Some (Ret b, st') ->
  exists g h d c st1 st2 st3,
    (if slice_not_nil (GRPCServers s) then
       b ← checkGRPCServerUp E s;
       when (negb b) (logf LvlDebug "grpc servers not ready" []);; mret b
     else mret true) st = Some (Ret g, st1)
    /\ for_each (HTTPServers s)
         (fun httpServer acc =>
            up ← checkHTTPServerUp E fuel httpServer;
            mret (if negb up then false else acc)) true st1 = Some (Ret h, st2)
    /\ (if notnil (Service_DB s) then
          b ← checkDBAlive s; mret (if negb b then false else true)
        else mret true) st2 = Some (Ret d, st3)
    /\ (if notnil (Service_Redis s) then
          b ← checkRedisAlive s; mret (if negb b then false else true)
        else mret true) st3 = Some (Ret c, st')
    /\ b = g && h && d && c.
Proof.
  intros H. unfold IsAlive in H.
  apply bind_returns_inv in H as (g & st1 & H1 & H).
  apply bind_returns_inv in H as (h & st2 & H2 & H).
  apply bind_returns_inv in H as (d & st3 & H3 & H).
  apply bind_returns_inv in H as (c & st4 & H4 & H).
  inversion H; subst. exists g, h, d, c, st1, st2, st3. auto.
Qed.

Lemma Ready_value fuel s st st' :
  Ready E fuel s st = Some (Ret tt, st') ->
  exists l a g d c st0 st1 st2 st3 st4 st5,
    isReady s = Some l
    /\ for_each (map_range E (SubServices s) (ext st))
         (fun kv acc =>
            ok ← extcall (CallSubReady (fst kv)) (SubService_Ready (snd kv));
            acc' ←
              (if negb ok then
                 logf LvlError "subservice not ready subservice %s"
                   [ArgString (SubService_Name (snd kv))];;
                 mret false
               else mret acc);
            logf LvlInfo "subservice is ready subservice %s"
              [ArgString (SubService_Name (snd kv))];;
            mret acc')
         true st = Some (Ret a, st0)
    /\ (if slice_not_nil (GRPCServers s) then
          b ← checkGRPCServerUp E s;
          when (negb b) (logf LvlError "grpc server not ready" []);; mret b
        else mret true) st0 = Some (Ret g, st1)
    /\ (if notnil (Service_DB s) then
          b ← checkDBAlive s; mret (if negb b then false else true)
        else mret true) st2 = Some (Ret d, st3)
    /\ (if notnil (Service_Redis s) then
          b ← checkRedisAlive s; mret (if negb b then false else true)
        else mret true) st4 = Some (Ret c, st5)
    /\ atomics st' = <[l := Some (VBool (a && g && d && c))]> (atomics st).
Proof.
  intros H. unfold Ready in H.
  apply bind_returns_inv in H as (subs & st0' & H0 & H).
  unfold range_map in H0. inversion H0; subst subs st0'. clear H0.
  apply bind_returns_inv in H as (a & st0 & Ha & H).
  assert (atomics st0 = atomics st) as Ka.
  { eapply keeps_for_each; [|exact Ha]. intros. cbv beta. repeat frame_step. }
  apply bind_returns_inv in H as (g & st1 & Hg & H).
  assert (atomics st1 = atomics st0) as Kg by (eapply keeps_grpc_part, Hg).
  apply bind_returns_inv in H as (h & st2 & Hh & H).
  assert (atomics st2 = atomics st1) as Kh.
  { eapply keeps_for_each; [|exact Hh]. intros. cbv beta. repeat frame_step. }
  assert (h = true) as ->.
  { assert (Ret h = Ret true) as Heq; [|inversion Heq; reflexivity].
    revert Hh. generalize (HTTPServers s) st1 st2. intros servers.
    assert (forall acc sta stb,
              for_each servers
                (fun httpServer acc => up ← checkHTTPServerUp E fuel httpServer;
                                       mret (if negb up then false else acc)) acc sta
              = Some (Ret h, stb) -> Ret h = Ret acc) as Hloop; [|apply Hloop].
    induction servers as [|x xs IH]; intros acc sta stb Hrun; simpl in Hrun.
    - inversion Hrun; reflexivity.
    - rewrite !bind_run in Hrun.
      destruct (checkHTTPServerUp E fuel x sta) as [[o sx]|] eqn:Hx; [|discriminate].
      rewrite (checkHTTPServerUp_only_true _ _ _ _ _ _ Hx) in Hrun. simpl in Hrun.
      apply IH in Hrun. exact Hrun. }
  apply bind_returns_inv in H as (d & st3 & Hd & H).
  assert (atomics st3 = atomics st2) as Kd by (eapply keeps_db_part, Hd).
  apply bind_returns_inv in H as (c & st4 & Hc & H).
  assert (atomics st4 = atomics st3) as Kc by (eapply keeps_cache_part, Hc).
  apply bind_returns_inv in H as (old & st5 & Hs & H). inversion H; subst st5.
  unfold atomic_Swap in Hs. destruct (isReady s) as [l|]; [|discriminate].
  exists l, a, g, d, c, st0, st1, st2, st3, st3, st4.
  split; [reflexivity|]. do 4 (split; [assumption|]).
  rewrite andb_true_r in Hs.
  destruct (atomics st4 !! l) as [[[b|ty]|]|]; inversion Hs; simpl; congruence.
Qed.

(** ** A dependency that is down *)

Lemma grpc_loop_down (c : context_Context W) (l : list GRPCServer) srv :
  srv ∈ l -> grpc_down E c (address srv) ->
  forall conn st r st',
    for_range l
      (fun server (_ : option grpc_ClientConn) =>
         d ← extcall (CallGRPCDial (address server)) (grpc_DialContext E c (address server));
         match snd d with
         | Some e => logf LvlDebug (Error_Error e) [];; mret (inr (fst d, false))
         | None =>
             logf LvlDebug "grpc server ready %s" [ArgString (address server)];;
             mret (inl (fst d))
         end) conn st = Some (Ret r, st') ->
    exists c', r = inr (c', false).
Proof.
  intros Hin Hdown. induction l as [|x l IH]; intros conn st r st' H; [inversion Hin|].
  simpl in H. rewrite !bind_run in H. simpl in H.
  destruct (snd (fst (grpc_DialContext E c (address x) (ext st)))) as [e|] eqn:He.
  - rewrite bind_run in H. simpl in H. inversion H; eauto.
  - apply elem_of_cons in Hin as [->|Hin].
    + specialize (Hdown (ext st)). rewrite He in Hdown. discriminate.
    + rewrite bind_run in H. simpl in H. eapply IH; eauto.
Qed.

Lemma checkGRPCServerUp_down s srv st b st' :
  srv ∈ GRPCServers s -> grpc_down E (ctx s) (address srv) ->
  checkGRPCServerUp E s st = Some (Ret b, st') -> b = false.
Proof.
  intros Hin Hdown H. unfold checkGRPCServerUp in H.
  apply bind_returns_inv in H as (r & st1 & Hloop & H).
  destruct (grpc_loop_down _ _ _ Hin Hdown _ _ _ _ Hloop) as [c' ->].
  apply bind_returns_inv in H as (u & st2 & _ & H). inversion H; reflexivity.
Qed.

Lemma grpc_part_down s srv lvl msg st g st' :
  srv ∈ GRPCServers s -> grpc_down E (ctx s) (address srv) ->
  (if slice_not_nil (GRPCServers s) then
     b ← checkGRPCServerUp E s; when (negb b) (logf lvl msg []);; mret b
   else mret true) st = Some (Ret g, st') ->
  g = false.
Proof.
  intros Hin Hdown H. destruct (GRPCServers s) as [|x l] eqn:HL; [inversion Hin|].
  simpl in H. rewrite <- HL in Hin.
  apply bind_returns_inv in H as (b & st1 & Hb & H).
  apply (checkGRPCServerUp_down _ _ _ _ _ Hin Hdown) in Hb. subst b.
  simpl in H. rewrite bind_run in H. simpl in H. inversion H; reflexivity.
Qed.

Lemma db_part_down s db st d st' :
  Service_DB s = Some db -> db_down db (ctx s) ->
  (if notnil (Service_DB s) then
     b ← checkDBAlive s; mret (if negb b then false else true)
   else mret true) st = Some (Ret d, st') ->
  d = false.
Proof.
  intros Hdb Hdown H. unfold checkDBAlive in H. rewrite Hdb in H. simpl in H.
  apply bind_returns_inv in H as (b & st1 & Hb & H).
  apply bind_returns_inv in Hb as (err & st2 & Herr & Hb).
  unfold extcall in Herr. inversion Herr; subst err. clear Herr.
  rewrite (Hdown (ext st)) in Hb. simpl in Hb.
  rewrite !bind_run in Hb. simpl in Hb. inversion Hb; subst b.
  inversion H; reflexivity.
Qed.

Lemma cache_part_down s r st c st' :
  Service_Redis s = Some r -> cache_down r (ctx s) ->
  (if notnil (Service_Redis s) then
     b ← checkRedisAlive s; mret (if negb b then false else true)
   else mret true) st = Some (Ret c, st') ->
  c = false.
Proof.
  intros Hr Hdown H. rewrite Hr in H. simpl in H.
  apply bind_returns_inv in H as (b & st1 & Hb & H).
  destruct (checkRedisAlive_reply s r st Hr) as (st2 & Hrun & _).
  rewrite Hrun in Hb. inversion Hb; subst b. rewrite (Hdown (ext st)) in H.
  inversion H; reflexivity.
Qed.


(** ** Sub-services *)

Lemma subservices_loop_down (l : list (string * SubService W)) :
  forall acc st a st',
    (acc = false
     \/ exists kv, kv ∈ l /\ forall w, fst (SubService_Ready (snd kv) w) = false) ->
    for_each l
      (fun kv acc =>
         ok ← extcall (CallSubReady (fst kv)) (SubService_Ready (snd kv));
         acc' ←
           (if negb ok then
              logf LvlError "subservice not ready subservice %s"
                [ArgString (SubService_Name (snd kv))];;
              mret false
            else mret acc);
         logf LvlInfo "subservice is ready subservice %s"
           [ArgString (SubService_Name (snd kv))];;
         mret acc')
      acc st = Some (Ret a, st') ->
    a = false.
Proof.
  induction l as [|x l IH]; intros acc st a st' Hwhy H; simpl in H.
  - inversion H; subst. destruct Hwhy as [->|(kv & Hin & _)]; [reflexivity|inversion Hin].
  - rewrite !bind_run in H. simpl in H.
    destruct (fst (SubService_Ready (snd x) (ext st))) eqn:Hok; simpl in H;
      repeat (rewrite bind_run in H; simpl in H).
    + eapply IH; [|exact H]. destruct Hwhy as [->|(kv & Hin & Hkv)]; [left; reflexivity|].
      apply elem_of_cons in Hin as [->|Hin].
      * rewrite Hkv in Hok. discriminate.
      * right. eauto.
    + eapply IH; [|exact H]. left. reflexivity.
Qed.

(** X8.  A registered sub-service that reports not ready makes every
    readiness evaluation that completes store false.  Liveness does not look
    at sub-services at all: [IsAlive] is the same with and without them. *)
Theorem subservice_not_ready_is_reported fuel s k sub :
  SubServices s !! k = Some sub ->
  (forall w, fst (SubService_Ready sub w) = false) ->
  (forall st st',
     Ready E fuel s st = Some (Ret tt, st') ->
     exists l, isReady s = Some l /\ atomics st' !! l = Some (Some (VBool false)))
  /\ (forall st, IsAlive E fuel s st = IsAlive E fuel (set_SubServices ∅ s) st).
Proof.
  intros Hk Hdown. split; [|reflexivity].
  intros st st' H.
  apply Ready_value in H
    as (l & a & g & d & c & st0 & st1 & st2 & st3 & st4 & st5 & Hl & Ha & _ & _ & _ & ->).
  exists l. split; [exact Hl|]. rewrite lookup_insert_eq. do 3 f_equal.
  assert ((k, sub) ∈ map_range E (SubServices s) (ext st)) as Hin.
  { assert (Hp := map_range_perm E (SubServices s) (ext st)).
    rewrite Hp. apply elem_of_map_to_list, Hk. }
  assert (a = false) as ->; [|reflexivity].
  eapply subservices_loop_down; [|exact Ha].
  right. exists (k, sub). split; [exact Hin|exact Hdown].
Qed.

(** ** Healthy and idle orchestrators *)

Lemma grpc_loop_up (c : context_Context W) (l : list GRPCServer) :
  (forall srv w, srv ∈ l -> snd (fst (grpc_DialContext E c (address srv) w)) = None) ->
  forall conn st r st',
    for_range l
      (fun server (_ : option grpc_ClientConn) =>
         d ← extcall (CallGRPCDial (address server)) (grpc_DialContext E c (address server));
         match snd d with
         | Some e => logf LvlDebug (Error_Error e) [];; mret (inr (fst d, false))
         | None =>
             logf LvlDebug "grpc server ready %s" [ArgString (address server)];;
             mret (inl (fst d))
         end) conn st = Some (Ret r, st') ->
    exists c', r = inl c'.
Proof.
  induction l as [|x l IH]; intros Hup conn st r st' H; simpl in H.
  - inversion H; eauto.
  - rewrite !bind_run in H. simpl in H.
    rewrite (Hup x (ext st) (list_elem_of_here _ _)) in H.
    rewrite bind_run in H. simpl in H. eapply IH; [|exact H].
    intros srv w Hin. apply Hup. right. exact Hin.
Qed.

Lemma grpc_part_up s lvl msg st g st' :
  (forall srv w, srv ∈ GRPCServers s ->
     snd (fst (grpc_DialContext E (ctx s) (address srv) w)) = None) ->
  (if slice_not_nil (GRPCServers s) then
     b ← checkGRPCServerUp E s; when (negb b) (logf lvl msg []);; mret b
   else mret true) st = Some (Ret g, st') ->
  g = true.
Proof.
  intros Hup H. destruct (slice_not_nil (GRPCServers s)); [|inversion H; reflexivity].
  apply bind_returns_inv in H as (b & st1 & Hb & H).
  unfold checkGRPCServerUp in Hb.
  apply bind_returns_inv in Hb as (r & st2 & Hloop & Hb).
  destruct (grpc_loop_up _ _ Hup _ _ _ _ Hloop) as [c' ->].
  apply bind_returns_inv in Hb as (u & st3 & _ & Hb). inversion Hb; subst b.
  simpl in H. inversion H; reflexivity.
Qed.

Lemma db_part_up s st d st' :
  (forall db w, Service_DB s = Some db -> fst (DB_Ping db (ctx s) w) = None) ->
  (if notnil (Service_DB s) then
     b ← checkDBAlive s; mret (if negb b then false else true)
   else mret true) st = Some (Ret d, st') ->
  d = true.
Proof.
  intros Hup H. unfold checkDBAlive in H.
  destruct (Service_DB s) as [db|]; simpl in H; [|inversion H; reflexivity].
  apply bind_returns_inv in H as (b & st1 & Hb & H).
  apply bind_returns_inv in Hb as (err & st2 & Herr & Hb).
  unfold extcall in Herr. inversion Herr; subst err. clear Herr.
  rewrite (Hup db (ext st) eq_refl) in Hb. simpl in Hb.
  rewrite !bind_run in Hb. simpl in Hb. inversion Hb; subst b.
  inversion H; reflexivity.
Qed.

Lemma cache_part_up s st c st' :
  (forall r w, Service_Redis s = Some r ->
     String.eqb (fst (fst (Redis_Ping r (ctx s) w))) "PONG" = true) ->
  (if notnil (Service_Redis s) then
     b ← checkRedisAlive s; mret (if negb b then false else true)
   else mret true) st = Some (Ret c, st') ->
  c = true.
Proof.
  intros Hup H. destruct (Service_Redis s) as [r|] eqn:Hr; simpl in H;
    [|inversion H; reflexivity].
  apply bind_returns_inv in H as (b & st1 & Hb & H).
  destruct (checkRedisAlive_reply s r st Hr) as (st2 & Hrun & _).
  rewrite Hrun in Hb. inversion Hb; subst b. rewrite (Hup r (ext st) eq_refl) in H.
  inversion H; reflexivity.
Qed.

Lemma http_part_keeps_acc fuel (servers : list (http_Server W)) : forall acc st h st',
  for_each servers
    (fun httpServer acc => up ← checkHTTPServerUp E fuel httpServer;
                           mret (if negb up then false else acc)) acc st
  = Some (Ret h, st') -> h = acc.
Proof.
  induction servers as [|x xs IH]; intros acc st h st' H; simpl in H.
  - inversion H; reflexivity.
  - rewrite !bind_run in H.
    destruct (checkHTTPServerUp E fuel x st) as [[o sx]|] eqn:Hx; [|discriminate].
    rewrite (checkHTTPServerUp_only_true _ _ _ _ _ _ Hx) in H. simpl in H.
    apply IH in H. exact H.
Qed.

Lemma subservices_loop_up (l : list (string * SubService W)) : forall acc st st',
  (forall kv, kv ∈ l -> forall w, fst (SubService_Ready (snd kv) w) = true) ->
  for_each l
    (fun kv acc =>
       ok ← extcall (CallSubReady (fst kv)) (SubService_Ready (snd kv));
       acc' ←
         (if negb ok then
            logf LvlError "subservice not ready subservice %s"
              [ArgString (SubService_Name (snd kv))];;
            mret false
          else mret acc);
       logf LvlInfo "subservice is ready subservice %s"
         [ArgString (SubService_Name (snd kv))];;
       mret acc')
    acc st = Some (Ret false, st') ->
  acc = false.
Proof.
  induction l as [|x l IH]; intros acc st st' Hall H; simpl in H.
  - inversion H; reflexivity.
  - rewrite !bind_run in H. simpl in H.
    rewrite (Hall x (list_elem_of_here _ _)) in H. simpl in H.
    repeat (rewrite bind_run in H; simpl in H).
    eapply IH; [|exact H]. intros kv Hin. apply Hall. right. exact Hin.
Qed.

(** X9.  When every HTTP listener accepts within the dials allowed and every
    dependency answers well (each gRPC dial succeeds, the database pings,
    the cache answers "PONG"), [IsAlive] returns true; and if moreover every
    sub-service reports ready, the readiness evaluation completes and stores
    true in the flag. *)
Theorem healthy_is_alive_and_ready fuel s :
  reachable_within E fuel s -> all_healthy E s ->
  (forall st, exists st', IsAlive E fuel s st = Some (Ret true, st'))
  /\ (forall st b,
        flag_reads st (isReady s) b ->
        (forall k sub w, SubServices s !! k = Some sub ->
                         fst (SubService_Ready sub w) = true) ->
        exists st' l, Ready E fuel s st = Some (Ret tt, st')
                      /\ isReady s = Some l
                      /\ atomics st' !! l = Some (Some (VBool true))).
Proof.
  intros Hreach (Hg & Hd & Hc). split.
  - intros st. destruct (IsAlive_returns E fuel s Hreach st) as (b & st' & H).
    exists st'. rewrite H. do 3 f_equal.
    apply IsAlive_value in H as (g & h & d & c & st1 & st2 & st3 & H1 & H2 & H3 & H4 & ->).
    rewrite (grpc_part_up _ _ _ _ _ _ Hg H1), (http_part_keeps_acc _ _ _ _ _ _ H2),
      (db_part_up _ _ _ _ Hd H3), (cache_part_up _ _ _ _ Hc H4). reflexivity.
  - intros st b Hflag Hsubs.
    destruct (Ready_returns E fuel s st b Hreach Hflag) as (r & Hrun & st' & ->).
    exists st'. assert (Hv := Ready_value _ _ _ _ Hrun).
    destruct Hv as (l & a & g & d & c & st0 & st1 & st2 & st3 & st4 & st5
                    & Hl & Ha & H1 & H3 & H4 & Hst).
    exists l. split; [exact Hrun|]. split; [exact Hl|].
    rewrite Hst, lookup_insert_eq. do 3 f_equal.
    rewrite (grpc_part_up _ _ _ _ _ _ Hg H1), (db_part_up _ _ _ _ Hd H3),
      (cache_part_up _ _ _ _ Hc H4).
    destruct a eqn:Hav; [reflexivity|]. exfalso.
    assert (forall kv, kv ∈ map_range E (SubServices s) (ext st) ->
              forall w, fst (SubService_Ready (snd kv) w) = true) as Hall.
    { intros [k sub] Hin w. apply (Hsubs k sub w).
      apply elem_of_map_to_list.
      assert (Hp := map_range_perm E (SubServices s) (ext st)).
      rewrite <- Hp. exact Hin. }
    assert (true = false) as Habs by (eapply subservices_loop_up; [exact Hall|exact Ha]).
    discriminate.
Qed.

(** X10.  On an orchestrator with nothing configured, [IsAlive] answers
    true at once, without a call or a log line and whatever the fuel, and
    the readiness evaluation stores true without making any call. *)
Theorem idle_is_alive_and_ready fuel s st :
  idle s ->
  IsAlive E fuel s st = Some (Ret true, st)
  /\ forall l b,
       isReady s = Some l -> atomics st !! l = Some (Some (VBool b)) ->
       Ready E fuel s st
       = Some (Ret tt, set_atomics (<[l := Some (VBool true)]> (atomics st)) st).
Proof.
  intros (Hsub & Hg & Hh & Hd & Hr). split.
  - unfold IsAlive. rewrite Hg, Hh, Hd, Hr. reflexivity.
  - intros l b Hl Hcell. unfold Ready. rewrite Hg, Hh, Hd, Hr, Hl, Hsub.
    rewrite bind_run. unfold range_map.
    assert (map_range E ∅ (ext st) = []) as ->.
    { apply Permutation_nil_r. rewrite (map_range_perm E ∅ (ext st)).
      rewrite map_to_list_empty. reflexivity. }
    simpl. repeat (first [rewrite ret_run|rewrite bind_run]).
    unfold atomic_Swap. rewrite Hcell. reflexivity.
Qed.

(** ** Connections opened and closed by the checks *)

Lemma count_snoc (p : Event -> bool) (t : list Event) e :
  count p (t ++ [e]) = (count p t + (if p e then 1 else 0))%nat.
Proof.
  unfold count. rewrite List.filter_app, length_app. simpl. destruct (p e); reflexivity.
Qed.

Lemma grpc_loop_counts (c : context_Context W) (l : list GRPCServer) :
  forall conn st r st',
    for_range l
      (fun server (_ : option grpc_ClientConn) =>
         d ← extcall (CallGRPCDial (address server)) (grpc_DialContext E c (address server));
         match snd d with
         | Some e => logf LvlDebug (Error_Error e) [];; mret (inr (fst d, false))
         | None =>
             logf LvlDebug "grpc server ready %s" [ArgString (address server)];;
             mret (inl (fst d))
         end) conn st = Some (Ret r, st') ->
    count is_grpc_close (trace st') = count is_grpc_close (trace st)
    /\ (count is_grpc_dial (trace st') <= count is_grpc_dial (trace st) + length l)%nat
    /\ (forall c', r = inl c' ->
        count is_grpc_dial (trace st') = (count is_grpc_dial (trace st) + length l)%nat)
    /\ (forall c' b', r = inr (c', b') -> b' = false).
Proof.
  induction l as [|x l IH]; intros conn st r st' H; simpl in H.
  - inversion H; subst. simpl. repeat split; intros; try lia; discriminate.
  - rewrite !bind_run in H. simpl in H.
    destruct (snd (fst (grpc_DialContext E c (address x) (ext st)))) as [e|];
      rewrite bind_run in H; simpl in H.
    + inversion H; subst. simpl. rewrite !count_snoc. simpl.
      split; [lia|]. split; [lia|]. split; [intros c' Hc; discriminate|].
      intros c' b' Hr. inversion Hr; reflexivity.
    + apply IH in H as (Hc & Hle & Heq & Hf). simpl in Hc, Hle, Heq.
      rewrite !count_snoc in Hc, Hle, Heq. simpl in Hc, Hle, Heq. simpl.
      split; [lia|]. split; [lia|]. split; [|exact Hf].
      intros c' Hr. specialize (Heq c' Hr). lia.
Qed.

(** X11.  [checkGRPCServerUp] closes at most one connection, however many
    servers it dialled: when all [n] configured servers are reachable it
    has made [n] dials and a single close.  It gives up at the first dial
    that fails: the servers after one that is down are not dialled. *)
Theorem checkGRPCServerUp_closes_one_connection s st b st' :
  checkGRPCServerUp E s st = Some (Ret b, st') ->
  (count is_grpc_close (trace st') <= count is_grpc_close (trace st) + 1)%nat
  /\ (b = true ->
      count is_grpc_dial (trace st')
      = (count is_grpc_dial (trace st) + length (GRPCServers s))%nat)
  /\ (forall pre srv post,
        GRPCServers s = pre ++ srv :: post -> grpc_down E (ctx s) (address srv) ->
        (count is_grpc_dial (trace st') <= count is_grpc_dial (trace st) + length pre + 1)%nat).
Proof.
  intros H. unfold checkGRPCServerUp in H.
  apply bind_returns_inv in H as (r & st1 & Hloop & H).
  destruct (grpc_loop_counts _ _ _ _ _ _ Hloop) as (Hc & Hle & Heq & Hf).
  assert (count is_grpc_close (trace st') <= count is_grpc_close (trace st1) + 1
          /\ count is_grpc_dial (trace st') = count is_grpc_dial (trace st1)
          /\ (b = true -> exists c', r = inl c'))%nat as (Hclose & Hdial & Hb).
  { destruct r as [conn|[conn result]];
      [|rewrite (Hf conn result eq_refl) in *]; destruct conn as [k|];
      repeat (rewrite bind_run in H; simpl in H); inversion H; subst; simpl;
      rewrite ?count_snoc; simpl; repeat split; try lia; eauto;
      intros; discriminate. }
  split; [lia|]. split.
  - intros Hbt. destruct (Hb Hbt) as [c' Hr]. rewrite Hdial. apply (Heq c' Hr).
  - intros pre srv post HL Hdown. rewrite Hdial. unfold GetContext in Hloop.
    rewrite HL, for_range_app in Hloop.
    apply bind_returns_inv in Hloop as (r1 & st2 & Hpre & Hrest).
    destruct (grpc_loop_counts _ _ _ _ _ _ Hpre) as (_ & Hle1 & _ & _).
    destruct r1 as [conn1|v].
    + simpl in Hrest. rewrite !bind_run in Hrest. simpl in Hrest.
      specialize (Hdown (ext st2)).
      destruct (snd (fst (grpc_DialContext E (ctx s) (address srv) (ext st2)))) as [e|];
        [|discriminate].
      rewrite bind_run in Hrest. simpl in Hrest. inversion Hrest; subst. simpl.
      rewrite !count_snoc. simpl. lia.
    + inversion Hrest; subst. lia.
Qed.

Lemma dial_until_up_conn fuel : dial_gives_conn E ->
  forall addr conn err st c st',
    dial_until_up E fuel addr conn err st = Some (Ret c, st') ->
    count is_conn_close (trace st') = count is_conn_close (trace st)
    /\ (notnil err = true -> notnil c = true).
Proof.
  intros Hcontract. induction fuel as [|fuel IH]; intros addr conn err st c st' H.
  - destruct err; simpl in H; [discriminate|]. inversion H; subst.
    split; [reflexivity|discriminate].
  - destruct err as [e|]; simpl in H.
    + rewrite bind_run in H. simpl in H.
      specialize (Hcontract "tcp" addr (1 * time_Second) (ext st)).
      destruct (snd (fst (net_DialTimeout E "tcp" addr (1 * time_Second) (ext st))))
        as [e'|] eqn:He; rewrite bind_run in H; simpl in H.
      * apply IH in H as [Hc Hn]. simpl in Hc. rewrite !count_snoc in Hc. simpl in Hc.
        split; [lia|]. intros _. apply Hn. reflexivity.
      * destruct fuel; simpl in H; inversion H; subst; simpl;
          rewrite count_snoc; simpl; (split; [lia|]); intros _; apply Hcontract;
          reflexivity.
    + inversion H; subst. split; [reflexivity|discriminate].
Qed.

(** X12.  [checkHTTPServerUp] closes the connection it opened: provided a
    dial that reports no error hands out a connection, every check that
    returns has closed exactly one connection, however many dials it took. *)
Theorem checkHTTPServerUp_closes_its_connection fuel (srv : http_Server W) st o st' :
  dial_gives_conn E ->
  checkHTTPServerUp E fuel srv st = Some (o, st') ->
  count is_conn_close (trace st') = (count is_conn_close (trace st) + 1)%nat.
Proof.
  intros Hcontract H. unfold checkHTTPServerUp in H. rewrite bind_run in H.
  destruct (dial_until_up E fuel (Addr srv) None _ st) as [[o1 st1]|] eqn:Hloop;
    [|discriminate].
  destruct (dial_until_up_returns _ _ _ _ _ _ _ _ Hloop) as [c ->].
  destruct (dial_until_up_conn fuel Hcontract _ _ _ _ _ _ Hloop) as [Hc Hn].
  specialize (Hn eq_refl). destruct c as [k|]; [|discriminate].
  repeat (rewrite bind_run in H; simpl in H). inversion H; subst. simpl.
  rewrite !count_snoc. simpl. lia.
Qed.

(** ** Readiness on an orchestrator that [New] did not build *)


(** ** What the readiness evaluation asks the sub-services *)

Lemma sub_only_ready : sub_only is_sub_ready.
Proof.
  split.
  - intros c Hc. destruct c; try reflexivity. exfalso. eapply Hc. reflexivity.
  - reflexivity.
Qed.

Lemma sub_only_line : sub_only is_ready_line.
Proof.
  split; [reflexivity|]. intros l f a Hl. destruct l; try reflexivity. congruence.
Qed.

Section Adds.
Context (p : Event -> bool).

Lemma adds_ret {A : Type} (a : A) : adds p (mret a : M W A) [].
Proof. intros st a' st' H. inversion H; subst. symmetry. apply app_nil_r. Qed.

Lemma adds_bind {A B : Type} (m : M W A) (f : A -> M W B) e1 e2 :
  adds p m e1 -> (forall a, adds p (f a) e2) -> adds p (m ≫= f) (e1 ++ e2).
Proof.
  intros Hm Hf st b st' H. apply bind_returns_inv in H as (a & st1 & H1 & H2).
  rewrite (Hf _ _ _ _ H2), (Hm _ _ _ H1), app_assoc. reflexivity.
Qed.

Lemma adds_extcall {A : Type} c (f : W -> A * W) :
  adds p (extcall c f) (if p (EvCall c) then [EvCall c] else []).
Proof.
  intros st a st' H. inversion H; subst. simpl. rewrite List.filter_app. simpl.
  destruct (p (EvCall c)); reflexivity.
Qed.

Lemma adds_logf l f a :
  adds p (logf (W:=W) l f a) (if p (EvLog l f a) then [EvLog l f a] else []).
Proof.
  intros st u st' H. inversion H; subst. simpl. rewrite List.filter_app. simpl.
  destruct (p (EvLog l f a)); reflexivity.
Qed.

Lemma adds_Swap x v : adds p (atomic_Swap (W:=W) x v) [].
Proof.
  intros st a st' H. unfold atomic_Swap in H.
  destruct x as [l|]; [|discriminate].
  destruct (atomics st !! l) as [[[b|ty]|]|]; inversion H; subst; simpl;
    symmetry; apply app_nil_r.
Qed.

Lemma adds_for_each_nil {A S : Type} (xs : list A) (body : A -> S -> M W S) :
  (forall x acc, adds p (body x acc) []) -> forall acc, adds p (for_each xs body acc) [].
Proof.
  intros Hb. induction xs as [|x xs IH]; intros acc; simpl.
  - apply adds_ret.
  - apply (adds_bind _ _ [] []); [apply Hb|exact IH].
Qed.

Lemma adds_for_range_nil {A S T : Type} (xs : list A) (body : A -> S -> M W (S + T)) :
  (forall x acc, adds p (body x acc) []) -> forall acc, adds p (for_range xs body acc) [].
Proof.
  intros Hb. induction xs as [|x xs IH]; intros acc; simpl.
  - apply adds_ret.
  - apply (adds_bind _ _ [] []); [apply Hb|]. intros [acc'|v]; [apply IH|apply adds_ret].
Qed.

Lemma adds_for_each_one {A S : Type} (xs : list A) (body : A -> S -> M W S)
    (e : A -> Event) :
  (forall x acc, adds p (body x acc) [e x]) ->
  forall acc, adds p (for_each xs body acc) (map e xs).
Proof.
  intros Hb. induction xs as [|x xs IH]; intros acc; simpl.
  - apply adds_ret.
  - apply (adds_bind _ _ [e x] (map e xs)); [apply Hb|exact IH].
Qed.

Context (Hp : sub_only p).

Lemma quiet_extcall {A : Type} c (f : W -> A * W) :
  (forall k, c <> CallSubReady k) -> adds p (extcall c f) [].
Proof. intros Hc. assert (H := adds_extcall c f). rewrite (proj1 Hp c Hc) in H. exact H. Qed.

Lemma quiet_logf l f a : l <> LvlInfo -> adds p (logf (W:=W) l f a) [].
Proof. intros Hl. assert (H := adds_logf l f a). rewrite (proj2 Hp l f a Hl) in H. exact H. Qed.

Lemma quiet_when (b : bool) l f a : l <> LvlInfo -> adds p (when b (logf (W:=W) l f a)) [].
Proof. intros Hl. destruct b; [apply quiet_logf, Hl|apply adds_ret]. Qed.

Ltac quiet_step :=
  lazymatch goal with
  | |- adds _ (if ?b then _ else _) [] => destruct b
  | |- adds _ (_ ≫= _) [] => apply (adds_bind _ _ [] []); [|intros ?]
  | |- adds _ (for_each _ _ _) [] => apply adds_for_each_nil; intros ? ?
  | |- adds _ (for_range _ _ _) [] => apply adds_for_range_nil; intros ? ?
  | |- adds _ (extcall _ _) [] => apply quiet_extcall; intros ?; discriminate
  | |- adds _ (logf _ _ _) [] => apply quiet_logf; discriminate
  | |- adds _ (when _ _) [] => apply quiet_when; discriminate
  | |- adds _ (mret _) [] => apply adds_ret
  end.

Lemma quiet_dial_until_up fuel : forall addr conn err,
  adds p (dial_until_up E fuel addr conn err) [].
Proof.
  induction fuel as [|fuel IH]; intros addr conn [e|]; simpl; try apply adds_ret.
  - intros st a st' H. discriminate.
  - apply (adds_bind _ _ [] []); [quiet_step|]. intros r.
    apply (adds_bind _ _ [] []); [|intros _; apply IH].
    destruct (snd r); quiet_step.
Qed.

Lemma quiet_checkHTTPServerUp fuel (srv : http_Server W) :
  adds p (checkHTTPServerUp E fuel srv) [].
Proof.
  unfold checkHTTPServerUp.
  apply (adds_bind _ _ [] []); [apply quiet_dial_until_up|]. intros conn.
  destruct conn; repeat quiet_step.
Qed.

Lemma quiet_grpc_part s lvl msg :
  lvl <> LvlInfo ->
  adds p (if slice_not_nil (GRPCServers s) then
            b ← checkGRPCServerUp E s; when (negb b) (logf lvl msg []);; mret b
          else mret true) [].
Proof.
  intros Hl. destruct (slice_not_nil (GRPCServers s)); [|apply adds_ret].
  apply (adds_bind _ _ [] []).
  - unfold checkGRPCServerUp. apply (adds_bind _ _ [] []).
    + apply adds_for_range_nil. intros server acc.
      apply (adds_bind _ _ [] []); [quiet_step|]. intros d.
      destruct (snd d); repeat quiet_step.
    + intros r. destruct (match r with inl c => (c, true) | inr v => v end) as [conn result].
      destruct conn; repeat quiet_step.
  - intros b. apply (adds_bind _ _ [] []); [apply quiet_when, Hl|intros _; apply adds_ret].
Qed.

Lemma quiet_db_part s :
  adds p (if notnil (Service_DB s) then
            b ← checkDBAlive s; mret (if negb b then false else true)
          else mret true) [].
Proof.
  unfold checkDBAlive. destruct (Service_DB s); simpl; [|apply adds_ret].
  repeat quiet_step.
Qed.

Lemma quiet_cache_part s :
  adds p (if notnil (Service_Redis s) then
            b ← checkRedisAlive s; mret (if negb b then false else true)
          else mret true) [].
Proof.
  unfold checkRedisAlive. destruct (Service_Redis s); simpl; [|apply adds_ret].
  apply (adds_bind _ _ [] []); [|intros b; apply adds_ret].
  apply (adds_bind _ _ [] []); [quiet_step|]. intros [pong err]. repeat quiet_step.
Qed.

(** After its sub-service loop, the evaluation adds nothing [p] picks. *)
Lemma quiet_Ready_rest fuel s (a : bool) :
  adds p
    (isGRPCReady ←
       (if slice_not_nil (GRPCServers s) then
          b ← checkGRPCServerUp E s;
          when (negb b) (logf LvlError "grpc server not ready" []);; mret b
        else mret true);
     areHTTPServersReady ←
       for_each (HTTPServers s)
         (fun httpServer acc =>
            up ← checkHTTPServerUp E fuel httpServer;
            mret (if negb up then false else acc))
         true;
     isDBReady ←
       (if notnil (Service_DB s) then
          b ← checkDBAlive s; mret (if negb b then false else true)
        else mret true);
     isRedisAlive ←
       (if notnil (Service_Redis s) then
          b ← checkRedisAlive s; mret (if negb b then false else true)
        else mret true);
     atomic_Swap (isReady s)
       (VBool (a && isGRPCReady && areHTTPServersReady && isDBReady && isRedisAlive));;
     mret tt) [].
Proof.
  apply (adds_bind _ _ [] []); [apply quiet_grpc_part; discriminate|]. intros g.
  apply (adds_bind _ _ [] []).
  { apply adds_for_each_nil. intros srv acc.
    apply (adds_bind _ _ [] []); [apply quiet_checkHTTPServerUp|intros up; apply adds_ret]. }
  intros h. apply (adds_bind _ _ [] []); [apply quiet_db_part|]. intros d.
  apply (adds_bind _ _ [] []); [apply quiet_cache_part|]. intros c.
  apply (adds_bind _ _ [] []); [apply adds_Swap|intros _; apply adds_ret].
Qed.

End Adds.

(** X14.  A readiness evaluation that completes has asked every registered
    sub-service exactly once, in the order the runtime hands them out, also
    after one of them reported not ready; and it has logged the line
    "subservice is ready" for each of them, whatever the sub-service
    answered. *)
Theorem Ready_asks_every_subservice fuel s st st' :
  Ready E fuel s st = Some (Ret tt, st') ->
  List.filter is_sub_ready (trace st')
  = List.filter is_sub_ready (trace st)
    ++ map (fun kv => EvCall (CallSubReady (fst kv))) (map_range E (SubServices s) (ext st))
  /\ List.filter is_ready_line (trace st')
     = List.filter is_ready_line (trace st)
       ++ map (fun kv => EvLog LvlInfo "subservice is ready subservice %s"
                           [ArgString (SubService_Name (snd kv))])
              (map_range E (SubServices s) (ext st))
  /\ map_range E (SubServices s) (ext st) ≡ₚ map_to_list (SubServices s).
Proof.
  intros H. unfold Ready in H.
  apply bind_returns_inv in H as (subs & st0 & H0 & H).
  unfold range_map in H0. inversion H0; subst subs st0. clear H0.
  apply bind_returns_inv in H as (a & st1 & Ha & H).
  split; [|split; [|apply map_range_perm]].
  - rewrite (quiet_Ready_rest _ sub_only_ready fuel s a _ _ _ H).
    rewrite app_nil_r.
    eapply (adds_for_each_one is_sub_ready _ _
              (fun kv => EvCall (CallSubReady (fst kv)))); [|exact Ha].
    intros kv acc. cbv beta.
    apply (adds_bind _ _ _ [_] []); [apply (adds_extcall is_sub_ready)|]. intros ok.
    apply (adds_bind _ _ _ [] []).
    + destruct (negb ok); [|apply adds_ret].
      apply (adds_bind _ _ _ [] []);
        [apply (quiet_logf _ sub_only_ready); discriminate|intros _; apply adds_ret].
    + intros acc'. apply (adds_bind _ _ _ [] []); [|intros _; apply adds_ret].
      apply (adds_logf is_sub_ready).
  - rewrite (quiet_Ready_rest _ sub_only_line fuel s a _ _ _ H).
    rewrite app_nil_r.
    eapply (adds_for_each_one is_ready_line _ _
              (fun kv => EvLog LvlInfo "subservice is ready subservice %s"
                           [ArgString (SubService_Name (snd kv))])); [|exact Ha].
    intros kv acc. cbv beta.
    apply (adds_bind _ _ _ [] [_]); [apply (adds_extcall is_ready_line)|]. intros ok.
    apply (adds_bind _ _ _ [] [_]).
    + destruct (negb ok); [|apply adds_ret].
      apply (adds_bind _ _ _ [] []);
        [apply (quiet_logf _ sub_only_line); discriminate|intros _; apply adds_ret].
    + intros acc'. apply (adds_bind _ _ _ [_] []); [|intros _; apply adds_ret].
      apply (adds_logf is_ready_line).
Qed.

(** ** From the evaluation to the routes *)

Lemma tech_router_serves_flag fuel s l (v : bool) path w st :
  atomics st !! l = Some (Some (VBool v)) ->
  path = "/ready" \/ path = "/health/ready" ->
  ServeHTTP E fuel s (tech_router (Some l)) "GET" path w st
  = Some (Ret (if v then WriteHeader http_StatusOK w
               else AnswerWithJSONError w http_StatusServiceUnavailable), st).
Proof.
  intros Hl Hpath. destruct v; [|apply tech_router_not_ready; assumption].
  assert (ready [Some l] w st = Some (Ret (WriteHeader http_StatusOK w), st)) as Hr.
  { apply ready_succeeds. intros p Hp. apply list_elem_of_singleton in Hp as ->.
    exists l. auto. }
  destruct Hpath as [->| ->]; unfold ServeHTTP; simpl; unfold Recoverer; rewrite Hr;
    reflexivity.
Qed.

(** X15.  What a readiness evaluation stores is what the status listeners
    serve: once [Ready] has returned on an orchestrator whose listeners read
    its flag, a GET of [/ready] or [/health/ready] on any of them answers
    200 when the evaluation stored true and the 503 error payload when it
    stored false, without changing anything. *)
Theorem ready_routes_serve_the_evaluation fuel s l st st' :
  wired l s ->
  Ready E fuel s st = Some (Ret tt, st') ->
  exists v : bool,
    atomics st' = <[l := Some (VBool v)]> (atomics st)
    /\ forall fuel' srv path w,
         srv ∈ HTTPServers s ->
         path = "/ready" \/ path = "/health/ready" ->
         ServeHTTP E fuel' s (Handler srv) "GET" path w st'
         = Some (Ret (if v then WriteHeader http_StatusOK w
                      else AnswerWithJSONError w http_StatusServiceUnavailable), st').
Proof.
  intros [Hl Hsrv] H. apply Ready_stores_flag in H as (l' & v & Hl' & Hst).
  assert (l' = l) as -> by congruence.
  exists v. split; [exact Hst|]. intros fuel' srv path w Hin Hpath.
  rewrite Forall_forall in Hsrv. rewrite (Hsrv srv Hin).
  apply tech_router_serves_flag; [|exact Hpath].
  rewrite Hst. apply lookup_insert_eq.
Qed.

Lemma ready_on_unset pre l post w st :
  (forall q, q ∈ pre -> flag_reads st q true) ->
  atomics st !! l = Some None ->
  exists msg, ready (W:=W) (pre ++ Some l :: post) w st = Some (Panic msg, st).
Proof.
  unfold ready. induction pre as [|q pre IH]; intros Hpre Hl.
  - simpl. rewrite !bind_run. unfold atomic_Load. rewrite Hl. simpl. eauto.
  - destruct (Hpre q) as (l' & -> & Hl'); [left|].
    assert (forall q, q ∈ pre -> flag_reads st q true) as Hpre'
        by (intros q Hq; apply Hpre; right; exact Hq).
    destruct (IH Hpre' Hl) as [msg IH']. exists msg.
    rewrite bind_run in IH' |- *. simpl.
    rewrite !bind_run. unfold atomic_Load at 1. rewrite Hl'. simpl. exact IH'.
Qed.

(** X16.  The readiness handler guards against a nil flag but not against
    a flag nothing was stored in: on the first flag whose [atomic.Value] is
    still empty the type assertion panics, nothing being written to the
    response.  Behind the recoverer of a status listener the request is
    then answered 500, whereas a nil flag there is answered with the 503
    error payload. *)
Theorem ready_panics_on_an_empty_flag fuel s pre l post path w st :
  (forall q, q ∈ pre -> flag_reads st q true) ->
  atomics st !! l = Some None ->
  path = "/ready" \/ path = "/health/ready" ->
  (exists msg, ready (W:=W) (pre ++ Some l :: post) w st = Some (Panic msg, st))
  /\ ServeHTTP E fuel s (tech_router (Some l)) "GET" path w st
     = Some (Ret (WriteHeader http_StatusInternalServerError w), st)
  /\ ServeHTTP E fuel s (tech_router None) "GET" path w st
     = Some (Ret (AnswerWithJSONError w http_StatusServiceUnavailable), st).
Proof.
  intros Hpre Hl Hpath. split; [apply ready_on_unset; assumption|].
  destruct (ready_on_unset [] l [] w st) as [msg Hr];
    [intros q Hq; inversion Hq|exact Hl|].
  assert (ready (W:=W) [None] w st
          = Some (Ret (AnswerWithJSONError w http_StatusServiceUnavailable), st)) as Hn.
  { apply (ready_fails [] None [] w st); [intros q Hq; inversion Hq|left; reflexivity]. }
  simpl in Hr.
  split; destruct Hpath as [->| ->]; unfold ServeHTTP; simpl; unfold Recoverer;
    rewrite ?Hr, ?Hn; reflexivity.
Qed.


(** ** What ends the wait of [Start] *)


(** X19.  No option of options.go installs a signal trap and [New] leaves
    the field nil, so the wait of [Start] on an orchestrator that [New]
    built can only be ended by its context: under a context that has no
    [Done] channel, [Start] never returns, from whatever state it is
    called. *)
Theorem Start_needs_a_cancellable_context (c : context_Context W) name options st s st1 :
  forallb recognized options = true ->
  ctx_Done c = None ->
  New c name options st = Some (Ret (Some s, None), st1) ->
  forall st2, Start E s st2 = None.
Proof.
  intros Hrec Hdone HNew st2.
  destruct (New_summary c name options st Hrec)
    as (s0 & st0 & HNew0 & _ & _ & _ & _ & _ & _ & Hctx & _ & Htrap & _).
  rewrite HNew0 in HNew. inversion HNew; subst s0 st0.
  apply Start_blocked. unfold Wait. rewrite Htrap, Hctx, Hdone. reflexivity.
Qed.

(** X20.  The example program never gets past [Start]: it builds its
    orchestrator under [context.Background()] and installs no trap, so
    [main] does not return and the deferred [Stop] never runs, whatever the
    libraries and the world outside do. *)
Theorem main_never_returns st : main E st = None.
Proof.
  unfold main. rewrite bind_run.
  destruct (New_summary context_Background "test"
              [WithGRPCServer ":8080"; WithTechHTTPServerOption ":5051"] st eq_refl)
    as (s & st1 & -> & _ & _ & _ & _ & _ & _ & Hctx & _ & Htrap & _).
  cbn [fst snd notnil]. rewrite bind_run.
  rewrite Start_blocked; [reflexivity|].
  unfold Wait, AddHTTPServer. cbn [sigHandler ctx set_HTTPServers].
  rewrite Htrap, Hctx. reflexivity.
Qed.

(** ** The routes of a status listener *)


(** X22.  The liveness route of a status listener is the liveness query of
    the orchestrator as it is when the request comes in: a GET of
    [/health/live] answers 200 when [IsAlive] answers true and the 503
    error payload when it answers false, leaving the state [IsAlive]
    leaves; and the request is not answered as long as [IsAlive] does not
    answer. *)
Theorem live_route_is_IsAlive fuel s flag w st :
  (forall (b : bool) st',
     IsAlive E fuel s st = Some (Ret b, st') ->
     ServeHTTP E fuel s (tech_router flag) "GET" "/health/live" w st
     = Some (Ret (if b then WriteHeader http_StatusOK w
                  else AnswerWithJSONError w http_StatusServiceUnavailable), st'))
  /\ (IsAlive E fuel s st = None ->
      ServeHTTP E fuel s (tech_router flag) "GET" "/health/live" w st = None).
Proof.
  split.
  - intros b st' H. unfold ServeHTTP. simpl. unfold Recoverer, alive. simpl.
    rewrite !bind_run, H. destruct b; reflexivity.
  - intros H. unfold ServeHTTP. simpl. unfold Recoverer, alive. simpl.
    rewrite !bind_run, H. reflexivity.
Qed.

(** ** Servers added by hand *)


(** ** Registering the same service twice *)

Lemma AddGRPCService_dup serverName description s pre srv post st :
  GRPCServers s = pre ++ srv :: post ->
  Forall (fun x => address x <> serverName) pre ->
  address srv = serverName ->
  ServiceName description ∈ registered (server srv) ->
  AddGRPCService (W:=W) serverName description s st = Some (Exit 1, st).
Proof.
  intros HL Hpre Hsrv Hold. unfold AddGRPCService. rewrite bind_run.
  rewrite HL at 1. rewrite for_range_app, bind_run.
  rewrite (AddGRPCService_loop_miss _ _ _ _ Hpre). simpl.
  rewrite Hsrv, String.eqb_refl. rewrite !bind_run.
  unfold grpc_Server_RegisterService. rewrite bool_decide_eq_true_2 by exact Hold.
  reflexivity.
Qed.

(** X24.  [AddGRPCService] cannot be repeated: once it has registered a
    service on the server of an address, the same call on the orchestrator
    it left ends the process with status 1 (the fatal log of
    [RegisterService] on a duplicate), before anything is logged by the
    package and whatever the state. *)
Theorem AddGRPCService_twice_is_fatal serverName description s st s' st' :
  AddGRPCService (W:=W) serverName description s st = Some (Ret (None, s'), st') ->
  forall st2, AddGRPCService (W:=W) serverName description s' st2 = Some (Exit 1, st2).
Proof.
  intros H st2.
  destruct (in_dec string_dec serverName (map address (GRPCServers s))) as [Hin|Hout].
  - destruct (first_with_address _ _ Hin) as (pre & srv & post & HL & Hpre & Hsrv).
    destruct (decide (ServiceName description ∈ registered (server srv))) as [Hold|Hnew].
    + rewrite (AddGRPCService_dup _ _ _ _ _ _ _ HL Hpre Hsrv Hold) in H. discriminate.
    + rewrite (AddGRPCService_hit _ _ _ _ _ _ _ HL Hpre Hsrv Hnew) in H.
      inversion H; subst s' st'.
      eapply AddGRPCService_dup; [reflexivity|exact Hpre|reflexivity|].
      cbn [server registered]. apply elem_of_app. right. left.
  - rewrite (AddGRPCService_miss _ _ _ _ (not_in_addresses _ _ Hout)) in H. discriminate.
Qed.

(** ** Liveness and the sub-services *)

Lemma quiet_IsAlive p fuel s : sub_only p -> adds p (IsAlive E fuel s) [].
Proof.
  intros Hp. unfold IsAlive.
  apply (adds_bind _ _ _ [] []); [apply quiet_grpc_part; [exact Hp|discriminate]|].
  intros g. apply (adds_bind _ _ _ [] []).
  { apply adds_for_each_nil. intros srv acc.
    apply (adds_bind _ _ _ [] []);
      [apply quiet_checkHTTPServerUp, Hp|intros up; apply adds_ret]. }
  intros h. apply (adds_bind _ _ _ [] []); [apply quiet_db_part, Hp|]. intros d.
  apply (adds_bind _ _ _ [] []); [apply quiet_cache_part, Hp|]. intros c.
  apply adds_ret.
Qed.

(** X25.  Liveness ignores the sub-services: [IsAlive] never calls a
    sub-service's [Ready()], and its outcome is the same whatever
    sub-services are registered.  Only the readiness evaluation asks
    them. *)
Theorem IsAlive_ignores_subservices fuel s st :
  (forall subs, IsAlive E fuel (set_SubServices subs s) st = IsAlive E fuel s st)
  /\ (forall b st',
        IsAlive E fuel s st = Some (Ret b, st') ->
        List.filter is_sub_ready (trace st') = List.filter is_sub_ready (trace st)).
Proof.
  split; [reflexivity|]. intros b st' H.
  rewrite (quiet_IsAlive is_sub_ready fuel s sub_only_ready _ _ _ H).
  apply app_nil_r.
Qed.

End MoreProperties.

(** * More of the properties at work on the test doubles *)

Section MoreInstances.
Import Doubles MoreDoubles.

Lemma AddGRPCService_not_found_witness :
  Forall (fun srv => address srv <> ":9090") (GRPCServers three_grpc)
  /\ AddGRPCService ":9090" greeter three_grpc state0
     = Some (Ret (Some (ErrorString "gRPC server not found"), three_grpc), state0).
Proof.
  assert (Forall (fun srv => address srv <> ":9090") (GRPCServers three_grpc)) as H
      by (repeat constructor; discriminate).
  split; [exact H|].
  exact (AddGRPCService_not_found ":9090" greeter three_grpc state0 H).
Defined.

Lemma AddGRPCService_first_match_witness :
  GRPCServers three_grpc = [grpc_at ":7070"] ++ grpc_at ":8080" :: [grpc_at ":8080"]
  /\ fst <$> AddGRPCService ":8080" greeter three_grpc state0
     = Some (Ret (None,
                  set_GRPCServers
                    [grpc_at ":7070";
                     {| address := ":8080";
                        server := {| registered := ["helloworld.Greeter"] |} |};
                     grpc_at ":8080"] three_grpc)).
Proof.
  split; [reflexivity|].
  rewrite (AddGRPCService_first_match ":8080" greeter three_grpc
             [grpc_at ":7070"] (grpc_at ":8080") [grpc_at ":8080"] state0).
  - reflexivity.
  - reflexivity.
  - repeat constructor; discriminate.
  - reflexivity.
  - intros H. inversion H.
Defined.

Lemma New_adds_up_witness :
  forallb recognized main_options = true
  /\ exists s st1,
       New background "test" main_options state0 = Some (Ret (Some s, None), st1)
       /\ map address (GRPCServers s) = [":8080"]
       /\ map Addr (HTTPServers s) = [":5051"]
       /\ sigHandler s = None
       /\ trace st1 = [].
Proof.
  split; [reflexivity|].
  destruct (New_adds_up background "test" main_options state0 eq_refl)
    as (s & st1 & HNew & Hg & _ & Hh & _ & _ & _ & _ & _ & Ht & _ & Htr).
  exists s, st1. repeat split; assumption.
Defined.

Lemma AddGRPCService_after_New_witness :
  forallb recognized main_options = true
  /\ ":8080" ∈ grpc_addresses main_options
  /\ (":9090" ∉ grpc_addresses main_options)
  /\ (exists s' st2,
        AddGRPCService ":8080" greeter built_service built_state = Some (Ret (None, s'), st2)
        /\ map address (GRPCServers s') = map address (GRPCServers built_service))
  /\ AddGRPCService ":9090" greeter built_service built_state
     = Some (Ret (Some (ErrorString "gRPC server not found"), built_service), built_state).
Proof.
  assert (":8080" ∈ grpc_addresses main_options) as Hin by left.
  assert (":9090" ∉ grpc_addresses main_options) as Hout.
  { intros H. apply list_elem_of_singleton in H. discriminate. }
  split; [reflexivity|]. split; [exact Hin|]. split; [exact Hout|]. split.
  - exact (proj1 (AddGRPCService_after_New background "test" main_options state0
                    built_service built_state ":8080" greeter built_state
                    eq_refl built_is_New) Hin).
  - exact (proj2 (AddGRPCService_after_New background "test" main_options state0
                    built_service built_state ":9090" greeter built_state
                    eq_refl built_is_New) Hout).
Defined.

Lemma second_New :
  New background "second" [] built_state
  = Some (Ret (Some (initial_service background "second" built_state), None),
          initial_state built_state).
Proof. reflexivity. Qed.

Lemma flags_are_not_shared_witness :
  New background "test" main_options state0
  = Some (Ret (Some built_service, None), built_state)
  /\ New background "second" [] built_state
     = Some (Ret (Some (initial_service background "second" built_state), None),
             initial_state built_state)
  /\ isReady built_service <> isReady (initial_service background "second" built_state).
Proof.
  split; [exact built_is_New|]. split; [exact second_New|].
  exact (proj1 (flags_are_not_shared all_up background background "test" "second"
                  main_options [] state0 built_state built_state
                  (initial_state built_state) built_service
                  (initial_service background "second" built_state)
                  eq_refl eq_refl built_is_New (reflexivity _) second_New)).
Defined.

Lemma IsAlive_never_panics_witness :
  Service_DB bare = None
  /\ checkDBAlive bare state0 = Some (Panic nil_deref, state0)
  /\ forall o st', IsAlive all_up 1 full state0 = Some (o, st') -> exists a, o = Ret a.
Proof.
  split; [reflexivity|]. split.
  - exact (proj1 (proj2 (IsAlive_never_panics all_up 1 bare)) eq_refl state0).
  - exact (proj1 (IsAlive_never_panics all_up 1 full) state0).
Defined.

Lemma grpc_is_down : grpc_down (env None ":8080") (ctx one_grpc) ":8080".
Proof. intros w. reflexivity. Qed.


Lemma worker_is_registered :
  SubServices with_subs !! "worker" = Some (sub "worker" false None).
Proof. vm_compute. reflexivity. Qed.

Lemma subservice_not_ready_is_reported_witness :
  SubServices with_subs !! "worker" = Some (sub "worker" false None)
  /\ (forall w, fst (SubService_Ready (sub "worker" false None) w) = false)
  /\ (forall st',
        Ready all_up 1 with_subs state_flag = Some (Ret tt, st') ->
        exists l, isReady with_subs = Some l
                  /\ atomics st' !! l = Some (Some (VBool false)))
  /\ (fun r => atomics (snd r) !! 0%nat) <$> Ready all_up 1 with_subs state_flag
     = Some (Some (Some (VBool false))).
Proof.
  split; [exact worker_is_registered|]. split; [reflexivity|]. split.
  - exact (proj1 (subservice_not_ready_is_reported all_up 1 with_subs "worker"
                    (sub "worker" false None) worker_is_registered
                    (fun w => eq_refl)) state_flag).
  - vm_compute. reflexivity.
Defined.

Lemma full_is_reachable : reachable_within all_up 1 full.
Proof. intros srv Hin w. exists 0%nat. split; [repeat constructor|reflexivity]. Qed.

Lemma full_is_healthy : all_healthy all_up full.
Proof.
  split; [|split].
  - intros srv w Hin. apply list_elem_of_singleton in Hin as ->. reflexivity.
  - intros d w Hd. inversion Hd. reflexivity.
  - intros r w Hr. inversion Hr. reflexivity.
Qed.

Lemma healthy_is_alive_and_ready_witness :
  reachable_within all_up 1 full
  /\ all_healthy all_up full
  /\ (exists st', IsAlive all_up 1 full state0 = Some (Ret true, st'))
  /\ fst <$> IsAlive all_up 1 full state0 = Some (Ret true).
Proof.
  split; [exact full_is_reachable|]. split; [exact full_is_healthy|]. split.
  - exact (proj1 (healthy_is_alive_and_ready all_up 1 full full_is_reachable
                    full_is_healthy) state0).
  - reflexivity.
Defined.

Lemma idle_is_alive_and_ready_witness :
  idle bare
  /\ IsAlive (env None "") 0 bare state_flag = Some (Ret true, state_flag)
  /\ Ready (env None "") 0 bare state_flag
     = Some (Ret tt,
             set_atomics (<[0%nat := Some (VBool true)]> (atomics state_flag)) state_flag).
Proof.
  assert (idle bare) as Hidle by (repeat split).
  split; [exact Hidle|]. split.
  - exact (proj1 (idle_is_alive_and_ready (env None "") 0 bare state_flag Hidle)).
  - apply (proj2 (idle_is_alive_and_ready (env None "") 0 bare state_flag Hidle)
             0%nat false); [reflexivity|vm_compute; reflexivity].
Defined.

Lemma one_grpc_checked :
  exists st', checkGRPCServerUp all_up one_grpc state0 = Some (Ret true, st').
Proof. eexists. reflexivity. Qed.

Lemma checkGRPCServerUp_closes_one_connection_witness :
  exists st',
    checkGRPCServerUp all_up one_grpc state0 = Some (Ret true, st')
    /\ (count is_grpc_close (trace st') <= count is_grpc_close (trace state0) + 1)%nat
    /\ count is_grpc_dial (trace st')
       = (count is_grpc_dial (trace state0) + length (GRPCServers one_grpc))%nat.
Proof.
  destruct one_grpc_checked as [st' H]. exists st'. split; [exact H|].
  destruct (checkGRPCServerUp_closes_one_connection all_up one_grpc state0 true st' H)
    as (Hc & Hd & _).
  split; [exact Hc|exact (Hd eq_refl)].
Defined.

Lemma doubles_give_conn up bad : dial_gives_conn (env up bad).
Proof.
  intros network addr timeout w. simpl.
  destruct up as [k|]; [destruct (k <=? dials w)%nat|]; simpl; intros H;
    [reflexivity|discriminate|discriminate].
Qed.

Lemma one_listener_checked :
  exists st',
    checkHTTPServerUp (env (Some 2%nat) "") 3 (plain_server ":8081") state0
    = Some (Ret true, st').
Proof. eexists. reflexivity. Qed.

Lemma checkHTTPServerUp_closes_its_connection_witness :
  dial_gives_conn (env (Some 2%nat) "")
  /\ exists st',
       checkHTTPServerUp (env (Some 2%nat) "") 3 (plain_server ":8081") state0
       = Some (Ret true, st')
       /\ count is_conn_close (trace st') = (count is_conn_close (trace state0) + 1)%nat.
Proof.
  split; [apply doubles_give_conn|].
  destruct one_listener_checked as [st' H]. exists st'. split; [exact H|].
  exact (checkHTTPServerUp_closes_its_connection (env (Some 2%nat) "") 3
           (plain_server ":8081") state0 _ st' (doubles_give_conn _ _) H).
Defined.

Lemma flagless_is_reachable : reachable_within all_up 1 flagless.
Proof. intros srv Hin. inversion Hin. Qed.


Lemma with_subs_evaluated :
  exists st', Ready all_up 1 with_subs state_flag = Some (Ret tt, st').
Proof. eexists. vm_compute. reflexivity. Qed.

Lemma Ready_asks_every_subservice_witness :
  exists st',
    Ready all_up 1 with_subs state_flag = Some (Ret tt, st')
    /\ List.filter is_sub_ready (trace st')
       = List.filter is_sub_ready (trace state_flag)
         ++ map (fun kv => EvCall (CallSubReady (fst kv)))
              (map_range all_up (SubServices with_subs) (ext state_flag))
    /\ length (List.filter is_ready_line (trace st')) = 2%nat.
Proof.
  destruct with_subs_evaluated as [st' H]. exists st'. split; [exact H|].
  destruct (Ready_asks_every_subservice all_up 1 with_subs state_flag st' H)
    as (Hcalls & Hlines & _).
  split; [exact Hcalls|]. rewrite Hlines. vm_compute. reflexivity.
Defined.

Lemma built_is_wired : wired 0%nat built_service.
Proof. split; [reflexivity|]. repeat constructor. Qed.

Lemma built_evaluated :
  exists st', Ready all_up 1 built_service built_state = Some (Ret tt, st').
Proof. eexists. vm_compute. reflexivity. Qed.

Lemma ready_routes_serve_the_evaluation_witness :
  wired 0%nat built_service
  /\ exists st' (v : bool),
       Ready all_up 1 built_service built_state = Some (Ret tt, st')
       /\ atomics st' = <[0%nat := Some (VBool v)]> (atomics built_state)
       /\ Forall (fun srv =>
                    ServeHTTP all_up 1 built_service (Handler srv) "GET" "/ready"
                      NewRecorder st'
                    = Some (Ret (if v then WriteHeader http_StatusOK NewRecorder
                                 else AnswerWithJSONError NewRecorder
                                        http_StatusServiceUnavailable), st'))
                 (HTTPServers built_service).
Proof.
  split; [exact built_is_wired|].
  destruct built_evaluated as [st' H].
  destruct (ready_routes_serve_the_evaluation all_up 1 built_service 0%nat built_state st'
              built_is_wired H) as (v & Hst & Hserve).
  exists st', v. split; [exact H|]. split; [exact Hst|].
  apply Forall_forall. intros srv Hin. apply Hserve; [exact Hin|left; reflexivity].
Defined.

Lemma ready_panics_on_an_empty_flag_witness :
  atomics state_empty_flag !! 0%nat = Some None
  /\ (exists msg, ready ([] ++ Some 0%nat :: []) NewRecorder state_empty_flag
                  = Some (Panic msg, state_empty_flag))
  /\ ServeHTTP all_up 1 bare (tech_router (Some 0%nat)) "GET" "/ready" NewRecorder
       state_empty_flag
     = Some (Ret (WriteHeader http_StatusInternalServerError NewRecorder), state_empty_flag).
Proof.
  assert (atomics state_empty_flag !! 0%nat = Some None) as Hl
      by (vm_compute; reflexivity).
  assert (forall q : option loc, q ∈ [] -> flag_reads state_empty_flag q true) as Hpre
      by (intros q Hq; inversion Hq).
  split; [exact Hl|].
  destruct (ready_panics_on_an_empty_flag all_up 1 bare [] 0%nat [] "/ready" NewRecorder
              state_empty_flag Hpre Hl (or_introl eq_refl)) as (Hpanic & H500 & _).
  split; [exact Hpanic|exact H500].
Defined.

Lemma cancelled_Start :
  exists st', Start all_up (set_ctx cancelled bare) state0 = Some (Ret (Some Canceled), st').
Proof. eexists. reflexivity. Qed.


Lemma Start_needs_a_cancellable_context_witness :
  forallb recognized main_options = true
  /\ ctx_Done background = None
  /\ New background "test" main_options state0
     = Some (Ret (Some built_service, None), built_state)
  /\ Start all_up built_service built_state = None.
Proof.
  split; [reflexivity|]. split; [reflexivity|]. split; [exact built_is_New|].
  exact (Start_needs_a_cancellable_context all_up background "test" main_options state0
           built_service built_state eq_refl eq_refl built_is_New built_state).
Defined.


Lemma dead_db_checked :
  exists st', IsAlive all_up 1 (set_DB (Some dead_db) bare) state0 = Some (Ret false, st').
Proof. eexists. reflexivity. Qed.

Lemma live_route_is_IsAlive_witness :
  exists st',
    IsAlive all_up 1 (set_DB (Some dead_db) bare) state0 = Some (Ret false, st')
    /\ ServeHTTP all_up 1 (set_DB (Some dead_db) bare) (tech_router (Some 0%nat))
         "GET" "/health/live" NewRecorder state0
       = Some (Ret (AnswerWithJSONError NewRecorder http_StatusServiceUnavailable), st').
Proof.
  destruct dead_db_checked as [st' H]. exists st'. split; [exact H|].
  exact (proj1 (live_route_is_IsAlive all_up 1 (set_DB (Some dead_db) bare)
                  (Some 0%nat) NewRecorder state0) false st' H).
Defined.


Lemma greeter_registered :
  exists s' st',
    AddGRPCService ":8080" greeter three_grpc state0 = Some (Ret (None, s'), st').
Proof. eexists. eexists. reflexivity. Qed.

Lemma AddGRPCService_twice_is_fatal_witness :
  exists s' st',
    AddGRPCService ":8080" greeter three_grpc state0 = Some (Ret (None, s'), st')
    /\ AddGRPCService ":8080" greeter s' st' = Some (Exit 1, st').
Proof.
  destruct greeter_registered as (s' & st' & H). exists s', st'. split; [exact H|].
  exact (AddGRPCService_twice_is_fatal ":8080" greeter three_grpc state0 s' st' H st').
Defined.

Lemma with_subs_alive :
  exists st', IsAlive all_up 1 with_subs state0 = Some (Ret true, st').
Proof. eexists. reflexivity. Qed.

Lemma IsAlive_ignores_subservices_witness :
  exists st',
    IsAlive all_up 1 with_subs state0 = Some (Ret true, st')
    /\ List.filter is_sub_ready (trace st') = List.filter is_sub_ready (trace state0)
    /\ IsAlive all_up 1 (set_SubServices ∅ with_subs) state0
       = IsAlive all_up 1 with_subs state0.
Proof.
  destruct with_subs_alive as [st' H]. exists st'. split; [exact H|]. split.
  - exact (proj2 (IsAlive_ignores_subservices all_up 1 with_subs state0) true st' H).
  - exact (proj1 (IsAlive_ignores_subservices all_up 1 with_subs state0) ∅).
Defined.

End MoreInstances.
